(** * Amirabot conversation analysis: the AI analysis pipeline

    A shallow embedding of [amira_analysis/analyzers/ai.py] and of
    [QualityAnalysis.to_dict] from [amira_analysis/models.py], followed
    by the rule-based analyzer of [analyzers/base.py], [from_dict] and
    [to_dict] of [models.py], the page loop and the cache of
    [fetcher.py], and validation and triage of [reports.py].

    - Python [int] is [Z]; [str] is [string]; [X | None] is [option X].
    - [dict[str, Any]] is an insertion-ordered association list.
    - The cache directory is a finite map from file names to file
      contents: the files the process can reach. Paths are joined as
      pathlib joins them on POSIX.
    - Exceptions are an explicit outcome; loggers, the Judge (the OpenAI
      client), the JSON codec and the file system faults are explicit
      parts of the environment: a write that fails at the open or part
      way, and a path the system cannot resolve, on which every call
      raises, [exists()] included.
    - A mean is the exact quotient; Python stores the float nearest it. *)

From Stdlib Require Import QArith Ascii.
From stdpp Require Import gmap strings list fin_maps sorting pretty.

Local Open Scope string_scope.
Local Open Scope Z_scope.
Local Open Scope list_scope.

(** ** constants.py *)

Definition DEFAULT_AI_CONCURRENCY : nat := 500.
Definition DEFAULT_AI_MAX_RETRIES : nat := 4.

(** [class IssueType(StrEnum)] *)
Inductive IssueType :=
  | REPETITIVE | UNHELPFUL | TOO_MANY_TURNS | DEAD_END | NEGATIVE_RATING
  | OBVIOUS_WRONG_ANSWER | MISSED_ESCALATION | DUMB_QUESTION
  | LACK_OF_ENCOURAGEMENT | INTENT_MISRECOGNITION.

#[global] Instance IssueType_eq_dec : EqDecision IssueType.
Proof. solve_decision. Defined.

(** ** Enumerations of ai.py *)

Module IssueTypeEnum.

Inductive t :=
  | OBVIOUS_WRONG_ANSWER | MISSED_ESCALATION | DUMB_QUESTION
  | REPETITIVE | LACK_OF_ENCOURAGEMENT | DEAD_END.

#[global] Instance eq_dec : EqDecision t.
Proof. solve_decision. Defined.

End IssueTypeEnum.

Inductive SeverityLevel := SevLOW | SevMEDIUM | SevHIGH.
Inductive ConfidenceLevel := ConfLOW | ConfMEDIUM | ConfHIGH.
Inductive VerdictEnum := PASS | FAIL.
Inductive PositiveBehavior :=
  | FAST_OBVIOUS_ANSWER | CLEAR_ESCALATION | EMPATHETIC_TONE
  | GOOD_CONSTRAINTS_USE | CONCISE_STEPS.

#[global] Instance SeverityLevel_eq_dec : EqDecision SeverityLevel.
Proof. solve_decision. Defined.
#[global] Instance ConfidenceLevel_eq_dec : EqDecision ConfidenceLevel.
Proof. solve_decision. Defined.
#[global] Instance VerdictEnum_eq_dec : EqDecision VerdictEnum.
Proof. solve_decision. Defined.
#[global] Instance PositiveBehavior_eq_dec : EqDecision PositiveBehavior.
Proof. solve_decision. Defined.

(** The [.value] of the string enums. *)
Definition ConfidenceLevel_value (c : ConfidenceLevel) : string :=
  match c with ConfLOW => "low" | ConfMEDIUM => "medium" | ConfHIGH => "high" end.

Definition VerdictEnum_value (v : VerdictEnum) : string :=
  match v with PASS => "PASS" | FAIL => "FAIL" end.

(** ** Pydantic models of ai.py *)

Record OnTopicRefusalIncorrect := {
  otr_messages : list Z;
  otr_evidence : string;
  why_incorrect : string }.

Record RefusalAssessment := {
  off_topic_refusals_count : Z;
  on_topic_refusals_incorrect : list OnTopicRefusalIncorrect }.

Record IssueFlag := {
  type : IssueTypeEnum.t;
  severity : SeverityLevel;
  confidence : ConfidenceLevel;
  messages : list Z;
  evidence : string;
  why_it_matters : string;
  recommended_fix : string }.

Record PositiveNote := {
  behavior : PositiveBehavior;
  pn_messages : list Z;
  pn_evidence : string }.

Record MetricsBreakdown := {
  correctness_score : Z;
  escalation_score : Z;
  question_quality_score : Z;
  progress_score : Z;
  tone_encouragement_score : Z;
  no_dead_end_score : Z }.

Record ConversationAnalysisResult := {
  overall_score : Z;
  overall_verdict : VerdictEnum;
  summary : string;
  metrics : MetricsBreakdown;
  refusal_assessment : RefusalAssessment;
  flags : list IssueFlag;
  positives : list PositiveNote;
  next_best_step : string;
  suggested_handoff_message : option string;
  notes_for_training : string;
  prize_candidate : bool;
  prize_reason : option string;
  cycles_without_progress : Z;
  has_clear_next_step : bool }.

(** ** models.py *)

Record Message := {
  role : string;
  content : string;
  timestamp : option string }.

Record Conversation := {
  id : string;
  conv_messages : list Message;
  created_at : string;
  status : option string;
  rating : option Z }.

(** The values that end up in an issue's [details: dict[str, Any]]. *)
Inductive pyval :=
  | VNone
  | VInt (n : Z)
  | VStr (s : string)
  | VList (l : list Z).

#[global] Instance pyval_eq_dec : EqDecision pyval.
Proof. solve_decision. Defined.

Definition of_opt_str (o : option string) : pyval :=
  match o with Some s => VStr s | None => VNone end.

Definition of_opt_int (o : option Z) : pyval :=
  match o with Some n => VInt n | None => VNone end.

Record ConversationIssue := {
  conversation_id : string;
  issue_type : IssueType;
  details : list (string * pyval);
  severity_score : option Z;
  ai_reasoning : option string;
  excerpt : option string }.

#[global] Instance ConversationIssue_eq_dec : EqDecision ConversationIssue.
Proof. solve_decision. Defined.

Record QualityAnalysis := {
  total_analyzed : nat;
  repetitive : list ConversationIssue;
  unhelpful : list ConversationIssue;
  too_many_turns : list ConversationIssue;
  dead_end : list ConversationIssue;
  negative_rating : list ConversationIssue;
  obvious_wrong_answers : list ConversationIssue;
  missed_escalation : list ConversationIssue;
  dumb_questions : list ConversationIssue;
  lack_of_encouragement : list ConversationIssue }.

(** ** [AIConversationAnalyzer._result_to_issues] *)

(** [d.get(k, default)] on a dict literal, kept as its list of items. *)
Fixpoint dict_get {K V} `{EqDecision K} (d : list (K * V)) (k : K) (default : V) : V :=
  match d with
  | [] => default
  | (k', v) :: d' => if decide (k' = k) then v else dict_get d' k default
  end.

Definition issue_type_map : list (IssueTypeEnum.t * IssueType) :=
  [ (IssueTypeEnum.OBVIOUS_WRONG_ANSWER, OBVIOUS_WRONG_ANSWER);
    (IssueTypeEnum.MISSED_ESCALATION, MISSED_ESCALATION);
    (IssueTypeEnum.DUMB_QUESTION, DUMB_QUESTION);
    (IssueTypeEnum.REPETITIVE, REPETITIVE);
    (IssueTypeEnum.LACK_OF_ENCOURAGEMENT, LACK_OF_ENCOURAGEMENT);
    (IssueTypeEnum.DEAD_END, DEAD_END) ].

Definition severity_map : list (SeverityLevel * Z) :=
  [ (SevLOW, 3); (SevMEDIUM, 6); (SevHIGH, 9) ].

(** The body of the [for flag in result.flags] loop: the issue appended
    for one flag. *)
Definition flag_to_issue (conversation : Conversation)
    (result : ConversationAnalysisResult) (flag : IssueFlag) : ConversationIssue :=
  let issue_type := dict_get issue_type_map (type flag) UNHELPFUL in
  let severity_score := dict_get severity_map (severity flag) 5 in
  {| conversation_id := id conversation;
     issue_type := issue_type;
     details :=
       [ ("message_count", VInt (Z.of_nat (length (conv_messages conversation))));
         ("status", of_opt_str (status conversation));
         ("rating", of_opt_int (rating conversation));
         ("overall_score", VInt (overall_score result));
         ("overall_verdict", VStr (VerdictEnum_value (overall_verdict result)));
         ("messages_involved", VList (messages flag));
         ("confidence", VStr (ConfidenceLevel_value (confidence flag)));
         ("recommended_fix", VStr (recommended_fix flag)) ];
     severity_score := Some severity_score;
     ai_reasoning := Some (why_it_matters flag +:+ " | " +:+ recommended_fix flag);
     excerpt := Some (evidence flag) |}.

(** [issues = []; for flag in result.flags: issues.append(...)]. *)
Definition _result_to_issues (conversation : Conversation)
    (result : ConversationAnalysisResult) : list ConversationIssue :=
  fold_left (fun issues flag => issues ++ [flag_to_issue conversation result flag])
            (flags result) [].

(** ** The aggregation half of [AIConversationAnalyzer.analyze_async] *)

(** The seven local lists [obvious_wrong_answers], ..., [unhelpful]. *)
Record Buckets := {
  b_obvious_wrong_answers : list ConversationIssue;
  b_missed_escalation : list ConversationIssue;
  b_dumb_questions : list ConversationIssue;
  b_repetitive : list ConversationIssue;
  b_lack_of_encouragement : list ConversationIssue;
  b_dead_end : list ConversationIssue;
  b_unhelpful : list ConversationIssue }.

Definition empty_buckets : Buckets := Build_Buckets [] [] [] [] [] [] [].

(** The [if ... elif ... else] chain run for one issue. *)
Definition categorize_issue (b : Buckets) (issue : ConversationIssue) : Buckets :=
  let 'Build_Buckets owa me dq rep loe de unh := b in
  if decide (issue_type issue = OBVIOUS_WRONG_ANSWER) then
    Build_Buckets (owa ++ [issue]) me dq rep loe de unh
  else if decide (issue_type issue = MISSED_ESCALATION) then
    Build_Buckets owa (me ++ [issue]) dq rep loe de unh
  else if decide (issue_type issue = DUMB_QUESTION) then
    Build_Buckets owa me (dq ++ [issue]) rep loe de unh
  else if decide (issue_type issue = REPETITIVE) then
    Build_Buckets owa me dq (rep ++ [issue]) loe de unh
  else if decide (issue_type issue = LACK_OF_ENCOURAGEMENT) then
    Build_Buckets owa me dq rep (loe ++ [issue]) de unh
  else if decide (issue_type issue = DEAD_END) then
    Build_Buckets owa me dq rep loe (de ++ [issue]) unh
  else
    Build_Buckets owa me dq rep loe de (unh ++ [issue]).

(** [for issues_list in results: for issue in issues_list: ...] *)
Definition categorize (results : list (list ConversationIssue)) : Buckets :=
  fold_left (fun b issues_list => fold_left categorize_issue issues_list b)
            results empty_buckets.

(** [x or 0] for [x : int | None]: [None] and [0] are falsy. *)
Definition or_zero (x : option Z) : Z :=
  match x with
  | Some n => if decide (n = 0) then 0 else n
  | None => 0
  end.

(** [x if x is not None else 0]. *)
Definition if_not_none_else_zero (x : option Z) : Z :=
  match x with Some n => n | None => 0 end.

(** [list.sort(key=key, reverse=True)] and [sorted(..., reverse=True)]:
    a stable sort into descending key order (equal keys keep their
    original relative order). A stable sort has a single possible output,
    so insertion from the right computes the same list as Python does. *)
Fixpoint insert_desc {A} (key : A -> Z) (x : A) (l : list A) : list A :=
  match l with
  | [] => [x]
  | y :: l' =>
      if decide (key y <= key x) then x :: y :: l'
      else y :: insert_desc key x l'
  end.

Definition sort_reverse {A} (key : A -> Z) (l : list A) : list A :=
  foldr (insert_desc key) [] l.

Definition severity_key (x : ConversationIssue) : Z := or_zero (severity_score x).

(** Lines 569-618 of [analyze_async]: what it computes from
    [len(conversations)] and the list [results], which holds one list of
    issues per conversation in completion order. *)
Definition analyze_async_aggregate (n_conversations : nat)
    (results : list (list ConversationIssue)) : QualityAnalysis :=
  let b := categorize results in
  {| total_analyzed := n_conversations;
     repetitive := sort_reverse severity_key (b_repetitive b);
     unhelpful := sort_reverse severity_key (b_unhelpful b);
     too_many_turns := [];
     dead_end := sort_reverse severity_key (b_dead_end b);
     negative_rating := [];
     obvious_wrong_answers := sort_reverse severity_key (b_obvious_wrong_answers b);
     missed_escalation := sort_reverse severity_key (b_missed_escalation b);
     dumb_questions := sort_reverse severity_key (b_dumb_questions b);
     lack_of_encouragement := sort_reverse severity_key (b_lack_of_encouragement b) |}.

(** The nine category lists of an analysis, in the order [to_dict]
    concatenates them. *)
Definition categories (qa : QualityAnalysis) : list (list ConversationIssue) :=
  [ repetitive qa; unhelpful qa; too_many_turns qa; dead_end qa;
    negative_rating qa; obvious_wrong_answers qa; missed_escalation qa;
    dumb_questions qa; lack_of_encouragement qa ].

(** ** [QualityAnalysis.to_dict] *)

(** The value stored under ["summary"]. [average_severity] is the exact
    quotient; Python stores the float nearest to it. *)
Record Summary := {
  conversations_with_issues : nat;
  average_severity : Q;
  total_issues_found : nat }.

(** The returned dict. [asdict(issue)] carries exactly the fields of the
    issue, so the issue stands for it; an absent key is [None]. *)
Record AnalysisDict := {
  d_total_analyzed : nat;
  d_repetitive : list ConversationIssue;
  d_unhelpful : list ConversationIssue;
  d_too_many_turns : list ConversationIssue;
  d_dead_end : list ConversationIssue;
  d_negative_rating : list ConversationIssue;
  d_obvious_wrong_answers : list ConversationIssue;
  d_missed_escalation : list ConversationIssue;
  d_dumb_questions : list ConversationIssue;
  d_lack_of_encouragement : list ConversationIssue;
  d_summary : option Summary;
  d_top_offenders : option (list ConversationIssue) }.

Definition all_issues (qa : QualityAnalysis) : list ConversationIssue :=
  repetitive qa ++ unhelpful qa ++ too_many_turns qa ++ dead_end qa
  ++ negative_rating qa ++ obvious_wrong_answers qa ++ missed_escalation qa
  ++ dumb_questions qa ++ lack_of_encouragement qa.

Definition is_scored (issue : ConversationIssue) : bool :=
  match severity_score issue with Some _ => true | None => false end.

Definition scored_issues (qa : QualityAnalysis) : list ConversationIssue :=
  List.filter is_scored (all_issues qa).

Definition sum_Z (l : list Z) : Z := fold_left Z.add l 0.

(** [a / b] on ints, for [b > 0]. *)
Definition truediv (a : Z) (b : nat) : Q := a # Pos.of_nat b.

Definition id_set (l : list ConversationIssue) : gset string :=
  list_to_set (map conversation_id l).

Definition to_dict_summary (qa : QualityAnalysis) : Summary :=
  let scored := scored_issues qa in
  {| conversations_with_issues := size (id_set (all_issues qa));
     average_severity :=
       match scored with
       | [] => 0%Q
       | _ => truediv (sum_Z (map (fun i => if_not_none_else_zero (severity_score i)) scored))
                      (length scored)
       end;
     total_issues_found := length (all_issues qa) |}.

Definition to_dict_top_offenders (qa : QualityAnalysis) : list ConversationIssue :=
  take 20 (sort_reverse (fun x => if_not_none_else_zero (severity_score x))
                        (List.filter is_scored (all_issues qa))).

Definition to_dict (qa : QualityAnalysis) : AnalysisDict :=
  let guard :=
    negb (bool_decide (all_issues qa = [])) && existsb is_scored (all_issues qa) in
  {| d_total_analyzed := total_analyzed qa;
     d_repetitive := repetitive qa;
     d_unhelpful := unhelpful qa;
     d_too_many_turns := too_many_turns qa;
     d_dead_end := dead_end qa;
     d_negative_rating := negative_rating qa;
     d_obvious_wrong_answers := obvious_wrong_answers qa;
     d_missed_escalation := missed_escalation qa;
     d_dumb_questions := dumb_questions qa;
     d_lack_of_encouragement := lack_of_encouragement qa;
     d_summary := if guard then Some (to_dict_summary qa) else None;
     d_top_offenders := if guard then Some (to_dict_top_offenders qa) else None |}.

(** ** Effects: exceptions, the cache directory, the logger, the Judge *)

Inductive exn :=
  | JSONDecodeError      (* json.load on text that is not JSON *)
  | ValidationError      (* pydantic model_validate / instructor schema failure *)
  | OSError              (* file system failure *)
  | APIError             (* transport, timeout or rate-limit failure of the Judge *)
  | RetryError.          (* tenacity, once its stop condition holds *)

#[global] Instance exn_eq_dec : EqDecision exn.
Proof. solve_decision. Defined.

Inductive outcome (A : Type) :=
  | Returned (a : A)
  | Raised (e : exn).
Arguments Returned {A} a.
Arguments Raised {A} e.

Inductive LogLevel := TRACE | DEBUG | WARNING | ERROR.

(** One constructor per logger call of the analyzer's per-conversation
    methods, carrying the values its f-string interpolates. *)
Inductive LogEvent :=
  | LoadedCached (conversation_id : string)
  | FailedToLoadCached (conversation_id : string) (e : exn)
  | SavedAnalysis (conversation_id : string)
  | FailedToSave (conversation_id : string) (e : exn)
  | UsingCached (conversation_id : string)
  | StartingApiCall (conversation_id : string)
  | AcquiredSlot (conversation_id : string)
  | CompletedApiCall (conversation_id : string)
  | ErrorAnalyzing (conversation_id : string) (e : exn).

#[global] Instance LogEvent_eq_dec : EqDecision LogEvent.
Proof. solve_decision. Defined.

Definition level_of (ev : LogEvent) : LogLevel :=
  match ev with
  | LoadedCached _ | SavedAnalysis _ => DEBUG
  | FailedToLoadCached _ _ | FailedToSave _ _ => WARNING
  | UsingCached _ | StartingApiCall _ | AcquiredSlot _ | CompletedApiCall _ => TRACE
  | ErrorAnalyzing _ _ => ERROR
  end.

(** What a run can change and what can be observed of it afterwards. *)
Record World := {
  fs : gmap string string;      (* the files: path to text *)
  log : list LogEvent;          (* logger calls, oldest first *)
  judge_calls : list string;    (* conversation id of each Judge invocation *)
  sleeps : list Z }.            (* seconds slept by the retry wrapper *)

(** How a write of a file goes wrong, when it does. *)
Inductive Fault :=
  | NoFault
  | OpenFails (e : exn)                 (* open("w") raises: nothing touched *)
  | WriteFails (written : nat) (e : exn). (* raises after [written] characters *)

(** The collaborators that are not code of the repository. The Judge
    answers a conversation's [n]-th invocation (counted from 0); the
    prompt it receives is a function of the conversation. [json_load] is
    [json.load] followed by [ConversationAnalysisResult.model_validate];
    [json_dump] is [json.dump(result.model_dump(mode="json"), indent=2)].
    [resolves] tells the two ways apart in which a path cannot be opened:
    a path the system resolves but will not open for writing (a read-only
    directory, a full disk), and a path it cannot resolve at all (a name
    too long, a directory that may not be searched), on which every
    call raises, [stat] included. *)
Record Env := {
  judge : Conversation -> nat -> outcome ConversationAnalysisResult;
  json_load : string -> outcome ConversationAnalysisResult;
  json_dump : ConversationAnalysisResult -> string;
  write_fault : string -> Fault;
  resolves : string -> bool }.

(** The [OSError] every call on a path raises, when the system cannot
    resolve the path. *)
Definition unresolvable (env : Env) (path : string) : option exn :=
  match write_fault env path with
  | OpenFails e => if resolves env path then None else Some e
  | _ => None
  end.

(** The fields of [self] that the per-conversation code reads. *)
Record AIConversationAnalyzer := {
  max_concurrency : nat;
  no_cache : bool;
  output_dir : string }.

Definition Eff (A : Type) : Type := World -> outcome A * World.

Definition ret {A} (a : A) : Eff A := fun w => (Returned a, w).

Definition raise {A} (e : exn) : Eff A := fun w => (Raised e, w).

Definition bind {A B} (m : Eff A) (k : A -> Eff B) : Eff B :=
  fun w =>
    match m w with
    | (Returned a, w') => k a w'
    | (Raised e, w') => (Raised e, w')
    end.

(** [try: body except Exception as e: handler(e)] *)
Definition try_except {A} (body : Eff A) (handler : exn -> Eff A) : Eff A :=
  fun w =>
    match body w with
    | (Returned a, w') => (Returned a, w')
    | (Raised e, w') => handler e w'
    end.

Notation "'let*' x ':=' m 'in' k" := (bind m (fun x => k))
  (at level 10, x pattern, m at level 100, k at level 200).
Notation "m ';;' k" := (bind m (fun _ => k))
  (at level 100, k at level 200, right associativity).

Definition set_fs (f : gmap string string -> gmap string string) (w : World) : World :=
  {| fs := f (fs w); log := log w; judge_calls := judge_calls w; sleeps := sleeps w |}.

Definition logger (ev : LogEvent) : Eff unit :=
  fun w => (Returned tt,
            {| fs := fs w; log := log w ++ [ev];
               judge_calls := judge_calls w; sleeps := sleeps w |}).

Definition sleep (seconds : Z) : Eff unit :=
  fun w => (Returned tt,
            {| fs := fs w; log := log w;
               judge_calls := judge_calls w; sleeps := sleeps w ++ [seconds] |}).

(** [cache_path.exists()]. [Path.exists] answers [False] for a file that
    is not there and re-raises the [OSError] of a path it cannot examine.
    [fs] holds the files the process can reach, so a file in [fs] is
    found. *)
Definition path_exists (env : Env) (path : string) : Eff bool :=
  fun w =>
    match fs w !! path with
    | Some _ => (Returned true, w)
    | None =>
        match unresolvable env path with
        | Some e => (Raised e, w)
        | None => (Returned false, w)
        end
    end.

(** [with path.open("r") as f: data = json.load(f)] and the validation. *)
Definition read_validated (env : Env) (path : string) : Eff ConversationAnalysisResult :=
  fun w =>
    match fs w !! path with
    | None => (Raised OSError, w)
    | Some text => (json_load env text, w)
    end.

(** [with path.open("w") as f: json.dump(..., f)]: opening for writing
    truncates the file, then the text is written front to back. *)
Definition write_text (env : Env) (path : string) (text : string) : Eff unit :=
  fun w =>
    match write_fault env path with
    | NoFault => (Returned tt, set_fs <[path := text]> w)
    | OpenFails e => (Raised e, w)
    | WriteFails written e =>
        (Raised e, set_fs <[path := String.substring 0 written text]> w)
    end.

(** [await self.client.chat.completions.create(...)] *)
Definition call_judge (env : Env) (conversation : Conversation)
  : Eff ConversationAnalysisResult :=
  fun w =>
    let n := length (List.filter (fun c => bool_decide (c = id conversation)) (judge_calls w)) in
    (judge env conversation n,
     {| fs := fs w; log := log w;
        judge_calls := judge_calls w ++ [id conversation]; sleeps := sleeps w |}).

(** [EMPTY_STRING] of constants.py. *)
Abbreviation EMPTY_STRING := EmptyString (only parsing).

(** [sep.join(parts)] *)
Fixpoint join (sep : string) (parts : list string) : string :=
  match parts with
  | [] => EMPTY_STRING
  | [x] => x
  | x :: rest => x +:+ sep +:+ join sep rest
  end.

(** [s.split(sep)] for a separator of one character. *)
Fixpoint split_on (sep : Ascii.ascii) (s : string) : list string :=
  match s with
  | EmptyString => [EmptyString]
  | String a s' =>
      if decide (a = sep) then EmptyString :: split_on sep s'
      else match split_on sep s' with
           | [] => [String a EmptyString]
           | l :: ls => String a l :: ls
           end
  end.

(** pathlib on POSIX. [splitroot]: the root of a path text (two leading
    slashes are a root of their own, one or three and more are [/]) and
    the rest; [path_components]: the names of a relative path, empty ones
    and [.] dropped, [..] kept. *)
Fixpoint lstrip_sep (s : string) : nat * string :=
  match s with
  | String a s' =>
      if decide (a = "/"%char)
      then let '(k, rest) := lstrip_sep s' in (S k, rest)
      else (O, s)
  | EmptyString => (O, s)
  end.

Definition splitroot (part : string) : string * string :=
  let '(k, rest) := lstrip_sep part in
  match k with
  | O => (EMPTY_STRING, part)
  | 2%nat => ("//", rest)
  | _ => ("/", rest)
  end.

Definition path_components (rel : string) : list string :=
  List.filter (fun x => negb (bool_decide (x = EMPTY_STRING))
                        && negb (bool_decide (x = ".")))
              (split_on "/"%char rel).

(** [str(Path(a) / b)]: a [b] with a root replaces [a]. *)
Definition path_div (a b : string) : string :=
  let '(root_b, rel_b) := splitroot b in
  let '(root, parts) :=
    if bool_decide (root_b = EMPTY_STRING)
    then let '(root_a, rel_a) := splitroot a in
         (root_a, path_components rel_a ++ path_components rel_b)
    else (root_b, path_components rel_b) in
  if bool_decide (root = EMPTY_STRING) && bool_decide (parts = [])
  then "."
  else root +:+ join "/" parts.

(** [self.output_dir / f"{conversation_id}.json"] *)
Definition cache_file (az : AIConversationAnalyzer) (conversation_id : string) : string :=
  path_div (output_dir az) (conversation_id +:+ ".json").

(** ** [_load_cached_analysis] and [_save_conversation_analysis] *)

Definition _load_cached_analysis (az : AIConversationAnalyzer) (env : Env)
    (conversation_id : string) : Eff (option ConversationAnalysisResult) :=
  let cache_path := cache_file az conversation_id in
  let* present := path_exists env cache_path in
  if negb present then ret None
  else
    try_except
      (let* result := read_validated env cache_path in
       logger (LoadedCached conversation_id) ;;
       ret (Some result))
      (fun e =>
         logger (FailedToLoadCached conversation_id e) ;;
         ret None).

Definition _save_conversation_analysis (az : AIConversationAnalyzer) (env : Env)
    (conversation_id : string) (result : ConversationAnalysisResult) : Eff unit :=
  let output_path := cache_file az conversation_id in
  try_except
    (write_text env output_path (json_dump env result) ;;
     logger (SavedAnalysis conversation_id))
    (fun e => logger (FailedToSave conversation_id e)).

(** ** [_analyze_single_conversation] *)

(** The [except Exception as e] handler of the Judge call. *)
Definition on_judge_error (conversation : Conversation) (e : exn)
  : Eff (list ConversationIssue) :=
  logger (ErrorAnalyzing (id conversation) e) ;;
  ret [].

(** The statements of the [try] block after the awaited call. *)
Definition on_judge_result (az : AIConversationAnalyzer) (env : Env)
    (conversation : Conversation) (result : ConversationAnalysisResult)
  : Eff (list ConversationIssue) :=
  logger (CompletedApiCall (id conversation)) ;;
  _save_conversation_analysis az env (id conversation) result ;;
  ret (_result_to_issues conversation result).

(** Lines 480-490: the cache check. [Some issues] is the early return. *)
Definition cached_issues (az : AIConversationAnalyzer) (env : Env)
    (conversation : Conversation) : Eff (option (list ConversationIssue)) :=
  if negb (no_cache az) then
    let* cached_result := _load_cached_analysis az env (id conversation) in
    match cached_result with
    | Some r =>
        logger (UsingCached (id conversation)) ;;
        ret (Some (_result_to_issues conversation r))
    | None => ret None
    end
  else ret None.

(** The [try] / [except] of lines 497-523, from the point where the
    awaited Judge call delivers [response]. *)
Definition in_slot (az : AIConversationAnalyzer) (env : Env)
    (conversation : Conversation) (response : Eff ConversationAnalysisResult)
  : Eff (list ConversationIssue) :=
  try_except
    (let* result := response in
     on_judge_result az env conversation result)
    (on_judge_error conversation).

(** The undecorated function body. [async with self.semaphore] is where
    the task may be suspended; a task running alone is granted the slot
    at once, so here the block only runs its statements. *)
Definition analyze_single_body (az : AIConversationAnalyzer) (env : Env)
    (conversation : Conversation) : Eff (list ConversationIssue) :=
  let* hit := cached_issues az env conversation in
  match hit with
  | Some issues => ret issues
  | None =>
      logger (StartingApiCall (id conversation)) ;;
      (* async with self.semaphore: *)
      logger (AcquiredSlot (id conversation)) ;;
      in_slot az env conversation (call_judge env conversation)
  end.

(** [tenacity.wait_exponential(multiplier, min, max)] at an attempt
    number (from 1): [max(max(0, min), min(multiplier * 2 ** (n - 1), max))]. *)
Definition wait_exponential (multiplier min max : Z) (attempt_number : nat) : Z :=
  Z.max (Z.max 0 min) (Z.min (multiplier * 2 ^ (Z.of_nat attempt_number - 1)) max).

(** [tenacity.retry(stop=stop_after_attempt(n), wait=wait)]: run the
    function; when it raises, stop with [RetryError] if this was attempt
    [n] (or later), else sleep [wait attempt_number] and run it again.
    A returned value is never retried. [remaining] is [n - attempt_number]. *)
Fixpoint retry_from {A} (remaining : nat) (wait : nat -> Z) (attempt_number : nat)
    (fn : Eff A) : Eff A :=
  fun w =>
    match fn w with
    | (Returned a, w') => (Returned a, w')
    | (Raised e, w') =>
        match remaining with
        | O => (Raised RetryError, w')
        | S remaining' =>
            match sleep (wait attempt_number) w' with
            | (_, w'') => retry_from remaining' wait (S attempt_number) fn w''
            end
        end
    end.

Definition retry {A} (stop_after_attempt : nat) (wait : nat -> Z) (fn : Eff A) : Eff A :=
  retry_from (stop_after_attempt - 1) wait 1 fn.

(** The decorated method. *)
Definition _analyze_single_conversation (az : AIConversationAnalyzer) (env : Env)
    (conversation : Conversation) : Eff (list ConversationIssue) :=
  retry DEFAULT_AI_MAX_RETRIES (wait_exponential 1 2 10)
        (analyze_single_body az env conversation).

(** ** [analyze_async]: the tasks on the event loop

    Every conversation gets one task running the decorated method. A task
    is suspended only at an [await]: on the semaphore, on the Judge call,
    or in the retry wrapper. The event loop resumes one task at a time. *)

Inductive Phase :=
  | Pending (attempt_number : nat)
      (* about to run the body for this attempt *)
  | WaitingSlot (attempt_number : nat)
      (* suspended in [async with self.semaphore], no slot free *)
  | InFlight (attempt_number : nat) (response : outcome ConversationAnalysisResult)
      (* slot held, Judge call sent, its response not yet delivered *)
  | Responded (attempt_number : nat) (response : outcome ConversationAnalysisResult)
      (* slot held, response delivered, rest of the block still to run *)
  | Finished (issues : list ConversationIssue)
  | Failed (e : exn).

Record Pool := {
  world : World;
  sem_value : nat;                          (* free slots of [self.semaphore] *)
  tasks : list Phase;                       (* one per conversation, by index *)
  results : list (list ConversationIssue) }. (* appended as tasks complete *)

Definition set_task (i : nat) (ph : Phase) (w : World) (p : Pool) : Pool :=
  {| world := w; sem_value := sem_value p;
     tasks := <[i := ph]> (tasks p); results := results p |}.

(** The task returns [issues]: [results.append(result)] in the caller. *)
Definition complete (i : nat) (issues : list ConversationIssue) (w : World)
    (slots : nat) (p : Pool) : Pool :=
  {| world := w; sem_value := slots;
     tasks := <[i := Finished issues]> (tasks p);
     results := results p ++ [issues] |}.

(** The body raised on attempt [n]: the retry wrapper stops or sleeps. *)
Definition on_raise (i n : nat) (w : World) (slots : nat) (p : Pool) : Pool :=
  if decide (DEFAULT_AI_MAX_RETRIES <= n)%nat then
    {| world := w; sem_value := slots;
       tasks := <[i := Failed RetryError]> (tasks p); results := results p |}
  else
    {| world := snd (sleep (wait_exponential 1 2 10 n) w); sem_value := slots;
       tasks := <[i := Pending (S n)]> (tasks p); results := results p |}.

(** Entering [async with self.semaphore] with a free slot: take it, log,
    build the prompt and send the Judge call. *)
Definition acquire (env : Env) (conversation : Conversation) (i n : nat)
    (w : World) (p : Pool) : Pool :=
  let w1 := snd (logger (AcquiredSlot (id conversation)) w) in
  let '(response, w2) := call_judge env conversation w1 in
  {| world := w2; sem_value := sem_value p - 1;
     tasks := <[i := InFlight n response]> (tasks p); results := results p |}.

(** One turn of the event loop: task [i] runs up to its next [await].
    [None] when there is no such task or it cannot run. *)
Definition step_task (az : AIConversationAnalyzer) (env : Env)
    (conversations : list Conversation) (i : nat) (p : Pool) : option Pool :=
  match conversations !! i, tasks p !! i with
  | Some conversation, Some (Pending n) =>
      match cached_issues az env conversation (world p) with
      | (Returned (Some issues), w) => Some (complete i issues w (sem_value p) p)
      | (Returned None, w) =>
          let w1 := snd (logger (StartingApiCall (id conversation)) w) in
          if decide (0 < sem_value p)%nat
          then Some (acquire env conversation i n w1 p)
          else Some (set_task i (WaitingSlot n) w1 p)
      | (Raised e, w) => Some (on_raise i n w (sem_value p) p)
      end
  | Some conversation, Some (WaitingSlot n) =>
      if decide (0 < sem_value p)%nat
      then Some (acquire env conversation i n (world p) p)
      else None
  | Some conversation, Some (InFlight n response) =>
      Some (set_task i (Responded n response) (world p) p)
  | Some conversation, Some (Responded n response) =>
      match in_slot az env conversation (fun w => (response, w)) (world p) with
      | (Returned issues, w) => Some (complete i issues w (S (sem_value p)) p)
      | (Raised e, w) => Some (on_raise i n w (S (sem_value p)) p)
      end
  | _, _ => None
  end.

Fixpoint run_schedule (az : AIConversationAnalyzer) (env : Env)
    (conversations : list Conversation) (schedule : list nat) (p : Pool)
  : option Pool :=
  match schedule with
  | [] => Some p
  | i :: schedule' =>
      match step_task az env conversations i p with
      | Some p' => run_schedule az env conversations schedule' p'
      | None => None
      end
  end.

Definition init_pool (az : AIConversationAnalyzer)
    (conversations : list Conversation) (w : World) : Pool :=
  {| world := w; sem_value := max_concurrency az;
     tasks := map (fun _ => Pending 1) conversations; results := [] |}.

Definition is_finished (ph : Phase) : bool :=
  match ph with Finished _ => true | _ => false end.

Definition is_failed (ph : Phase) : bool :=
  match ph with Failed _ => true | _ => false end.

(** [analyze_async] under a schedule of the event loop. [None]: the
    schedule resumes a task that cannot run, or ends before every task is
    done. A task that failed makes [await coro] raise. *)
Definition analyze_async (az : AIConversationAnalyzer) (env : Env)
    (conversations : list Conversation) (schedule : list nat) (w : World)
  : option (outcome QualityAnalysis * World) :=
  match run_schedule az env conversations schedule (init_pool az conversations w) with
  | None => None
  | Some p =>
      if existsb is_failed (tasks p) then Some (Raised RetryError, world p)
      else if forallb is_finished (tasks p) then
        Some (Returned (analyze_async_aggregate (length conversations) (results p)),
              world p)
      else None
  end.

(** The number of Judge invocations in flight, and of slots held. *)
Definition is_in_flight (ph : Phase) : bool :=
  match ph with InFlight _ _ => true | _ => false end.

Definition holds_slot (ph : Phase) : bool :=
  match ph with InFlight _ _ | Responded _ _ => true | _ => false end.

Definition in_flight (p : Pool) : nat := length (List.filter is_in_flight (tasks p)).

Definition slots_held (p : Pool) : nat := length (List.filter holds_slot (tasks p)).

(** ** Reading the model: orders, categories, sample data *)

(** [key_ge key x y]: [x] may stand before [y] in descending key order. *)
Definition key_ge {A} (key : A -> Z) (x y : A) : Prop := key y <= key x.

(** The weight the spec gives a severity level. *)
Definition weight (s : SeverityLevel) : Z :=
  match s with SevLOW => 3 | SevMEDIUM => 6 | SevHIGH => 9 end.

(** The seven buckets [analyze_async] fills, and the one an issue goes to. *)
Inductive Category :=
  | CatObviousWrongAnswers | CatMissedEscalation | CatDumbQuestions
  | CatRepetitive | CatLackOfEncouragement | CatDeadEnd | CatUnhelpful.

#[global] Instance Category_eq_dec : EqDecision Category.
Proof. solve_decision. Defined.

Definition category_of (t : IssueType) : Category :=
  match t with
  | OBVIOUS_WRONG_ANSWER => CatObviousWrongAnswers
  | MISSED_ESCALATION => CatMissedEscalation
  | DUMB_QUESTION => CatDumbQuestions
  | REPETITIVE => CatRepetitive
  | LACK_OF_ENCOURAGEMENT => CatLackOfEncouragement
  | DEAD_END => CatDeadEnd
  | _ => CatUnhelpful
  end.

Definition bucket (c : Category) (b : Buckets) : list ConversationIssue :=
  match c with
  | CatObviousWrongAnswers => b_obvious_wrong_answers b
  | CatMissedEscalation => b_missed_escalation b
  | CatDumbQuestions => b_dumb_questions b
  | CatRepetitive => b_repetitive b
  | CatLackOfEncouragement => b_lack_of_encouragement b
  | CatDeadEnd => b_dead_end b
  | CatUnhelpful => b_unhelpful b
  end.

Definition in_category (c : Category) (issue : ConversationIssue) : Prop :=
  category_of (issue_type issue) = c.

#[global] Instance in_category_dec (c : Category) (issue : ConversationIssue) :
  Decision (in_category c issue).
Proof. unfold in_category. apply _. Defined.

(** The world after one more logger call. *)
Definition logged (ev : LogEvent) (w : World) : World := snd (logger ev w).

(** The world after one more Judge invocation for [conversation_id]. *)
Definition judged (conversation_id : string) (w : World) : World :=
  {| fs := fs w; log := log w;
     judge_calls := judge_calls w ++ [conversation_id]; sleeps := sleeps w |}.

(** How many times the Judge was invoked for a conversation so far. *)
Definition calls_so_far (conversation_id : string) (w : World) : nat :=
  length (List.filter (fun c => bool_decide (c = conversation_id)) (judge_calls w)).

(** How the cache check of the per-conversation method ends in a world:
    [Some e] when [cache_path.exists()] raises [e], [None] when the check
    completes (caching is off, the file is there, or it is missing at a
    path the system resolves). *)
Definition cache_check (az : AIConversationAnalyzer) (env : Env)
    (c : Conversation) (w : World) : option exn :=
  if no_cache az then None
  else match fs w !! cache_file az (id c) with
       | Some _ => None
       | None => unresolvable env (cache_file az (id c))
       end.

(** An issue as [_result_to_issues] scores it. *)
Definition ai_scored (issue : ConversationIssue) : Prop :=
  exists s, severity_score issue = Some (weight s).

(** The world after [_save_conversation_analysis]. *)
Definition saved (az : AIConversationAnalyzer) (env : Env) (conversation_id : string)
    (result : ConversationAnalysisResult) (w : World) : World :=
  snd (_save_conversation_analysis az env conversation_id result w).

(** ** Sample data *)

Definition sample_analyzer (k : nat) (skip_cache : bool) : AIConversationAnalyzer :=
  {| max_concurrency := k; no_cache := skip_cache;
     output_dir := "conversation_analyses" |}.

Definition sample_flag (t : IssueTypeEnum.t) (s : SeverityLevel) : IssueFlag :=
  {| type := t; severity := s; confidence := ConfHIGH; messages := [1];
     evidence := "I cannot help with that";
     why_it_matters := "user left without an answer";
     recommended_fix := "hand off to a human" |}.

Definition sample_result (name : string) (fl : list IssueFlag)
  : ConversationAnalysisResult :=
  {| overall_score := 40; overall_verdict := FAIL; summary := name;
     metrics := {| correctness_score := 5; escalation_score := 10;
                   question_quality_score := 10; progress_score := 5;
                   tone_encouragement_score := 8; no_dead_end_score := 2 |};
     refusal_assessment := {| off_topic_refusals_count := 0;
                              on_topic_refusals_incorrect := [] |};
     flags := fl; positives := [];
     next_best_step := "escalate";
     suggested_handoff_message := None;
     notes_for_training := "escalate sooner";
     prize_candidate := false; prize_reason := None;
     cycles_without_progress := 0; has_clear_next_step := false |}.

Definition sample_conversation (cid : string) : Conversation :=
  {| id := cid;
     conv_messages := [ {| role := "user"; content := "I cannot log in";
                           timestamp := None |};
                        {| role := "assistant"; content := "Please try again";
                           timestamp := None |} ];
     created_at := "2025-01-01T00:00:00Z";
     status := Some "closed"; rating := None |}.

(** The judgment of the spec's scenario: one high-severity
    MISSED_ESCALATION flag and one medium-severity DEAD_END flag. *)
Definition judgment_a : ConversationAnalysisResult :=
  sample_result "a" [ sample_flag IssueTypeEnum.MISSED_ESCALATION SevHIGH;
                      sample_flag IssueTypeEnum.DEAD_END SevMEDIUM ].

Definition judgment_b : ConversationAnalysisResult :=
  sample_result "b" [ sample_flag IssueTypeEnum.REPETITIVE SevLOW ].

(** A codec for the sample runs: it serialises a judgment to a line
    naming it and loads the two documents it knows; any other text does
    not parse. *)
Definition sample_dump (r : ConversationAnalysisResult) : string :=
  "judgment " +:+ summary r.

Definition sample_load (text : string) : outcome ConversationAnalysisResult :=
  if decide (text = sample_dump judgment_a) then Returned judgment_a
  else if decide (text = sample_dump judgment_b) then Returned judgment_b
  else Raised JSONDecodeError.

Definition sample_env (j : Conversation -> nat -> outcome ConversationAnalysisResult)
    (fault : string -> Fault) : Env :=
  {| judge := j; json_load := sample_load; json_dump := sample_dump;
     write_fault := fault; resolves := fun _ => true |}.

Definition no_fault (path : string) : Fault := NoFault.

(** A file system that takes paths of at most [limit] characters: a
    longer one does not resolve, and every call on it raises [OSError]. *)
Definition name_limit_env (limit : nat) : Env :=
  {| judge := fun _ _ => Returned (sample_result "a" []);
     json_load := sample_load; json_dump := sample_dump;
     write_fault := fun path =>
       if (String.length path <=? limit)%nat then NoFault else OpenFails OSError;
     resolves := fun path => (String.length path <=? limit)%nat |}.

(** An id of 300 characters, ["x" * 300]. *)
Definition long_id : string := String.concat EmptyString (replicate 300 "x").

(** A Judge that fails on the first invocation for a conversation and
    answers from the second on. *)
Definition fails_once (r : ConversationAnalysisResult)
    (c : Conversation) (n : nat) : outcome ConversationAnalysisResult :=
  match n with O => Raised APIError | S _ => Returned r end.

Definition always (o : outcome ConversationAnalysisResult)
    (c : Conversation) (n : nat) : outcome ConversationAnalysisResult := o.

Definition empty_world : World :=
  {| fs := ∅; log := []; judge_calls := []; sleeps := [] |}.

Definition world_with_file (path text : string) : World :=
  {| fs := {[ path := text ]}; log := []; judge_calls := []; sleeps := [] |}.

(** The contract of an atomic put: afterwards the conversation's file
    holds the complete new record, or still what it held before. *)
Definition put_is_atomic (az : AIConversationAnalyzer) (env : Env) : Prop :=
  forall (cid : string) (r : ConversationAnalysisResult) (w : World),
    fs (saved az env cid r w) !! cache_file az cid = Some (json_dump env r)
    \/ fs (saved az env cid r w) !! cache_file az cid = fs w !! cache_file az cid.

(** A directory in which no file can be opened for writing. *)
Definition cannot_open (path : string) : Fault := OpenFails OSError.

(** A disk that fails every dump after four characters. *)
Definition fails_after_four (path : string) : Fault := WriteFails 4 OSError.

(** Every slot missing from the semaphore is held by exactly one task
    that is inside the [async with] block. *)
Definition slots_accounted (az : AIConversationAnalyzer) (p : Pool) : Prop :=
  (slots_held p + sem_value p = max_concurrency az)%nat.

(** What C2 asks of a state: a slot is held only while a Judge call is
    in flight. *)
Definition slot_held_only_during_judge_call (p : Pool) : Prop :=
  slots_held p = in_flight p.

(** The severity scores present in a list of issues, in order. *)
Definition scores_of (l : list ConversationIssue) : list Z := omap severity_score l.

(** The sort key of the top-offenders list. *)
Definition offender_key (x : ConversationIssue) : Z :=
  if_not_none_else_zero (severity_score x).

(** What C3 asks of two input orders: the same total, the same multiset
    of issues in each category, the same summary, and the same
    top-offenders list up to order. *)
Definition order_independent (outcome : Conversation -> list ConversationIssue)
    (convs convs' : list Conversation) : Prop :=
  let qa := analyze_async_aggregate (length convs) (map outcome convs) in
  let qa' := analyze_async_aggregate (length convs') (map outcome convs') in
  total_analyzed qa = total_analyzed qa'
  /\ Forall2 (≡ₚ) (categories qa) (categories qa')
  /\ d_summary (to_dict qa) = d_summary (to_dict qa')
  /\ option_Forall2 (≡ₚ) (d_top_offenders (to_dict qa)) (d_top_offenders (to_dict qa')).

(** Twenty-one conversations, each judged with one high-severity
    REPETITIVE flag. *)
Definition twenty_one : list Conversation :=
  map sample_conversation
    [ "c01"; "c02"; "c03"; "c04"; "c05"; "c06"; "c07"; "c08"; "c09"; "c10";
      "c11"; "c12"; "c13"; "c14"; "c15"; "c16"; "c17"; "c18"; "c19"; "c20";
      "c21" ].

Definition judgment_high : ConversationAnalysisResult :=
  sample_result "high" [ sample_flag IssueTypeEnum.REPETITIVE SevHIGH ].

Definition high_outcome (c : Conversation) : list ConversationIssue :=
  _result_to_issues c judgment_high.

(** An issue as the rule-based analyzers report it: no severity score. *)
Definition unscored_issue : ConversationIssue :=
  {| conversation_id := "c1"; issue_type := NEGATIVE_RATING;
     details := [("rating", VInt 1)];
     severity_score := None; ai_reasoning := None; excerpt := None |}.

Definition rule_based_analysis : QualityAnalysis :=
  {| total_analyzed := 1; repetitive := []; unhelpful := []; too_many_turns := [];
     dead_end := []; negative_rating := [unscored_issue];
     obvious_wrong_answers := []; missed_escalation := []; dumb_questions := [];
     lack_of_encouragement := [] |}.

(** A category as [analyze_async] builds it: the issues of the category
    among all results, sorted. *)
Definition sorted_category (c : Category) (results : list (list ConversationIssue))
  : list ConversationIssue :=
  sort_reverse severity_key (filter (in_category c) (concat results)).

(** A run of two conversations on one slot: the second task waits for
    the slot until the first has saved its judgment and left the block. *)
Definition two_conversations : list Conversation :=
  [sample_conversation "c1"; sample_conversation "c2"].

Definition one_slot_schedule : list nat := [0; 1; 0; 0; 1; 1; 1]%nat.

Definition answering_env : Env :=
  sample_env (always (Returned judgment_a)) no_fault.

(** What a task returned, once it has. *)
Definition finished_issues (ph : Phase) : option (list ConversationIssue) :=
  match ph with Finished issues => Some issues | _ => None end.

(** The issues each task returned, in the order of the conversations,
    when the schedule runs every task to its return. *)
Definition task_outcomes (az : AIConversationAnalyzer) (env : Env)
    (conversations : list Conversation) (schedule : list nat) (w : World)
  : option (list (list ConversationIssue)) :=
  match run_schedule az env conversations schedule (init_pool az conversations w) with
  | Some p => mapM finished_issues (tasks p)
  | None => None
  end.

(** [results] holds exactly what the finished tasks returned. *)
Definition results_match (p : Pool) : Prop :=
  results p ≡ₚ omap finished_issues (tasks p).

(** The conversations whose task has sent a Judge call, when no task
    can return from the cache. *)
Definition has_called (ph : Phase) : bool :=
  match ph with
  | InFlight _ _ | Responded _ _ | Finished _ => true
  | _ => false
  end.

Fixpoint callers (conversations : list Conversation) (phases : list Phase)
  : list string :=
  match conversations, phases with
  | c :: cs, ph :: phs =>
      (if has_called ph then [id c] else []) ++ callers cs phs
  | _, _ => []
  end.

(** The Judge invocations so far are those of the tasks that have sent
    their call, and the task list keeps its length. *)
Definition calls_match (convs : list Conversation) (base : list string) (p : Pool)
  : Prop :=
  judge_calls (world p) ≡ₚ base ++ callers convs (tasks p)
  /\ length (tasks p) = length convs.

(** ** analyzers/base.py: the rule-based analyzer *)

Definition DEFAULT_NEGATIVE_RATING_THRESHOLD : Z := 3.
Definition DEFAULT_EXCESSIVE_TURNS_THRESHOLD : Z := 3.

(** The fields of [self]. *)
Record ConversationAnalyzer := {
  negative_rating_threshold : Z;
  excessive_turns_threshold : Z }.

(** The two lists the loop of [analyze] appends to; [repetitive],
    [unhelpful] and [dead_end] stay as initialised. *)
Record RuleLists := {
  r_negative_rating : list ConversationIssue;
  r_too_many_turns : list ConversationIssue }.

(** The issue appended for a negative rating [r]. *)
Definition negative_rating_issue (convo : Conversation) (r : Z) : ConversationIssue :=
  {| conversation_id := id convo;
     issue_type := NEGATIVE_RATING;
     details := [ ("rating", VInt r);
                  ("message_count", VInt (Z.of_nat (length (conv_messages convo)))) ];
     severity_score := None; ai_reasoning := None; excerpt := None |}.

(** The issue appended for too many turns. *)
Definition too_many_turns_issue (convo : Conversation) : ConversationIssue :=
  {| conversation_id := id convo;
     issue_type := TOO_MANY_TURNS;
     details := [ ("turns", VInt (Z.of_nat (length (conv_messages convo))));
                  ("status", of_opt_str (status convo)) ];
     severity_score := None; ai_reasoning := None; excerpt := None |}.

(** The body of [for convo in conversations]. *)
Definition analyze_step (self : ConversationAnalyzer) (acc : RuleLists)
    (convo : Conversation) : RuleLists :=
  let negative :=
    match rating convo with
    | Some r =>
        if decide (r < negative_rating_threshold self)
        then r_negative_rating acc ++ [negative_rating_issue convo r]
        else r_negative_rating acc
    | None => r_negative_rating acc
    end in
  let turns :=
    if decide (Z.of_nat (length (conv_messages convo)) > excessive_turns_threshold self)
    then r_too_many_turns acc ++ [too_many_turns_issue convo]
    else r_too_many_turns acc in
  {| r_negative_rating := negative; r_too_many_turns := turns |}.

(** [ConversationAnalyzer.analyze], the analysis it returns. *)
Definition analyze (self : ConversationAnalyzer) (conversations : list Conversation)
  : QualityAnalysis :=
  let lists :=
    fold_left (analyze_step self) conversations
              {| r_negative_rating := []; r_too_many_turns := [] |} in
  {| total_analyzed := length conversations;
     repetitive := []; unhelpful := [];
     too_many_turns := r_too_many_turns lists;
     dead_end := [];
     negative_rating := r_negative_rating lists;
     obvious_wrong_answers := []; missed_escalation := [];
     dumb_questions := []; lack_of_encouragement := [] |}.

(** [_print_summary]: the lines it logs at info level. The dict of
    counts is visited in insertion order and a line is logged for a
    count above zero only. *)
Definition _print_summary (analysis : QualityAnalysis) : list string :=
  let issue_counts :=
    [ ("repetitive", length (repetitive analysis));
      ("unhelpful", length (unhelpful analysis));
      ("too_many_turns", length (too_many_turns analysis));
      ("dead_end", length (dead_end analysis));
      ("negative_rating", length (negative_rating analysis)) ] in
  [ "Total conversations analyzed: " +:+ pretty (total_analyzed analysis);
    "Issues found:" ]
  ++ flat_map (fun '(issue_type, count) =>
                 if decide (0 < count)%nat
                 then ["  " +:+ issue_type +:+ ": " +:+ pretty count +:+ " conversations"]
                 else [])
              issue_counts.

(** Everything [analyze] logs: the header, then the summary. *)
Definition analyze_log (self : ConversationAnalyzer) (conversations : list Conversation)
  : list string :=
  "=== CONVERSATION ANALYSIS ===" :: _print_summary (analyze self conversations).

(** Who gets flagged. *)
Definition is_negative (self : ConversationAnalyzer) (convo : Conversation) : bool :=
  match rating convo with
  | Some r => bool_decide (r < negative_rating_threshold self)
  | None => false
  end.

Definition is_excessive (self : ConversationAnalyzer) (convo : Conversation) : bool :=
  bool_decide (excessive_turns_threshold self < Z.of_nat (length (conv_messages convo))).

(** ** ai.py: the conversation part of [_build_analysis_prompt] *)

Definition newline : string := String (Ascii.ascii_of_nat 10) EmptyString.

(** The line appended for the message at index [idx]. *)
Definition prompt_line (idx : nat) (msg : Message) : string :=
  "[" +:+ pretty idx +:+ "] " +:+ role msg +:+ ": " +:+ content msg.

(** [convo_text] after [for idx, msg in enumerate(conversation.messages)],
    carried with the next index. *)
Definition convo_text (conversation : Conversation) : list string :=
  snd (fold_left (fun '(idx, lines) msg => (S idx, lines ++ [prompt_line idx msg]))
                 (conv_messages conversation) (O, [])).

(** The prompt: the fixed text of the f-string before and after the
    [{conversation_str}] field, which are not spelled out here, around
    the joined lines. *)
Definition _build_analysis_prompt (text_before text_after : string)
    (conversation : Conversation) : string :=
  let conversation_str := join newline (convo_text conversation) in
  text_before +:+ conversation_str +:+ text_after.

(** The lines of a text, as a reader of the prompt sees them: the
    pieces between its newline characters. *)
Definition split_lines (s : string) : list string :=
  split_on (Ascii.ascii_of_nat 10) s.

Fixpoint no_newline (s : string) : bool :=
  match s with
  | EmptyString => true
  | String a s' => negb (bool_decide (a = Ascii.ascii_of_nat 10)) && no_newline s'
  end.

(** Two messages that read the same, and a message whose content
    holds a newline followed by what looks like the next line. *)
Definition echo_conversation : Conversation :=
  {| id := "c1";
     conv_messages := [ {| role := "user"; content := "hello"; timestamp := None |};
                        {| role := "user"; content := "hello"; timestamp := None |} ];
     created_at := "2025-01-01T00:00:00Z"; status := None; rating := None |}.

Definition forged_conversation : Conversation :=
  {| id := "c2";
     conv_messages :=
       [ {| role := "user";
            content := "x" +:+ newline +:+ "[1] user: y"; timestamp := None |};
         {| role := "user"; content := "y"; timestamp := None |} ];
     created_at := "2025-01-01T00:00:00Z"; status := None; rating := None |}.

(** Decimal digits, as [str(idx)] prints them. *)
Definition is_digit (a : Ascii.ascii) : bool :=
  let n := Ascii.nat_of_ascii a in (48 <=? n)%nat && (n <=? 57)%nat.

Fixpoint all_digits (s : string) : bool :=
  match s with
  | EmptyString => true
  | String a s' => is_digit a && all_digits s'
  end.

(** ** Python values as JSON gives them *)

(** A float: a number, an infinity or NaN; [json.loads] yields all three. *)
Inductive pyfloat :=
  | FNum (q : Q)
  | FInf (negative : bool)
  | FNaN.

#[warnings="-register-all"]
Inductive pyobj :=
  | PNone
  | PBool (b : bool)
  | PInt (n : Z)
  | PFloat (x : pyfloat)
  | PStr (s : string)
  | PList (l : list pyobj)
  | PDict (d : list (string * pyobj)).

(** Exceptions of the dynamically typed code. *)
Inductive pyexn :=
  | TypeError | AttributeError | KeyError | ValueError | RecursionError | HTTPError.

Inductive result (A : Type) :=
  | Ok (a : A)
  | Err (e : pyexn).
Arguments Ok {A} a.
Arguments Err {A} e.

(** [bool(o)] *)
Definition truthy (o : pyobj) : bool :=
  match o with
  | PNone => false
  | PBool b => b
  | PInt n => negb (bool_decide (n = 0))
  | PFloat (FNum q) => negb (Qeq_bool q 0)
  | PFloat _ => true
  | PStr s => negb (bool_decide (s = EMPTY_STRING))
  | PList l => negb (bool_decide (length l = 0%nat))
  | PDict d => negb (bool_decide (length d = 0%nat))
  end.

(** [a or b] *)
Definition py_or (a b : pyobj) : pyobj := if truthy a then a else b.

(** [for x in o]: the items, or [TypeError] when [o] is not iterable. A
    dict yields its keys, a string its characters. *)
Fixpoint chars (s : string) : list pyobj :=
  match s with
  | EmptyString => []
  | String a s' => PStr (String a EmptyString) :: chars s'
  end.

Definition py_iter (o : pyobj) : result (list pyobj) :=
  match o with
  | PList l => Ok l
  | PDict d => Ok (map (fun kv => PStr (fst kv)) d)
  | PStr s => Ok (chars s)
  | PNone | PBool _ | PInt _ | PFloat _ => Err TypeError
  end.

(** The builtins and library calls the model does not spell out.
    [json.loads]: [loads] gives the value of a text that parses, and for
    a text that does not, [loads_error] tells the exception: [None] for
    a [JSONDecodeError], [Some e] for any other ([ValueError] for a
    number of more than 4300 digits, [RecursionError] for nesting too
    deep). [int] on a string ([None] for [ValueError]), [json.dumps] /
    [json.dump] with [default=str], and [str] on a value that is not a
    string. *)
Record Builtins := {
  loads : string -> option pyobj;
  loads_error : string -> option pyexn;
  int_of_str : string -> option Z;
  dumps : pyobj -> string;
  str_of : pyobj -> string }.

(** ** models.py: [from_dict] and [to_dict] *)

(** A [Message] and a [Conversation] as [from_dict] builds them: the
    fields hold whatever the record held. *)
Record PyMessage := {
  m_role : pyobj;
  m_content : pyobj;
  m_timestamp : pyobj }.

Record PyConversation := {
  c_id : pyobj;
  c_messages : list (PyMessage + pyobj);
  c_created_at : pyobj;
  c_status : pyobj;
  c_rating : pyobj }.

(** [Message.from_dict], on the items of a dict. *)
Definition Message_from_dict (data : list (string * pyobj)) : PyMessage :=
  {| m_role := py_or (dict_get data "role" PNone) (dict_get data "sender" (PStr EMPTY_STRING));
     m_content := py_or (dict_get data "content" PNone)
                        (dict_get data "message" (PStr EMPTY_STRING));
     m_timestamp := py_or (dict_get data "timestamp" PNone)
                          (dict_get data "timestamp" PNone) |}.

(** [try: json.loads(text) except json.JSONDecodeError: []]: any other
    exception of the parser passes through. *)
Definition loads_or_empty (bi : Builtins) (text : string) : result pyobj :=
  match loads bi text with
  | Some o => Ok o
  | None =>
      match loads_error bi text with
      | Some e => Err e
      | None => Ok (PList [])
      end
  end.

(** [Conversation.from_dict]. A [data] that is no dict has no [get]. *)
Definition Conversation_from_dict (bi : Builtins) (data : pyobj)
  : result PyConversation :=
  match data with
  | PDict d =>
      let messages_data :=
        py_or (dict_get d "messages" PNone) (dict_get d "messages" (PList [])) in
      let parsed :=
        match messages_data with
        | PStr s => loads_or_empty bi s
        | o => Ok o
        end in
      match parsed with
      | Err e => Err e
      | Ok messages_data =>
      match py_iter messages_data with
      | Err e => Err e
      | Ok items =>
          let msgs :=
            map (fun msg => match msg with
                            | PDict m => inl (Message_from_dict m)
                            | o => inr o
                            end) items in
          let conv_id := py_or (dict_get d "id" PNone) (dict_get d "PK" (PStr EMPTY_STRING)) in
          let created :=
            py_or (dict_get d "created_at" PNone) (dict_get d "createdAt" (PStr EMPTY_STRING)) in
          let stat :=
            py_or (dict_get d "status" PNone) (dict_get d "convo_status" PNone) in
          let rat := py_or (dict_get d "rating" PNone) (dict_get d "rating" PNone) in
          let rat :=
            match rat with
            | PStr s => match int_of_str bi s with Some n => PInt n | None => PNone end
            | o => o
            end in
          Ok {| c_id := conv_id; c_messages := msgs; c_created_at := created;
                c_status := stat; c_rating := rat |}
      end
      end
  | _ => Err AttributeError
  end.

Definition opt_str (o : option string) : pyobj :=
  match o with Some s => PStr s | None => PNone end.

Definition opt_int (o : option Z) : pyobj :=
  match o with Some n => PInt n | None => PNone end.

(** [asdict] of a message and [Conversation.to_dict], for the objects
    [from_dict] builds. *)
Definition PyMessage_asdict (m : PyMessage) : pyobj :=
  PDict [ ("role", m_role m); ("content", m_content m); ("timestamp", m_timestamp m) ].

Definition PyConversation_to_dict (c : PyConversation) : pyobj :=
  PDict [ ("id", c_id c);
          ("messages",
           PList (map (fun m => match m with
                                | inl pm => PyMessage_asdict pm
                                | inr o => o
                                end) (c_messages c)));
          ("created_at", c_created_at c);
          ("status", c_status c);
          ("rating", c_rating c) ].

(** A conversation with fields of their declared types, as an object. *)
Definition py_message (m : Message) : PyMessage :=
  {| m_role := PStr (role m); m_content := PStr (content m);
     m_timestamp := opt_str (timestamp m) |}.

Definition py_conversation (c : Conversation) : PyConversation :=
  {| c_id := PStr (id c);
     c_messages := map (fun m => inl (py_message m)) (conv_messages c);
     c_created_at := PStr (created_at c);
     c_status := opt_str (status c);
     c_rating := opt_int (rating c) |}.

Definition Conversation_to_dict (c : Conversation) : pyobj :=
  PyConversation_to_dict (py_conversation c).

(** The same conversation as the API sends it. *)
Definition api_message (m : Message) : pyobj :=
  PDict [ ("sender", PStr (role m)); ("message", PStr (content m));
          ("timestamp", opt_str (timestamp m)) ].

Definition api_record (c : Conversation) : pyobj :=
  PDict [ ("PK", PStr (id c));
          ("createdAt", PStr (created_at c));
          ("convo_status", opt_str (status c));
          ("rating", opt_int (rating c));
          ("messages", PList (map api_message (conv_messages c))) ].

(** [k in d], with the value. *)
Fixpoint dict_lookup (d : list (string * pyobj)) (k : string) : option pyobj :=
  match d with
  | [] => None
  | (k', v) :: d' => if decide (k' = k) then Some v else dict_lookup d' k
  end.

(** What a round trip through [to_dict] and [from_dict] keeps of a
    conversation: everything but an empty status string. *)
Definition drop_empty_status (c : Conversation) : Conversation :=
  {| id := id c; conv_messages := conv_messages c; created_at := created_at c;
     status := match status c with
               | Some s => if decide (s = EMPTY_STRING) then None else Some s
               | None => None
               end;
     rating := rating c |}.

(** ** fetcher.py *)

Definition DEFAULT_PAGE_LIMIT : Z := 100.
Definition DEFAULT_SORT_BY : string := "createdAt".
Definition FIRST_PAGE : Z := 1.

Inductive SortDirection := ASC | DESC.

Definition SortDirection_value (d : SortDirection) : string :=
  match d with ASC => "asc" | DESC => "desc" end.

(** The fields of [self] the methods read. *)
Record ConversationFetcher := {
  base_url : string;
  cache_dir : string }.

Inductive FetchEvent :=
  | MaxPagesReached (max_pages : Z)
  | CachedConversation (path : string)
  | FailedToCache (path : string)
  | LoadedFromCache (conversation_id : string)
  | FailedToLoadFromCache (conversation_id : string)
  | Fetched (conversations : nat) (page_num : Z).

(** The files of the cache directory, the payloads posted so far and
    the logger calls. *)
Record FetchWorld := {
  f_files : gmap string string;
  f_requests : list pyobj;
  f_log : list FetchEvent }.

(** The API server: what [client.post(url, json=payload)],
    [raise_for_status] and [response.json()] give for the [n]-th request
    of a run; the disk; the builtins. *)
Record FetchEnv := {
  server : pyobj -> nat -> result pyobj;
  disk_fault : string -> Fault;
  builtins : Builtins }.

(** [_build_payload] *)
Definition _build_payload (include_messages : bool) (limit : Z) (sort_by : string)
    (sort_dir : SortDirection) (page_token : pyobj) : pyobj :=
  let payload :=
    [ ("filter", PDict []);
      ("limit", PInt limit);
      ("sort_by", PStr sort_by);
      ("sort_dir", PStr (SortDirection_value sort_dir));
      ("include_messages", PBool include_messages) ] in
  PDict (if truthy page_token then payload ++ [("page_token", page_token)]
         else payload).

(** [f"{conversation.id}"] *)
Definition format_id (bi : Builtins) (o : pyobj) : string :=
  match o with PStr s => s | _ => str_of bi o end.

(** [self.cache_dir / f"{conversation_id}.json"] *)
Definition conversation_file (self : ConversationFetcher) (conversation_id : string)
  : string :=
  path_div (cache_dir self) (conversation_id +:+ ".json").

Definition f_logged (ev : FetchEvent) (w : FetchWorld) : FetchWorld :=
  {| f_files := f_files w; f_requests := f_requests w; f_log := f_log w ++ [ev] |}.

(** [_save_conversation_to_cache]: any exception of the write is caught
    and logged. *)
Definition _save_conversation_to_cache (self : ConversationFetcher) (env : FetchEnv)
    (conversation : PyConversation) (w : FetchWorld) : FetchWorld :=
  let cache_path :=
    conversation_file self (format_id (builtins env) (c_id conversation)) in
  let text := dumps (builtins env) (PyConversation_to_dict conversation) in
  match disk_fault env cache_path with
  | NoFault =>
      f_logged (CachedConversation cache_path)
        {| f_files := <[cache_path := text]> (f_files w);
           f_requests := f_requests w; f_log := f_log w |}
  | OpenFails _ => f_logged (FailedToCache cache_path) w
  | WriteFails written _ =>
      f_logged (FailedToCache cache_path)
        {| f_files := <[cache_path := String.substring 0 written text]> (f_files w);
           f_requests := f_requests w; f_log := f_log w |}
  end.

(** [_load_conversation_from_cache], for a cache path the system
    resolves: [exists()] then answers, and every failure past it is
    caught and logged. *)
Definition _load_conversation_from_cache (self : ConversationFetcher) (env : FetchEnv)
    (conversation_id : string) (w : FetchWorld)
  : option PyConversation * FetchWorld :=
  let cache_path := conversation_file self conversation_id in
  match f_files w !! cache_path with
  | None => (None, w)
  | Some text =>
      match loads (builtins env) text with
      | None => (None, f_logged (FailedToLoadFromCache conversation_id) w)
      | Some data =>
          match Conversation_from_dict (builtins env) data with
          | Ok conversation =>
              (Some conversation, f_logged (LoadedFromCache conversation_id) w)
          | Err _ => (None, f_logged (FailedToLoadFromCache conversation_id) w)
          end
      end
  end.

(** A list comprehension whose element expression may raise. *)
Fixpoint map_result {A B} (f : A -> result B) (l : list A) : result (list B) :=
  match l with
  | [] => Ok []
  | x :: l' =>
      match f x with
      | Err e => Err e
      | Ok y => match map_result f l' with
                | Err e => Err e
                | Ok ys => Ok (y :: ys)
                end
      end
  end.

(** What one page holds: [data.get("filtered_convos", [])] turned into
    conversations, and [data.get("next_page_token")]. *)
Definition read_page (bi : Builtins) (data : pyobj)
  : result (list PyConversation * pyobj) :=
  match data with
  | PDict d =>
      match py_iter (dict_get d "filtered_convos" (PList [])) with
      | Err e => Err e
      | Ok items =>
          match map_result (Conversation_from_dict bi) items with
          | Err e => Err e
          | Ok conversations => Ok (conversations, dict_get d "next_page_token" PNone)
          end
      end
  | _ => Err AttributeError
  end.

(** The [while True] loop of [fetch_all], with [fuel] bounding the
    number of iterations; [None] is the loop running out of fuel. *)
Fixpoint fetch_loop (fuel : nat) (self : ConversationFetcher) (env : FetchEnv)
    (include_messages : bool) (page_limit : Z) (sort_by : string)
    (sort_direction : SortDirection) (max_pages page_num : Z) (page_token : pyobj)
    (all_conversations : list PyConversation) (w : FetchWorld)
  : option (result (list PyConversation) * Z * FetchWorld) :=
  match fuel with
  | O => None
  | S fuel' =>
      if decide (page_num > max_pages) then
        Some (Ok all_conversations, page_num, f_logged (MaxPagesReached max_pages) w)
      else
        let payload :=
          _build_payload include_messages page_limit sort_by sort_direction
                         page_token in
        let w1 := {| f_files := f_files w; f_requests := f_requests w ++ [payload];
                     f_log := f_log w |} in
        match server env payload (length (f_requests w)) with
        | Err e => Some (Err e, page_num, w1)
        | Ok data =>
            match read_page (builtins env) data with
            | Err e => Some (Err e, page_num, w1)
            | Ok (conversations, next_token) =>
                let w2 :=
                  fold_left (fun w0 convo =>
                               _save_conversation_to_cache self env convo w0)
                            conversations w1 in
                let all' := all_conversations ++ conversations in
                if negb (truthy next_token)
                   || bool_decide (length conversations = 0%nat)
                then Some (Ok all', page_num, w2)
                else fetch_loop fuel' self env include_messages page_limit sort_by
                                sort_direction max_pages (page_num + 1) next_token
                                all' w2
            end
        end
  end.

(** [fetch_all]. The loop runs at most once per page up to [max_pages]
    and once more to find the limit reached. *)
Definition fetch_all (self : ConversationFetcher) (env : FetchEnv)
    (include_messages : bool) (page_limit : Z) (sort_by : string)
    (sort_direction : SortDirection) (max_pages : Z) (w : FetchWorld)
  : option (result (list PyConversation) * FetchWorld) :=
  match fetch_loop (S (Z.to_nat max_pages)) self env include_messages page_limit
                   sort_by sort_direction max_pages FIRST_PAGE PNone [] w with
  | None => None
  | Some (Ok all_conversations, page_num, w') =>
      Some (Ok all_conversations,
            f_logged (Fetched (length all_conversations) page_num) w')
  | Some (Err e, _, w') => Some (Err e, w')
  end.

(** A run of pages as the server hands them out: the [n]-th request,
    carrying the token of the page before, is answered with a page that
    reads as [convs] and [next]. *)
Fixpoint serves (env : FetchEnv) (im : bool) (pl : Z) (sb : string)
    (sd : SortDirection) (n : nat) (token : pyobj)
    (pages : list (list PyConversation * pyobj)) : Prop :=
  match pages with
  | [] => True
  | (convs, next) :: rest =>
      (exists data,
         server env (_build_payload im pl sb sd token) n = Ok data
         /\ read_page (builtins env) data = Ok (convs, next))
      /\ serves env im pl sb sd (S n) next rest
  end.

(** A page after which the loop goes on: it names a next page and is
    not empty. *)
Definition continues (page : list PyConversation * pyobj) : Prop :=
  truthy (snd page) = true /\ fst page <> [].

(** A server with two pages for the sample runs: the first names the
    token ["t2"], the second is the last. *)
Definition sample_page (c : Conversation) (next : pyobj) : pyobj :=
  PDict [ ("filtered_convos", PList [api_record c]); ("next_page_token", next) ].

Definition two_page_server (payload : pyobj) (n : nat) : result pyobj :=
  match payload with
  | PDict d =>
      match dict_lookup d "page_token" with
      | None => Ok (sample_page (sample_conversation "c1") (PStr "t2"))
      | Some _ => Ok (sample_page (sample_conversation "c2") PNone)
      end
  | _ => Err HTTPError
  end.

(** Builtins for the sample runs: a JSON codec that knows one document. *)
Definition sample_builtins : Builtins :=
  {| loads := fun text =>
       if decide (text = "c1.json text")
       then Some (Conversation_to_dict (sample_conversation "c1")) else None;
     loads_error := fun _ => None;
     int_of_str := fun _ => None;
     dumps := fun _ => "c1.json text";
     str_of := fun _ => EMPTY_STRING |}.

Definition sample_fetch_env : FetchEnv :=
  {| server := two_page_server; disk_fault := no_fault; builtins := sample_builtins |}.

Definition sample_fetcher : ConversationFetcher :=
  {| base_url := "https://example.invalid/prod"; cache_dir := "conversations" |}.

Definition empty_fetch_world : FetchWorld :=
  {| f_files := ∅; f_requests := []; f_log := [] |}.

(** ** reports.py: validation and triage of the loaded analyses *)

Record Thresholds := {
  correctness_first_turn : Z;
  escalation_good : Z;
  score_high : Z;
  score_low : Z;
  loops_fix_now : Z }.

Definition default_thresholds : Thresholds :=
  {| correctness_first_turn := 8; escalation_good := 24;
     score_high := 70; score_low := 50; loops_fix_now := 2 |}.

(** One loaded analysis, as the dict read from a judgment file with the
    file's stem stored under ["conversation_id"]. A key may be missing
    ([None]); a key that is present holds a value of the type the
    judgment schema gives it. Flags are the dicts of the file. *)
Record AnalysisDoc := {
  doc_conversation_id : string;
  doc_flags : option (list (list (string * pyobj)));
  doc_metrics : option (list (string * pyobj));
  doc_overall_score : option Z;
  doc_overall_verdict : option string;
  doc_cycles_without_progress : option Z;
  doc_has_clear_next_step : option bool;
  doc_prize_candidate : option bool }.

(** [data.setdefault(key, value)] on one key. *)
Definition setdefault {A} (field : option A) (value : A) : option A :=
  match field with Some v => Some v | None => Some value end.

Definition REQUIRED_TOP_KEYS : list string :=
  ["overall_score"; "overall_verdict"; "flags"; "metrics"].

(** [key in data.keys()] for the required keys. *)
Definition has_key (data : AnalysisDoc) (key : string) : bool :=
  if decide (key = "overall_score") then bool_decide (is_Some (doc_overall_score data))
  else if decide (key = "overall_verdict") then
    bool_decide (is_Some (doc_overall_verdict data))
  else if decide (key = "flags") then bool_decide (is_Some (doc_flags data))
  else if decide (key = "metrics") then bool_decide (is_Some (doc_metrics data))
  else false.

(** [_validate_conversation]: the data with its defaults, and the
    missing keys it warns about (no warning when there are none). *)
Definition _validate_conversation (data : AnalysisDoc) : AnalysisDoc * list string :=
  let data' :=
    {| doc_conversation_id := doc_conversation_id data;
       doc_flags := setdefault (doc_flags data) [];
       doc_metrics := setdefault (doc_metrics data) [];
       doc_overall_score := setdefault (doc_overall_score data) 0;
       doc_overall_verdict := setdefault (doc_overall_verdict data) "UNKNOWN";
       doc_cycles_without_progress := setdefault (doc_cycles_without_progress data) 0;
       doc_has_clear_next_step := setdefault (doc_has_clear_next_step data) false;
       doc_prize_candidate := setdefault (doc_prize_candidate data) false |} in
  (data', List.filter (fun k => negb (has_key data' k)) REQUIRED_TOP_KEYS).

Inductive Priority := fix_now | high | medium | low.

#[global] Instance Priority_eq_dec : EqDecision Priority.
Proof. solve_decision. Defined.

(** [priority_order] *)
Definition priority_order (p : Priority) : Z :=
  match p with fix_now => 0 | high => 1 | medium => 2 | low => 3 end.

Record ConversationTriage := {
  t_conversation_id : string;
  t_overall_score : Z;
  t_overall_verdict : string;
  t_priority : Priority;
  t_reason : string;
  t_flags : list (list (string * pyobj));
  t_prize_candidate : bool }.

(** [value == text] for a string literal [text]. *)
Definition eq_str (value : pyobj) (text : string) : bool :=
  match value with PStr s => bool_decide (s = text) | _ => false end.

Definition flag_severity (f : list (string * pyobj)) : pyobj := dict_get f "severity" PNone.
Definition flag_type (f : list (string * pyobj)) : pyobj := dict_get f "type" PNone.

(** The three [any(...)] tests of the ladder. *)
Definition high_escalation_or_dead_end (flags : list (list (string * pyobj))) : bool :=
  existsb (fun f => eq_str (flag_severity f) "high"
                    && existsb (eq_str (flag_type f)) ["MISSED_ESCALATION"; "DEAD_END"])
          flags.

Definition any_dead_end (flags : list (list (string * pyobj))) : bool :=
  existsb (fun f => eq_str (flag_type f) "DEAD_END") flags.

Definition high_wrong_answer (flags : list (list (string * pyobj))) : bool :=
  existsb (fun f => eq_str (flag_severity f) "high"
                    && eq_str (flag_type f) "OBVIOUS_WRONG_ANSWER")
          flags.

(** The body of [for conv in self.conversations] in
    [triage_conversations]. *)
Definition triage_one (th : Thresholds) (conv : AnalysisDoc) : ConversationTriage :=
  let flags := default [] (doc_flags conv) in
  let cycles := default 0 (doc_cycles_without_progress conv) in
  let prize := default false (doc_prize_candidate conv) in
  let score := default 100 (doc_overall_score conv) in
  let has_clear_next_step := default false (doc_has_clear_next_step conv) in
  let '(priority, reason) :=
    if high_escalation_or_dead_end flags then
      (fix_now, "High-severity MISSED_ESCALATION or DEAD_END")
    else if decide (cycles >= loops_fix_now th) then
      (fix_now, "Futile loop: " +:+ pretty cycles +:+ " cycles without progress")
    else if negb has_clear_next_step && any_dead_end flags then
      (fix_now, "Final turn has no clear next step")
    else if high_wrong_answer flags then
      (fix_now, "High-severity OBVIOUS_WRONG_ANSWER")
    else if prize then
      (high, "Prize candidate: clear impediment to good support")
    else if decide (score < score_low th) then
      (high, "Low quality score: " +:+ pretty score +:+ "/100")
    else if decide (score < score_high th) then
      (medium, "Below-average score: " +:+ pretty score +:+ "/100")
    else (low, "Minor issues") in
  {| t_conversation_id := doc_conversation_id conv;
     t_overall_score := score;
     t_overall_verdict := default "UNKNOWN" (doc_overall_verdict conv);
     t_priority := priority;
     t_reason := reason;
     t_flags := flags;
     t_prize_candidate := prize |}.

(** [list.sort(key=key)]: a stable sort into ascending key order, with
    [le] deciding [key x <= key y]. An element is put before the first
    one it does not exceed, so equal keys keep their order. *)
Fixpoint insert_by {A} (le : A -> A -> bool) (x : A) (l : list A) : list A :=
  match l with
  | [] => [x]
  | y :: l' => if le x y then x :: y :: l' else y :: insert_by le x l'
  end.

Definition sort_by {A} (le : A -> A -> bool) (l : list A) : list A :=
  foldr (insert_by le) [] l.

(** [(priority_order[x.priority], x.overall_score) <= (..y..)] on tuples. *)
Definition triage_le (x y : ConversationTriage) : bool :=
  let rx := priority_order (t_priority x) in
  let ry := priority_order (t_priority y) in
  bool_decide (rx < ry)
  || (bool_decide (rx = ry) && bool_decide (t_overall_score x <= t_overall_score y)).

(** [triage_conversations] *)
Definition triage_conversations (th : Thresholds) (conversations : list AnalysisDoc)
  : list ConversationTriage :=
  sort_by triage_le (map (triage_one th) conversations).

(** An issue list as a task of the batch can return it: empty, or the
    issues of a judgment for a conversation of the batch. *)
Definition from_batch (convs : list Conversation) (issues : list ConversationIssue)
  : Prop :=
  issues = [] \/ exists c r, c ∈ convs /\ issues = _result_to_issues c r.

(** The category of the analysis that takes the flags of a type. *)
Definition category_for (t : IssueTypeEnum.t) (qa : QualityAnalysis)
  : list ConversationIssue :=
  match t with
  | IssueTypeEnum.OBVIOUS_WRONG_ANSWER => obvious_wrong_answers qa
  | IssueTypeEnum.MISSED_ESCALATION => missed_escalation qa
  | IssueTypeEnum.DUMB_QUESTION => dumb_questions qa
  | IssueTypeEnum.REPETITIVE => repetitive qa
  | IssueTypeEnum.LACK_OF_ENCOURAGEMENT => lack_of_encouragement qa
  | IssueTypeEnum.DEAD_END => dead_end qa
  end.

Definition category_of_flag (t : IssueTypeEnum.t) : Category :=
  match t with
  | IssueTypeEnum.OBVIOUS_WRONG_ANSWER => CatObviousWrongAnswers
  | IssueTypeEnum.MISSED_ESCALATION => CatMissedEscalation
  | IssueTypeEnum.DUMB_QUESTION => CatDumbQuestions
  | IssueTypeEnum.REPETITIVE => CatRepetitive
  | IssueTypeEnum.LACK_OF_ENCOURAGEMENT => CatLackOfEncouragement
  | IssueTypeEnum.DEAD_END => CatDeadEnd
  end.

(** No task has failed. *)
Definition none_failed (p : Pool) : Prop :=
  Forall (fun ph => is_failed ph = false) (tasks p).

(** A judgment file that holds a conversation id and nothing else. *)
Definition bare_doc (cid : string) : AnalysisDoc :=
  {| doc_conversation_id := cid; doc_flags := None; doc_metrics := None;
     doc_overall_score := None; doc_overall_verdict := None;
     doc_cycles_without_progress := None; doc_has_clear_next_step := None;
     doc_prize_candidate := None |}.

(** The two pages [two_page_server] hands out, as [read_page] reads them. *)
Definition first_page : list PyConversation * pyobj :=
  ([py_conversation (sample_conversation "c1")], PStr "t2").

Definition second_page : list PyConversation * pyobj :=
  ([py_conversation (sample_conversation "c2")], PNone).

(** No cache check of the batch can raise: caching is off, or the
    system resolves the cache path of every conversation. *)
Definition checks_complete (az : AIConversationAnalyzer) (env : Env)
    (convs : list Conversation) : Prop :=
  no_cache az = true
  \/ forall c, c ∈ convs -> unresolvable env (cache_file az (id c)) = None.

(** The turns of the event loop a task needs at most to its return. *)
Definition turns_left (ph : Phase) : nat :=
  match ph with
  | Pending _ | WaitingSlot _ => 3
  | InFlight _ _ => 2
  | Responded _ _ => 1
  | Finished _ | Failed _ => 0
  end.

Definition turns_needed (p : Pool) : nat := sum_list (map turns_left (tasks p)).

(** A task that has not got past its cache check. *)
Definition before_judge (ph : Phase) : bool :=
  match ph with Pending _ | Failed _ => true | _ => false end.

(** * Properties *)

(** ** The stable descending sort *)

Section sort_reverse_facts.
Context {A : Type} (key : A -> Z).

Lemma insert_desc_Permutation (x : A) (l : list A) :
  insert_desc key x l ≡ₚ x :: l.
Proof.
  induction l as [|y l IH]; simpl; [done|].
  case_decide; [done|].
  rewrite IH. apply Permutation_swap.
Qed.

Lemma sort_reverse_Permutation (l : list A) : sort_reverse key l ≡ₚ l.
Proof.
  induction l as [|x l IH]; simpl; [done|].
  rewrite insert_desc_Permutation. by rewrite IH.
Qed.

Lemma insert_desc_sorted (x : A) (l : list A) :
  StronglySorted (key_ge key) l ->
  StronglySorted (key_ge key) (insert_desc key x l).
Proof.
  induction 1 as [|y l Hs IH Hall]; simpl.
  - repeat constructor.
  - case_decide as Hle.
    + constructor; [by constructor|].
      constructor; [exact Hle|].
      eapply Forall_impl; [exact Hall|]. unfold key_ge. intros z Hz. lia.
    + constructor; [exact IH|].
      rewrite insert_desc_Permutation. constructor; [|exact Hall].
      unfold key_ge. lia.
Qed.

Lemma sort_reverse_sorted (l : list A) :
  StronglySorted (key_ge key) (sort_reverse key l).
Proof.
  induction l as [|x l IH]; simpl; [constructor|].
  by apply insert_desc_sorted.
Qed.

(** Stability: among the elements of one key the original order is kept. *)
Lemma insert_desc_stable (k : Z) (x : A) (l : list A) :
  filter (fun y => key y = k) (insert_desc key x l)
  = filter (fun y => key y = k) (x :: l).
Proof.
  induction l as [|y l IH]; simpl; [done|].
  case_decide as Hle; [done|].
  rewrite filter_cons, IH, !filter_cons.
  repeat case_decide; try done; lia.
Qed.

Lemma sort_reverse_stable (k : Z) (l : list A) :
  filter (fun y => key y = k) (sort_reverse key l)
  = filter (fun y => key y = k) l.
Proof.
  induction l as [|x l IH]; simpl; [done|].
  rewrite insert_desc_stable, !filter_cons. by rewrite IH.
Qed.

Lemma sorted_lookup_ge (l : list A) (i j : nat) (x y : A) :
  StronglySorted (key_ge key) l ->
  (i < j)%nat -> l !! i = Some x -> l !! j = Some y -> key y <= key x.
Proof.
  intros Hs. revert i j.
  induction Hs as [|z l Hs IH Hall]; intros i j Hij Hi Hj; [done|].
  destruct j as [|j]; [lia|]. simpl in Hj.
  destruct i as [|i]; simpl in Hi.
  - injection Hi as ->.
    rewrite Forall_forall in Hall. apply Hall.
    by eapply list_elem_of_lookup_2.
  - apply (IH i j); [lia|done..].
Qed.

Lemma sort_reverse_keys (l l' : list A) :
  l ≡ₚ l' -> map key (sort_reverse key l) = map key (sort_reverse key l').
Proof.
  intros Hp.
  assert (Hs : forall m : list A,
    StronglySorted (fun a b : Z => b <= a) (map key (sort_reverse key m))).
  { intros m. generalize (sort_reverse_sorted m).
    induction 1 as [|z t _ IH Hall]; simpl; constructor; [done|].
    rewrite Forall_forall in Hall. apply Forall_forall.
    intros a Ha. apply list_elem_of_fmap in Ha as (b & -> & Hb). by apply Hall. }
  assert (Ha : AntiSymm (=) (fun a b : Z => b <= a)) by (intros a b ? ?; lia).
  apply (StronglySorted_unique (fun a b : Z => b <= a)); [apply Hs..|].
  apply Permutation_map. by rewrite !sort_reverse_Permutation.
Qed.

End sort_reverse_facts.

(** ** [_result_to_issues] *)

Lemma fold_left_snoc_map {A B} (f : A -> B) (l : list A) (acc : list B) :
  fold_left (fun issues a => issues ++ [f a]) l acc = acc ++ map f l.
Proof.
  revert acc. induction l as [|a l IH]; intros acc; simpl.
  - by rewrite app_nil_r.
  - rewrite IH. by rewrite <- app_assoc.
Qed.

Lemma result_to_issues_map (conversation : Conversation)
    (result : ConversationAnalysisResult) :
  _result_to_issues conversation result
  = map (flag_to_issue conversation result) (flags result).
Proof. unfold _result_to_issues. by rewrite fold_left_snoc_map. Qed.

(** C7. The issue projected from the [i]-th flag of a judgment is the
    [i]-th issue of the result, and its [severity_score] is exactly 3 for
    a low, 6 for a medium and 9 for a high severity flag. *)
Theorem severity_score_of_flag (conversation : Conversation)
    (result : ConversationAnalysisResult) (i : nat) (flag : IssueFlag) :
  flags result !! i = Some flag ->
  exists issue,
    _result_to_issues conversation result !! i = Some issue
    /\ severity_score issue
       = Some (match severity flag with
               | SevLOW => 3 | SevMEDIUM => 6 | SevHIGH => 9
               end).
Proof.
  intros Hflag. exists (flag_to_issue conversation result flag). split.
  - rewrite result_to_issues_map. change map with (@fmap list _).
    by rewrite list_lookup_fmap, Hflag.
  - by destruct flag as [t [] c m e y r].
Qed.

(** ** Categorisation *)

Lemma bucket_categorize_issue (c : Category) (b : Buckets) (x : ConversationIssue) :
  bucket c (categorize_issue b x)
  = bucket c b ++ filter (in_category c) [x].
Proof.
  unfold in_category. rewrite filter_cons, filter_nil.
  destruct b as [owa me dq rep loe de unh].
  destruct x as [cid t det sev why ex]. simpl.
  destruct t, c; simpl; by rewrite ?app_nil_r.
Qed.

Lemma bucket_fold_categorize_issue (c : Category) (l : list ConversationIssue)
    (b : Buckets) :
  bucket c (fold_left categorize_issue l b) = bucket c b ++ filter (in_category c) l.
Proof.
  revert b. induction l as [|x l IH]; intros b; simpl.
  - by rewrite filter_nil, app_nil_r.
  - rewrite IH, bucket_categorize_issue, <- app_assoc.
    by rewrite <- filter_app.
Qed.

Lemma bucket_categorize (c : Category) (results : list (list ConversationIssue)) :
  bucket c (categorize results) = filter (in_category c) (concat results).
Proof.
  unfold categorize.
  assert (H : forall b,
    bucket c (fold_left (fun b l => fold_left categorize_issue l b) results b)
    = bucket c b ++ filter (in_category c) (concat results)).
  { induction results as [|l results IH]; intros b; simpl.
    - by rewrite filter_nil, app_nil_r.
    - rewrite IH, bucket_fold_categorize_issue, filter_app. by rewrite <- app_assoc. }
  rewrite H. by destruct c.
Qed.

(** ** Equations of the effectful methods *)

Lemma load_cached_analysis_eq (az : AIConversationAnalyzer) (env : Env)
    (cid : string) (w : World) :
  _load_cached_analysis az env cid w =
  match fs w !! cache_file az cid with
  | None =>
      match unresolvable env (cache_file az cid) with
      | Some e => (Raised e, w)
      | None => (Returned None, w)
      end
  | Some text =>
      match json_load env text with
      | Returned r => (Returned (Some r), logged (LoadedCached cid) w)
      | Raised e => (Returned None, logged (FailedToLoadCached cid e) w)
      end
  end.
Proof.
  unfold _load_cached_analysis, bind, path_exists, try_except, read_validated, ret.
  destruct (fs w !! cache_file az cid) as [text|] eqn:Hf; simpl.
  - rewrite Hf. by destruct (json_load env text).
  - by destruct (unresolvable env (cache_file az cid)).
Qed.

Lemma save_conversation_analysis_eq (az : AIConversationAnalyzer) (env : Env)
    (cid : string) (r : ConversationAnalysisResult) (w : World) :
  _save_conversation_analysis az env cid r w =
  match write_fault env (cache_file az cid) with
  | NoFault =>
      (Returned tt,
       logged (SavedAnalysis cid) (set_fs <[cache_file az cid := json_dump env r]> w))
  | OpenFails e => (Returned tt, logged (FailedToSave cid e) w)
  | WriteFails k e =>
      (Returned tt,
       logged (FailedToSave cid e)
         (set_fs <[cache_file az cid := String.substring 0 k (json_dump env r)]> w))
  end.
Proof.
  unfold _save_conversation_analysis, try_except, bind, write_text.
  by destruct (write_fault env (cache_file az cid)).
Qed.

Lemma save_returns (az : AIConversationAnalyzer) (env : Env) (cid : string)
    (r : ConversationAnalysisResult) (w : World) :
  _save_conversation_analysis az env cid r w = (Returned tt, saved az env cid r w).
Proof.
  unfold saved. rewrite save_conversation_analysis_eq.
  by destruct (write_fault env (cache_file az cid)).
Qed.

Lemma cached_issues_eq (az : AIConversationAnalyzer) (env : Env)
    (c : Conversation) (w : World) :
  cached_issues az env c w =
  if no_cache az then (Returned None, w)
  else
    match fs w !! cache_file az (id c) with
    | None =>
        match unresolvable env (cache_file az (id c)) with
        | Some e => (Raised e, w)
        | None => (Returned None, w)
        end
    | Some text =>
        match json_load env text with
        | Returned r =>
            (Returned (Some (_result_to_issues c r)),
             logged (UsingCached (id c)) (logged (LoadedCached (id c)) w))
        | Raised e => (Returned None, logged (FailedToLoadCached (id c) e) w)
        end
    end.
Proof.
  unfold cached_issues. destruct (no_cache az); simpl; [done|].
  unfold bind. rewrite load_cached_analysis_eq.
  destruct (fs w !! cache_file az (id c)) as [text|].
  - by destruct (json_load env text).
  - by destruct (unresolvable env (cache_file az (id c))).
Qed.

(** The cache check raises exactly as [cache_check] says, and it then
    leaves the world as it was. *)
Lemma cached_issues_raises (az : AIConversationAnalyzer) (env : Env)
    (c : Conversation) (w : World) (e : exn) :
  cache_check az env c w = Some e ->
  cached_issues az env c w = (Raised e, w).
Proof.
  unfold cache_check. rewrite cached_issues_eq.
  destruct (no_cache az); [done|].
  destruct (fs w !! cache_file az (id c)); [done|].
  by intros ->.
Qed.

Lemma cached_issues_completes (az : AIConversationAnalyzer) (env : Env)
    (c : Conversation) (w : World) :
  cache_check az env c w = None ->
  exists o w', cached_issues az env c w = (Returned o, w')
               /\ fs w' = fs w /\ judge_calls w' = judge_calls w
               /\ sleeps w' = sleeps w
               /\ (forall issues, o = Some issues ->
                     exists r, issues = _result_to_issues c r).
Proof.
  unfold cache_check. rewrite cached_issues_eq.
  destruct (no_cache az); [intros _; eexists _, _; by repeat split|].
  destruct (fs w !! cache_file az (id c)) as [text|].
  - intros _. destruct (json_load env text) as [r|e]; eexists _, _;
      (split; [reflexivity|]); repeat split; try done.
    intros issues [= <-]. by exists r.
  - intros ->. eexists _, _. by repeat split.
Qed.

Lemma in_slot_eq (az : AIConversationAnalyzer) (env : Env) (c : Conversation)
    (response : Eff ConversationAnalysisResult) (w : World) :
  in_slot az env c response w =
  match response w with
  | (Returned r, w1) =>
      (Returned (_result_to_issues c r),
       saved az env (id c) r (logged (CompletedApiCall (id c)) w1))
  | (Raised e, w1) => (Returned [], logged (ErrorAnalyzing (id c) e) w1)
  end.
Proof.
  unfold in_slot, try_except, bind, on_judge_result, on_judge_error.
  destruct (response w) as [[r|e] w1]; [|done].
  unfold bind. simpl. by rewrite save_returns.
Qed.

Lemma analyze_single_body_eq (az : AIConversationAnalyzer) (env : Env)
    (c : Conversation) (w : World) :
  analyze_single_body az env c w =
  match cached_issues az env c w with
  | (Returned (Some issues), w1) => (Returned issues, w1)
  | (Returned None, w1) =>
      in_slot az env c (call_judge env c)
        (logged (AcquiredSlot (id c)) (logged (StartingApiCall (id c)) w1))
  | (Raised e, w1) => (Raised e, w1)
  end.
Proof.
  unfold analyze_single_body, bind at 1.
  destruct (cached_issues az env c w) as [[[issues|]|e] w1]; done.
Qed.

(** Past the cache check the body catches everything: it returns
    whenever the check completes. *)
Lemma analyze_single_body_returns (az : AIConversationAnalyzer) (env : Env)
    (c : Conversation) (w : World) :
  cache_check az env c w = None ->
  exists issues w', analyze_single_body az env c w = (Returned issues, w').
Proof.
  intros Hcheck. rewrite analyze_single_body_eq.
  destruct (cached_issues_completes az env c w Hcheck) as (o & w1 & -> & _).
  destruct o as [issues|]; [eauto|].
  rewrite in_slot_eq. destruct (call_judge env c _) as [[r|e] w2]; eauto.
Qed.

Lemma analyze_single_body_raises (az : AIConversationAnalyzer) (env : Env)
    (c : Conversation) (w : World) (e : exn) :
  cache_check az env c w = Some e ->
  analyze_single_body az env c w = (Raised e, w).
Proof.
  intros Hcheck. by rewrite analyze_single_body_eq, (cached_issues_raises _ _ _ _ e).
Qed.

(** ** The retry wrapper *)

Lemma retry_returned {A} (n : nat) (wait : nat -> Z) (fn : Eff A) (w w' : World) (a : A) :
  fn w = (Returned a, w') -> retry n wait fn w = (Returned a, w').
Proof.
  intros H. unfold retry. destruct (n - 1)%nat; simpl; by rewrite H.
Qed.

(** Past the cache check the wrapper never gets to retry the decorated
    method. *)
Lemma analyze_single_conversation_is_body (az : AIConversationAnalyzer) (env : Env)
    (c : Conversation) (w : World) :
  cache_check az env c w = None ->
  _analyze_single_conversation az env c w = analyze_single_body az env c w.
Proof.
  intros Hcheck.
  destruct (analyze_single_body_returns az env c w Hcheck) as (issues & w' & H).
  unfold _analyze_single_conversation. rewrite H. by apply retry_returned.
Qed.

Lemma cache_check_no_cache (az : AIConversationAnalyzer) (env : Env)
    (c : Conversation) (w : World) :
  no_cache az = true -> cache_check az env c w = None.
Proof. unfold cache_check. by intros ->. Qed.

Lemma cache_check_file (az : AIConversationAnalyzer) (env : Env)
    (c : Conversation) (w : World) (text : string) :
  fs w !! cache_file az (id c) = Some text -> cache_check az env c w = None.
Proof. unfold cache_check. intros ->. by destruct (no_cache az). Qed.

Lemma cache_check_resolves (az : AIConversationAnalyzer) (env : Env)
    (c : Conversation) (w : World) :
  unresolvable env (cache_file az (id c)) = None -> cache_check az env c w = None.
Proof.
  unfold cache_check. intros ->.
  destruct (no_cache az); [done|]. by destruct (fs w !! _).
Qed.

(** A cache check that raises is what the wrapper does retry: the body
    raises on each of the four attempts, with sleeps of 2, 2 and 4
    seconds in between, and the method ends in [RetryError]. *)
Lemma analyze_single_conversation_raises (az : AIConversationAnalyzer) (env : Env)
    (c : Conversation) (w : World) (e : exn) :
  cache_check az env c w = Some e ->
  _analyze_single_conversation az env c w
  = (Raised RetryError,
     {| fs := fs w; log := log w; judge_calls := judge_calls w;
        sleeps := sleeps w ++ [2; 2; 4] |}).
Proof.
  intros Hcheck.
  assert (Hbody : forall sl,
    analyze_single_body az env c
      {| fs := fs w; log := log w; judge_calls := judge_calls w; sleeps := sl |}
    = (Raised e,
       {| fs := fs w; log := log w; judge_calls := judge_calls w; sleeps := sl |})).
  { intros sl. by apply analyze_single_body_raises. }
  unfold _analyze_single_conversation, retry. simpl.
  rewrite (analyze_single_body_raises az env c w e Hcheck). simpl.
  rewrite !Hbody. simpl. by rewrite <- !app_assoc.
Qed.

(** What the wrapper does with a function that does raise: four
    invocations, with sleeps of 2, 2 and 4 seconds in between. *)
Example retry_of_a_raising_call :
  retry DEFAULT_AI_MAX_RETRIES (wait_exponential 1 2 10)
        (call_judge (sample_env (always (Raised APIError)) no_fault)
                    (sample_conversation "c1")) empty_world
  = (Raised RetryError,
     {| fs := ∅; log := [];
        judge_calls := ["c1"; "c1"; "c1"; "c1"]; sleeps := [2; 2; 4] |}).
Proof. reflexivity. Qed.

(** C1. A Judge that raises on its first invocation for a conversation
    and would answer the second one is invoked once: the error is logged,
    the conversation gets zero issues at once, nothing is slept and no
    second attempt is made. *)
Theorem judge_error_is_not_retried :
  _analyze_single_conversation
    (sample_analyzer 2 false) (sample_env (fails_once judgment_a) no_fault)
    (sample_conversation "c1") empty_world
  = (Returned [],
     {| fs := ∅;
        log := [ StartingApiCall "c1"; AcquiredSlot "c1";
                 ErrorAnalyzing "c1" APIError ];
        judge_calls := ["c1"]; sleeps := [] |}).
Proof. reflexivity. Qed.

Lemma call_judge_eq (env : Env) (c : Conversation) (w : World) :
  call_judge env c w = (judge env c (calls_so_far (id c) w), judged (id c) w).
Proof. reflexivity. Qed.

(** In general: with nothing usable in the cache, a Judge error ends the
    decorated method at once with no issues. *)
Lemma judge_error_gives_no_issues (az : AIConversationAnalyzer) (env : Env)
    (c : Conversation) (w : World) (e : exn) :
  no_cache az = true
  \/ (fs w !! cache_file az (id c) = None
      /\ unresolvable env (cache_file az (id c)) = None) ->
  judge env c (calls_so_far (id c) w) = Raised e ->
  _analyze_single_conversation az env c w
  = (Returned [],
     logged (ErrorAnalyzing (id c) e)
       (judged (id c)
          (logged (AcquiredSlot (id c)) (logged (StartingApiCall (id c)) w)))).
Proof.
  intros Hmiss Hj.
  assert (Hcheck : cache_check az env c w = None).
  { destruct Hmiss as [H | [_ H]];
      [by apply cache_check_no_cache | by apply cache_check_resolves]. }
  rewrite analyze_single_conversation_is_body by done.
  rewrite analyze_single_body_eq, cached_issues_eq.
  assert (Hc : (if no_cache az then (Returned None, w)
                else match fs w !! cache_file az (id c) with
                     | None =>
                         match unresolvable env (cache_file az (id c)) with
                         | Some e0 => (Raised e0, w)
                         | None => (Returned None, w)
                         end
                     | Some text =>
                         match json_load env text with
                         | Returned r =>
                             (Returned (Some (_result_to_issues c r)),
                              logged (UsingCached (id c)) (logged (LoadedCached (id c)) w))
                         | Raised e0 =>
                             (Returned None, logged (FailedToLoadCached (id c) e0) w)
                         end
                     end) = (Returned None, w)).
  { destruct Hmiss as [-> | [-> ->]]; [done|]. by destruct (no_cache az). }
  rewrite Hc, in_slot_eq, call_judge_eq. simpl.
  change (calls_so_far (id c) (logged _ (logged _ w))) with (calls_so_far (id c) w).
  by rewrite Hj.
Qed.

(** ** The cache write *)

Lemma saved_eq (az : AIConversationAnalyzer) (env : Env) (cid : string)
    (r : ConversationAnalysisResult) (w : World) :
  saved az env cid r w =
  match write_fault env (cache_file az cid) with
  | NoFault =>
      logged (SavedAnalysis cid) (set_fs <[cache_file az cid := json_dump env r]> w)
  | OpenFails e => logged (FailedToSave cid e) w
  | WriteFails k e =>
      logged (FailedToSave cid e)
        (set_fs <[cache_file az cid := String.substring 0 k (json_dump env r)]> w)
  end.
Proof.
  unfold saved. rewrite save_conversation_analysis_eq.
  by destruct (write_fault env (cache_file az cid)).
Qed.

Lemma saved_judge_calls (az : AIConversationAnalyzer) (env : Env) (cid : string)
    (r : ConversationAnalysisResult) (w : World) :
  judge_calls (saved az env cid r w) = judge_calls w.
Proof. rewrite saved_eq. by destruct (write_fault env (cache_file az cid)). Qed.

Lemma saved_sleeps (az : AIConversationAnalyzer) (env : Env) (cid : string)
    (r : ConversationAnalysisResult) (w : World) :
  sleeps (saved az env cid r w) = sleeps w.
Proof. rewrite saved_eq. by destruct (write_fault env (cache_file az cid)). Qed.

Lemma saved_other_files (az : AIConversationAnalyzer) (env : Env) (cid : string)
    (r : ConversationAnalysisResult) (w : World) (path : string) :
  path <> cache_file az cid ->
  fs (saved az env cid r w) !! path = fs w !! path.
Proof.
  intros Hne. rewrite saved_eq.
  destruct (write_fault env (cache_file az cid)); simpl; [|done|];
    by rewrite lookup_insert_ne.
Qed.

(** C4, as the code has it. The cache put writes in place: it opens the
    conversation's file for writing, which empties it, and dumps the JSON
    text into it. It never raises and touches no other file. With no
    fault the file holds the complete new text; when the open fails the
    files are untouched; when the dump fails after [k] characters the file
    holds the first [k] characters of the new text, whatever it held
    before. Every failure is logged as a warning. *)
Theorem save_writes_in_place (az : AIConversationAnalyzer) (env : Env)
    (cid : string) (r : ConversationAnalysisResult) (w : World) :
  exists w',
    _save_conversation_analysis az env cid r w = (Returned tt, w')
    /\ (forall path, path <> cache_file az cid -> fs w' !! path = fs w !! path)
    /\ match write_fault env (cache_file az cid) with
       | NoFault =>
           fs w' !! cache_file az cid = Some (json_dump env r)
           /\ log w' = log w ++ [SavedAnalysis cid]
       | OpenFails e =>
           fs w' = fs w
           /\ log w' = log w ++ [FailedToSave cid e]
           /\ level_of (FailedToSave cid e) = WARNING
       | WriteFails k e =>
           fs w' !! cache_file az cid
           = Some (String.substring 0 k (json_dump env r))
           /\ log w' = log w ++ [FailedToSave cid e]
           /\ level_of (FailedToSave cid e) = WARNING
       end.
Proof.
  exists (saved az env cid r w). split; [apply save_returns|].
  split; [intros path Hne; by apply saved_other_files|].
  rewrite saved_eq.
  destruct (write_fault env (cache_file az cid)); simpl;
    rewrite ?lookup_insert_eq; done.
Qed.

(** C4, as the claim states it, fails. A record for c1 is cached and
    loads; a put of a new judgment whose dump fails after four characters
    leaves the four-character prefix of the new text in the file, and the
    next read finds no usable record: the previous record is lost, so the
    put is not atomic. *)
Lemma failed_put_loses_previous_record :
  let az := sample_analyzer 2 false in
  let env := sample_env (always (Returned judgment_b)) fails_after_four in
  let w := world_with_file (cache_file az "c1") (sample_dump judgment_a) in
  let w' := saved az env "c1" judgment_b w in
  fst (_load_cached_analysis az env "c1" w) = Returned (Some judgment_a)
  /\ fs w' !! cache_file az "c1" = Some "judg"
  /\ fst (_load_cached_analysis az env "c1" w') = Returned None
  /\ ~ put_is_atomic az env.
Proof.
  cbv zeta. repeat split; try by vm_compute.
  intros H.
  specialize (H "c1" judgment_b
    (world_with_file (cache_file (sample_analyzer 2 false) "c1")
                     (sample_dump judgment_a))).
  vm_compute in H. by destruct H.
Qed.

(** ** The per-conversation method and the cache *)

(** C5, as the code has it. With [no_cache] set, the method invokes the
    Judge exactly once, whatever the cache directory holds: the issues
    returned, the Judge invocations and the log are the same for every
    content of the directory. When that invocation returns a judgment and
    the write meets no fault, the conversation's cache file afterwards
    holds the dump of that fresh judgment. When the Judge raises, nothing
    is written and every file, a previously cached record included, is
    left as it was; so it is when the Judge answers and the file cannot
    be opened for writing. *)
Theorem no_cache_invokes_judge_once_and_overwrites
    (az : AIConversationAnalyzer) (env : Env) (c : Conversation) (w : World) :
  no_cache az = true ->
  exists issues w',
    _analyze_single_conversation az env c w = (Returned issues, w')
    /\ judge_calls w' = judge_calls w ++ [id c]
    /\ (forall files, exists w0,
          _analyze_single_conversation az env c (set_fs (fun _ => files) w)
          = (Returned issues, w0)
          /\ judge_calls w0 = judge_calls w' /\ log w0 = log w')
    /\ (forall r,
          judge env c (calls_so_far (id c) w) = Returned r ->
          write_fault env (cache_file az (id c)) = NoFault ->
          issues = _result_to_issues c r
          /\ fs w' !! cache_file az (id c) = Some (json_dump env r))
    /\ (forall e,
          judge env c (calls_so_far (id c) w) = Raised e ->
          issues = [] /\ fs w' = fs w)
    /\ (forall r e,
          judge env c (calls_so_far (id c) w) = Returned r ->
          write_fault env (cache_file az (id c)) = OpenFails e ->
          issues = _result_to_issues c r /\ fs w' = fs w).
Proof.
  intros Hnc.
  assert (Hrun : forall w1,
    _analyze_single_conversation az env c w1
    = match judge env c (calls_so_far (id c) w1) with
      | Returned r =>
          (Returned (_result_to_issues c r),
           saved az env (id c) r
             (logged (CompletedApiCall (id c))
                (judged (id c)
                   (logged (AcquiredSlot (id c))
                      (logged (StartingApiCall (id c)) w1)))))
      | Raised e =>
          (Returned [],
           logged (ErrorAnalyzing (id c) e)
             (judged (id c)
                (logged (AcquiredSlot (id c))
                   (logged (StartingApiCall (id c)) w1))))
      end).
  { intros w1.
    rewrite analyze_single_conversation_is_body by by apply cache_check_no_cache.
    rewrite analyze_single_body_eq, cached_issues_eq, Hnc, in_slot_eq, call_judge_eq.
    change (calls_so_far (id c) (logged _ (logged _ w1)))
      with (calls_so_far (id c) w1).
    by destruct (judge env c (calls_so_far (id c) w1)). }
  rewrite Hrun.
  destruct (judge env c (calls_so_far (id c) w)) as [r|e] eqn:Hj.
  - eexists _, _. split; [reflexivity|].
    split; [by rewrite saved_judge_calls|].
    split.
    + intros files. eexists. rewrite Hrun.
      change (calls_so_far (id c) (set_fs _ w)) with (calls_so_far (id c) w).
      rewrite Hj. split; [reflexivity|].
      rewrite !saved_judge_calls, !saved_eq.
      by destruct (write_fault env (cache_file az (id c))).
    + split; [|split].
      * intros r' Hr' Hf. injection Hr' as <-. split; [done|].
        rewrite saved_eq, Hf. simpl. by rewrite lookup_insert_eq.
      * intros e He. discriminate.
      * intros r' e Hr' Hf. injection Hr' as <-. split; [done|].
        by rewrite saved_eq, Hf.
  - eexists _, _. split; [reflexivity|].
    split; [done|]. split.
    + intros files. eexists. rewrite Hrun.
      change (calls_so_far (id c) (set_fs _ w)) with (calls_so_far (id c) w).
      by rewrite Hj.
    + split; [|split].
      * intros r' Hr'. discriminate.
      * intros e' _. done.
      * intros r' e' Hr'. discriminate.
Qed.

(** C5, as the claim states it, fails. With [no_cache] set and a record
    for c1 in the cache, a Judge that raises is invoked once and the run
    returns no issues; the cache file is not overwritten and still holds
    the old record. The same holds when the Judge answers but the file
    cannot be opened for writing. *)
Lemma failed_judgment_is_not_cached :
  let az := sample_analyzer 2 true in
  let c := sample_conversation "c1" in
  let w := world_with_file (cache_file az "c1") (sample_dump judgment_a) in
  let failing := sample_env (always (Raised APIError)) no_fault in
  let read_only := sample_env (always (Returned judgment_b)) cannot_open in
  (exists w',
     _analyze_single_conversation az failing c w = (Returned [], w')
     /\ judge_calls w' = ["c1"]
     /\ fs w' !! cache_file az "c1" = Some (sample_dump judgment_a))
  /\ (exists w',
        _analyze_single_conversation az read_only c w
        = (Returned (_result_to_issues c judgment_b), w')
        /\ judge_calls w' = ["c1"]
        /\ fs w' !! cache_file az "c1" = Some (sample_dump judgment_a)).
Proof.
  cbv zeta. split; eexists; (split; [vm_compute; reflexivity|]); by vm_compute.
Qed.

(** C10. With caching enabled and a cached file that loads to a valid
    result, the method returns the issues of the cached result, the Judge
    is not invoked, nothing is slept and the files are left exactly as
    they were. *)
Theorem cache_hit_skips_judge_and_write
    (az : AIConversationAnalyzer) (env : Env) (c : Conversation) (w : World)
    (text : string) (r : ConversationAnalysisResult) :
  no_cache az = false ->
  fs w !! cache_file az (id c) = Some text ->
  json_load env text = Returned r ->
  exists w',
    _analyze_single_conversation az env c w
    = (Returned (_result_to_issues c r), w')
    /\ judge_calls w' = judge_calls w
    /\ fs w' = fs w
    /\ sleeps w' = sleeps w
    /\ log w' = log w ++ [LoadedCached (id c); UsingCached (id c)].
Proof.
  intros Hnc Hfile Hload.
  rewrite analyze_single_conversation_is_body by by eapply cache_check_file.
  rewrite analyze_single_body_eq, cached_issues_eq, Hnc, Hfile, Hload.
  eexists. split; [reflexivity|]. simpl.
  by rewrite <- app_assoc.
Qed.



(** ** The semaphore *)

Lemma count_insert (f : Phase -> bool) (l : list Phase) (i : nat) (old new : Phase) :
  l !! i = Some old ->
  (length (List.filter f (<[i := new]> l)) + Nat.b2n (f old)
   = length (List.filter f l) + Nat.b2n (f new))%nat.
Proof.
  revert i. induction l as [|ph l IH]; intros i Hi; [done|].
  destruct i as [|i]; simpl in *.
  - injection Hi as ->. destruct (f old), (f new); simpl; lia.
  - specialize (IH i Hi). destruct (f ph); simpl; lia.
Qed.

Lemma count_le (f g : Phase -> bool) (l : list Phase) :
  (forall ph, f ph = true -> g ph = true) ->
  (length (List.filter f l) <= length (List.filter g l))%nat.
Proof.
  intros Hfg. induction l as [|ph l IH]; simpl; [lia|].
  destruct (f ph) eqn:Hf.
  - rewrite (Hfg ph Hf). simpl. lia.
  - destruct (g ph); simpl; lia.
Qed.

Lemma in_flight_le_slots_held (p : Pool) : (in_flight p <= slots_held p)%nat.
Proof. apply count_le. by intros []. Qed.

Lemma acquire_accounted (az : AIConversationAnalyzer) (env : Env) (c : Conversation)
    (i n : nat) (w : World) (p : Pool) (old : Phase) :
  tasks p !! i = Some old -> holds_slot old = false -> (0 < sem_value p)%nat ->
  slots_accounted az p -> slots_accounted az (acquire env c i n w p).
Proof.
  unfold slots_accounted, slots_held, acquire. intros Hi Hold Hpos Hacc.
  destruct (call_judge env c _) as [response w2]. simpl.
  pose proof (count_insert holds_slot (tasks p) i old (InFlight n response) Hi) as Hc.
  rewrite Hold in Hc. simpl in Hc. lia.
Qed.

Lemma complete_accounted (az : AIConversationAnalyzer) (i : nat)
    (issues : list ConversationIssue) (w : World) (slots : nat) (p : Pool) (old : Phase) :
  tasks p !! i = Some old ->
  (slots = Nat.b2n (holds_slot old) + sem_value p)%nat ->
  slots_accounted az p -> slots_accounted az (complete i issues w slots p).
Proof.
  unfold slots_accounted, slots_held, complete. intros Hi Hslots Hacc. simpl.
  pose proof (count_insert holds_slot (tasks p) i old (Finished issues) Hi) as Hc.
  simpl in Hc. lia.
Qed.

Lemma on_raise_accounted (az : AIConversationAnalyzer) (i n : nat) (w : World)
    (slots : nat) (p : Pool) (old : Phase) :
  tasks p !! i = Some old ->
  (slots = Nat.b2n (holds_slot old) + sem_value p)%nat ->
  slots_accounted az p -> slots_accounted az (on_raise i n w slots p).
Proof.
  unfold slots_accounted, slots_held, on_raise. intros Hi Hslots Hacc.
  case_decide; simpl.
  - pose proof (count_insert holds_slot (tasks p) i old (Failed RetryError) Hi) as Hc.
    simpl in Hc. lia.
  - pose proof (count_insert holds_slot (tasks p) i old (Pending (S n)) Hi) as Hc.
    simpl in Hc. lia.
Qed.

Lemma set_task_accounted (az : AIConversationAnalyzer) (i : nat) (ph : Phase)
    (w : World) (p : Pool) (old : Phase) :
  tasks p !! i = Some old -> holds_slot old = holds_slot ph ->
  slots_accounted az p -> slots_accounted az (set_task i ph w p).
Proof.
  unfold slots_accounted, slots_held, set_task. intros Hi Hsame Hacc. simpl.
  pose proof (count_insert holds_slot (tasks p) i old ph Hi) as Hc.
  rewrite Hsame in Hc. lia.
Qed.

Lemma step_task_accounted (az : AIConversationAnalyzer) (env : Env)
    (convs : list Conversation) (i : nat) (p p' : Pool) :
  step_task az env convs i p = Some p' ->
  slots_accounted az p -> slots_accounted az p'.
Proof.
  unfold step_task. intros Hstep Hacc.
  destruct (convs !! i) as [c|]; [|done].
  destruct (tasks p !! i) as [[n|n|n response|n response|issues|e]|] eqn:Hi;
    try done.
  - destruct (cached_issues az env c (world p)) as [[[issues|]|e] w].
    + injection Hstep as <-. eapply complete_accounted; eauto.
    + case_decide; injection Hstep as <-.
      * eapply acquire_accounted; eauto.
      * eapply set_task_accounted; eauto.
    + injection Hstep as <-. eapply on_raise_accounted; eauto.
  - case_decide; [|done]. injection Hstep as <-.
    eapply acquire_accounted; eauto.
  - injection Hstep as <-. eapply set_task_accounted; eauto.
  - destruct (in_slot az env c _ (world p)) as [[issues|e] w];
      injection Hstep as <-.
    + eapply complete_accounted; eauto.
    + eapply on_raise_accounted; eauto.
Qed.

Lemma run_schedule_accounted (az : AIConversationAnalyzer) (env : Env)
    (convs : list Conversation) (schedule : list nat) (p p' : Pool) :
  run_schedule az env convs schedule p = Some p' ->
  slots_accounted az p -> slots_accounted az p'.
Proof.
  revert p. induction schedule as [|i schedule IH]; intros p Hrun Hacc; simpl in Hrun.
  - by injection Hrun as <-.
  - destruct (step_task az env convs i p) as [p1|] eqn:Hstep; [|done].
    eapply IH; [exact Hrun|]. by eapply step_task_accounted.
Qed.

Lemma init_pool_accounted (az : AIConversationAnalyzer)
    (convs : list Conversation) (w : World) :
  slots_accounted az (init_pool az convs w).
Proof.
  unfold slots_accounted, slots_held, init_pool. simpl.
  assert (H : List.filter holds_slot (map (fun _ => Pending 1) convs) = []).
  { induction convs as [|c convs IH]; [done|]. simpl. exact IH. }
  by rewrite H.
Qed.

(** C2, as the code has it. In every state the event loop can reach, for
    every number of conversations, at most [max_concurrency] Judge
    invocations are in flight. A slot is held by a task from its entry
    into the [async with] block to its exit, that is while its Judge call
    is in flight and also once the response is delivered and still has to
    be saved to the cache and turned into issues: the slots so held and
    the free slots always add up to [max_concurrency]. *)
Theorem in_flight_bounded (az : AIConversationAnalyzer) (env : Env)
    (convs : list Conversation) (schedule : list nat) (w : World) (p : Pool) :
  run_schedule az env convs schedule (init_pool az convs w) = Some p ->
  (in_flight p <= max_concurrency az)%nat
  /\ (in_flight p <= slots_held p)%nat
  /\ (slots_held p + sem_value p = max_concurrency az)%nat.
Proof.
  intros Hrun.
  pose proof (run_schedule_accounted az env convs schedule _ p Hrun
                (init_pool_accounted az convs w)) as Hacc.
  pose proof (in_flight_le_slots_held p) as Hle.
  unfold slots_accounted in Hacc. repeat split; lia.
Qed.

(** C2, as the claim states it, fails. With one slot and one
    conversation, two turns of the event loop bring the task to the point
    where the Judge has answered and the slot is still held: no
    invocation is in flight, no slot is free. The next turn writes the
    cache file and only then frees the slot. *)
Lemma slot_held_after_judge_call :
  let az := sample_analyzer 1 false in
  let env := sample_env (always (Returned judgment_a)) no_fault in
  let convs := [sample_conversation "c1"] in
  exists p p',
    run_schedule az env convs [0; 0]%nat (init_pool az convs empty_world) = Some p
    /\ in_flight p = 0%nat /\ slots_held p = 1%nat /\ sem_value p = 0%nat
    /\ ~ slot_held_only_during_judge_call p
    /\ fs (world p) !! cache_file az "c1" = None
    /\ step_task az env convs 0 p = Some p'
    /\ fs (world p') !! cache_file az "c1" = Some (sample_dump judgment_a)
    /\ sem_value p' = 1%nat.
Proof.
  cbv zeta. eexists _, _.
  split; [vm_compute; reflexivity|].
  repeat split; try by vm_compute.
Qed.

(** ** What ends up in [results] *)

Lemma flag_to_issue_scored (c : Conversation) (r : ConversationAnalysisResult)
    (flag : IssueFlag) :
  severity_score (flag_to_issue c r flag) = Some (weight (severity flag)).
Proof. by destruct flag as [t [] cf m e y f]. Qed.

Lemma result_to_issues_scored (c : Conversation) (r : ConversationAnalysisResult) :
  Forall ai_scored (_result_to_issues c r).
Proof.
  rewrite result_to_issues_map. apply Forall_forall. intros issue Hin.
  apply list_elem_of_In, in_map_iff in Hin as (flag & <- & _).
  exists (severity flag). apply flag_to_issue_scored.
Qed.

Lemma cached_issues_scored (az : AIConversationAnalyzer) (env : Env)
    (c : Conversation) (w w' : World) (issues : list ConversationIssue) :
  cached_issues az env c w = (Returned (Some issues), w') ->
  Forall ai_scored issues.
Proof.
  rewrite cached_issues_eq. destruct (no_cache az); [done|].
  destruct (fs w !! cache_file az (id c)) as [text|];
    [|by destruct (unresolvable env _)].
  destruct (json_load env text) as [r|e]; [|done].
  intros [= <- _]. apply result_to_issues_scored.
Qed.

Lemma in_slot_scored (az : AIConversationAnalyzer) (env : Env)
    (c : Conversation) (response : Eff ConversationAnalysisResult)
    (w w' : World) (issues : list ConversationIssue) :
  in_slot az env c response w = (Returned issues, w') ->
  Forall ai_scored issues.
Proof.
  rewrite in_slot_eq. destruct (response w) as [[r|e] w1]; intros [= <- _].
  - apply result_to_issues_scored.
  - constructor.
Qed.

Lemma on_raise_results (i n : nat) (w : World) (slots : nat) (p : Pool) :
  results (on_raise i n w slots p) = results p.
Proof. unfold on_raise. by case_decide. Qed.

Lemma acquire_results (env : Env) (c : Conversation) (i n : nat) (w : World) (p : Pool) :
  results (acquire env c i n w p) = results p.
Proof. unfold acquire. by destruct (call_judge env c _). Qed.

Lemma step_task_scored (az : AIConversationAnalyzer) (env : Env)
    (convs : list Conversation) (i : nat) (p p' : Pool) :
  step_task az env convs i p = Some p' ->
  Forall (Forall ai_scored) (results p) -> Forall (Forall ai_scored) (results p').
Proof.
  unfold step_task. intros Hstep Hres.
  destruct (convs !! i) as [c|]; [|done].
  destruct (tasks p !! i) as [[n|n|n response|n response|issues|e]|]; try done.
  - destruct (cached_issues az env c (world p)) as [[[issues|]|e] w] eqn:Hc.
    + injection Hstep as <-. simpl. apply Forall_app. split; [done|].
      constructor; [|done]. by eapply cached_issues_scored.
    + case_decide; injection Hstep as <-; by rewrite ?acquire_results.
    + injection Hstep as <-. by rewrite on_raise_results.
  - case_decide; [|done]. injection Hstep as <-. by rewrite acquire_results.
  - by injection Hstep as <-.
  - destruct (in_slot az env c _ (world p)) as [[issues|e] w] eqn:Hs;
      injection Hstep as <-.
    + simpl. apply Forall_app. split; [done|].
      constructor; [|done]. by eapply in_slot_scored.
    + by rewrite on_raise_results.
Qed.

Lemma run_schedule_scored (az : AIConversationAnalyzer) (env : Env)
    (convs : list Conversation) (schedule : list nat) (p p' : Pool) :
  run_schedule az env convs schedule p = Some p' ->
  Forall (Forall ai_scored) (results p) -> Forall (Forall ai_scored) (results p').
Proof.
  revert p. induction schedule as [|i schedule IH]; intros p Hrun Hres; simpl in Hrun.
  - by injection Hrun as <-.
  - destruct (step_task az env convs i p) as [p1|] eqn:Hstep; [|done].
    eapply IH; [exact Hrun|]. by eapply step_task_scored.
Qed.

(** ** The categories of the aggregate *)

Lemma aggregate_categories_eq (n : nat) (results : list (list ConversationIssue)) :
  categories (analyze_async_aggregate n results)
  = [ sorted_category CatRepetitive results; sorted_category CatUnhelpful results;
      []; sorted_category CatDeadEnd results; [];
      sorted_category CatObviousWrongAnswers results;
      sorted_category CatMissedEscalation results;
      sorted_category CatDumbQuestions results;
      sorted_category CatLackOfEncouragement results ].
Proof.
  unfold categories, analyze_async_aggregate, sorted_category. simpl.
  pose proof (fun c => bucket_categorize c results) as Hb.
  pose proof (Hb CatRepetitive) as H1. pose proof (Hb CatUnhelpful) as H2.
  pose proof (Hb CatDeadEnd) as H3. pose proof (Hb CatObviousWrongAnswers) as H4.
  pose proof (Hb CatMissedEscalation) as H5. pose proof (Hb CatDumbQuestions) as H6.
  pose proof (Hb CatLackOfEncouragement) as H7. simpl in H1, H2, H3, H4, H5, H6, H7.
  by rewrite H1, H2, H3, H4, H5, H6, H7.
Qed.

Lemma aggregate_categories (n : nat) (results : list (list ConversationIssue))
    (l : list ConversationIssue) :
  l ∈ categories (analyze_async_aggregate n results) ->
  l = [] \/ exists c,
    l = sort_reverse severity_key (filter (in_category c) (concat results)).
Proof.
  rewrite aggregate_categories_eq. unfold sorted_category.
  intros Hin. repeat (apply elem_of_cons in Hin as [-> | Hin]); eauto.
  by apply elem_of_nil in Hin.
Qed.

Lemma aggregate_category_sorted (n : nat) (results : list (list ConversationIssue))
    (l : list ConversationIssue) :
  l ∈ categories (analyze_async_aggregate n results) ->
  StronglySorted (key_ge severity_key) l.
Proof.
  intros [-> | (c & ->)]%aggregate_categories; [constructor|].
  apply sort_reverse_sorted.
Qed.

Lemma aggregate_category_members (n : nat) (results : list (list ConversationIssue))
    (l : list ConversationIssue) (x : ConversationIssue) :
  l ∈ categories (analyze_async_aggregate n results) -> x ∈ l ->
  exists issues, issues ∈ results /\ x ∈ issues.
Proof.
  intros [-> | (c & ->)]%aggregate_categories Hx; [by apply elem_of_nil in Hx|].
  rewrite sort_reverse_Permutation in Hx.
  apply list_elem_of_filter in Hx as [_ Hx].
  apply list_elem_of_In, in_concat in Hx as (issues & H1 & H2).
  exists issues. by rewrite !list_elem_of_In.
Qed.

(** C6. In the analysis [analyze_async] returns, under any schedule of
    the event loop, every issue of every category carries a severity
    score, and of two issues of one category the later one never has the
    greater score; in particular an issue of score 9 never stands after
    one of score 3. *)
Theorem categories_sorted_by_severity (az : AIConversationAnalyzer) (env : Env)
    (convs : list Conversation) (schedule : list nat) (w w' : World)
    (qa : QualityAnalysis) :
  analyze_async az env convs schedule w = Some (Returned qa, w') ->
  forall l, l ∈ categories qa ->
  forall (i j : nat) (x y : ConversationIssue),
    (i < j)%nat -> l !! i = Some x -> l !! j = Some y ->
    (exists sx sy,
       severity_score x = Some sx /\ severity_score y = Some sy /\ sy <= sx)
    /\ ~ (severity_score x = Some 3 /\ severity_score y = Some 9).
Proof.
  unfold analyze_async. intros Hrun l Hl i j x y Hij Hx Hy.
  destruct (run_schedule az env convs schedule _) as [p|] eqn:Hp; [|done].
  destruct (existsb is_failed (tasks p)); [done|].
  destruct (forallb is_finished (tasks p)); [|done].
  injection Hrun as <- _.
  assert (Hres : Forall (Forall ai_scored) (results p)).
  { eapply run_schedule_scored; [exact Hp|]. constructor. }
  assert (Hscored : forall z, z ∈ l -> ai_scored z).
  { intros z Hz.
    destruct (aggregate_category_members _ _ l z Hl Hz) as (issues & H1 & H2).
    rewrite Forall_forall in Hres. specialize (Hres issues H1).
    rewrite Forall_forall in Hres. by apply Hres. }
  destruct (Hscored x) as [sx Hsx]; [by eapply list_elem_of_lookup_2|].
  destruct (Hscored y) as [sy Hsy]; [by eapply list_elem_of_lookup_2|].
  pose proof (sorted_lookup_ge severity_key l i j x y
                (aggregate_category_sorted _ _ l Hl) Hij Hx Hy) as Hle.
  unfold severity_key in Hle. rewrite Hsx, Hsy in Hle.
  assert (Hk : forall s, or_zero (Some (weight s)) = weight s) by by intros [].
  rewrite !Hk in Hle.
  split.
  - exists (weight sx), (weight sy). done.
  - intros [H3 H9]. rewrite Hsx in H3. rewrite Hsy in H9.
    injection H3 as H3. injection H9 as H9. lia.
Qed.

(** ** [to_dict] *)

Lemma sum_Z_from (l : list Z) (a : Z) : fold_left Z.add l a = a + foldr Z.add 0 l.
Proof.
  revert a. induction l as [|x l IH]; intros a; simpl; [lia|].
  rewrite IH. lia.
Qed.

Lemma sum_Z_foldr (l : list Z) : sum_Z l = foldr Z.add 0 l.
Proof. unfold sum_Z. rewrite sum_Z_from. lia. Qed.

Lemma scored_scores (l : list ConversationIssue) :
  map (fun i => if_not_none_else_zero (severity_score i)) (List.filter is_scored l)
  = scores_of l.
Proof.
  unfold scores_of, is_scored.
  induction l as [|x l IH]; simpl; [done|].
  destruct (severity_score x) as [n|] eqn:Hx; simpl; [|done].
  by rewrite Hx, IH.
Qed.

Lemma scored_length (l : list ConversationIssue) :
  length (List.filter is_scored l) = length (scores_of l).
Proof. by rewrite <- scored_scores, length_map. Qed.

Lemma existsb_scored (l : list ConversationIssue) :
  existsb is_scored l = negb (bool_decide (scores_of l = [])).
Proof.
  unfold scores_of, is_scored.
  induction l as [|x l IH]; simpl; [done|].
  by destruct (severity_score x).
Qed.

Lemma to_dict_guard (qa : QualityAnalysis) :
  negb (bool_decide (all_issues qa = [])) && existsb is_scored (all_issues qa)
  = negb (bool_decide (scores_of (all_issues qa) = [])).
Proof.
  rewrite existsb_scored.
  destruct (all_issues qa) as [|x l]; [done|]. done.
Qed.

Lemma elem_of_scored (l : list ConversationIssue) (x : ConversationIssue) :
  x ∈ List.filter is_scored l <-> x ∈ l /\ is_Some (severity_score x).
Proof.
  rewrite list_elem_of_In, filter_In, <- list_elem_of_In. unfold is_scored.
  split; intros [H1 H2]; (split; [done|]).
  - by destruct (severity_score x).
  - by destruct H2 as [n ->].
Qed.

Lemma truediv_quotient (a : Z) (n : nat) :
  (0 < n)%nat ->
  (truediv a n == inject_Z a / inject_Z (Z.of_nat n))%Q.
Proof.
  intros Hn. unfold truediv. rewrite Qmake_Qdiv.
  replace (Z.pos (Pos.of_nat n)) with (Z.of_nat n); [reflexivity|].
  destruct n as [|n]; [lia|]. by rewrite <- Pos.of_nat_succ, Zpos_P_of_succ_nat, Nat2Z.inj_succ.
Qed.

(** C8, as the code has it. When no issue of the analysis carries a
    severity score (in particular when there is no issue at all), the
    serialized aggregate has neither a summary nor a top-offenders list.
    When some issue carries a score, it has both. The summary holds the
    number of distinct conversation ids among all issues, the mean of the
    severity scores over the issues that carry one, and the number of all
    issues. The top-offenders list holds the twenty scored issues of
    greatest score (all of them when there are fewer), in non-increasing
    score order: together with the scored issues it leaves out it is the
    list of all scored issues, each as often as it occurs there, none of
    those left out has a greater score than one it holds, and issues of
    equal score stand in the order the categories are concatenated in,
    the earliest of them kept. The mean is the exact quotient, of which
    Python stores the nearest float. *)
Theorem to_dict_summary_statistics (qa : QualityAnalysis) :
  match scores_of (all_issues qa) with
  | [] => d_summary (to_dict qa) = None /\ d_top_offenders (to_dict qa) = None
  | _ :: _ =>
      exists s top,
        d_summary (to_dict qa) = Some s
        /\ d_top_offenders (to_dict qa) = Some top
        /\ (exists ids : list string,
              NoDup ids
              /\ (forall cid, cid ∈ ids <->
                    exists x, x ∈ all_issues qa /\ conversation_id x = cid)
              /\ conversations_with_issues s = length ids)
        /\ (average_severity s
             == inject_Z (foldr Z.add 0%Z (scores_of (all_issues qa)))
                / inject_Z (Z.of_nat (length (scores_of (all_issues qa)))))%Q
        /\ total_issues_found s = length (all_issues qa)
        /\ length top = Nat.min 20 (length (scores_of (all_issues qa)))
        /\ StronglySorted (key_ge offender_key) top
        /\ (forall x, x ∈ top -> x ∈ all_issues qa /\ is_Some (severity_score x))
        /\ (forall x y,
              x ∈ all_issues qa -> is_Some (severity_score x) -> x ∉ top ->
              y ∈ top -> offender_key x <= offender_key y)
        /\ (exists rest,
              top ++ rest ≡ₚ scored_issues qa
              /\ forall x y, x ∈ rest -> y ∈ top -> offender_key x <= offender_key y)
        /\ (forall k,
              filter (fun x => offender_key x = k) top
              `prefix_of` filter (fun x => offender_key x = k) (scored_issues qa))
  end.
Proof.
  pose proof (to_dict_guard qa) as Hg.
  destruct (scores_of (all_issues qa)) as [|n ns] eqn:Hs.
  - unfold to_dict. simpl. by rewrite Hg.
  - exists (to_dict_summary qa), (to_dict_top_offenders qa).
    unfold to_dict. simpl. rewrite Hg. simpl.
    split; [done|]. split; [done|].
    assert (Hlen : length (scored_issues qa) = S (length ns)).
    { unfold scored_issues. by rewrite scored_length, Hs. }
    split; [|split; [|split; [done|]]].
    + exists (elements (id_set (all_issues qa))).
      split; [apply NoDup_elements|]. split; [|done].
      intros cid. unfold id_set.
      rewrite elem_of_elements, elem_of_list_to_set.
      change map with (@fmap list _). rewrite list_elem_of_fmap.
      split; intros (x & H1 & H2); exists x; auto.
    + unfold to_dict_summary. simpl.
      destruct (scored_issues qa) as [|x l] eqn:Hsc; [done|].
      rewrite <- Hsc. unfold scored_issues.
      rewrite scored_scores, scored_length, Hs, sum_Z_foldr.
      apply truediv_quotient. simpl. lia.
    + unfold to_dict_top_offenders. fold offender_key.
      set (sorted := sort_reverse offender_key (List.filter is_scored (all_issues qa))).
      assert (Hperm : sorted ≡ₚ List.filter is_scored (all_issues qa))
        by apply sort_reverse_Permutation.
      assert (Hsorted : StronglySorted (key_ge offender_key) (take 20 sorted ++ drop 20 sorted)).
      { rewrite take_drop. apply sort_reverse_sorted. }
      split; [|split; [|split; [|split; [|split]]]].
      * rewrite length_take, Hperm. fold (scored_issues qa). rewrite Hlen.
        simpl. lia.
      * by eapply StronglySorted_app_1_l.
      * intros x Hx. apply subseteq_take in Hx. rewrite Hperm in Hx.
        by apply elem_of_scored.
      * intros x y Hx Hsx Hnot Hy.
        assert (Hin : x ∈ take 20 sorted ++ drop 20 sorted).
        { rewrite take_drop, Hperm. by apply elem_of_scored. }
        apply elem_of_app in Hin as [Hin|Hin]; [done|].
        by apply (StronglySorted_app_1_elem_of _ _ _ y x Hsorted).
      * exists (drop 20 sorted). split; [by rewrite take_drop|].
        intros x y Hx Hy.
        by apply (StronglySorted_app_1_elem_of _ _ _ y x Hsorted).
      * intros k. exists (filter (fun x => offender_key x = k) (drop 20 sorted)).
        rewrite <- filter_app, take_drop. unfold sorted, scored_issues.
        by rewrite sort_reverse_stable.
Qed.

(** C8, as the claim states it, fails: the analysis of an empty batch
    has no issues, and its serialized aggregate carries no summary and no
    top-offenders list; the same holds for an analysis whose one issue
    has no severity score. *)
Lemma empty_analysis_has_no_summary :
  let qa := analyze_async_aggregate 0 [] in
  all_issues qa = []
  /\ d_summary (to_dict qa) = None
  /\ d_top_offenders (to_dict qa) = None
  /\ length (all_issues rule_based_analysis) = 1%nat
  /\ d_summary (to_dict rule_based_analysis) = None
  /\ d_top_offenders (to_dict rule_based_analysis) = None.
Proof. by vm_compute. Qed.

(** ** Order independence *)

Lemma concat_Permutation {A} (l l' : list (list A)) :
  l ≡ₚ l' -> concat l ≡ₚ concat l'.
Proof.
  induction 1 as [|x l l' _ IH|x y l|l1 l2 l3 _ IH1 _ IH2]; simpl.
  - done.
  - by rewrite IH.
  - rewrite !app_assoc. f_equiv. apply Permutation_app_comm.
  - by rewrite IH1.
Qed.

Lemma bool_filter_Permutation {A} (f : A -> bool) (l l' : list A) :
  l ≡ₚ l' -> List.filter f l ≡ₚ List.filter f l'.
Proof.
  induction 1 as [|x l l' _ IH|x y l|l1 l2 l3 _ IH1 _ IH2]; simpl.
  - done.
  - destruct (f x); by rewrite IH.
  - destruct (f x), (f y); try done. apply Permutation_swap.
  - by rewrite IH1.
Qed.

Lemma foldr_add_Permutation (l l' : list Z) :
  l ≡ₚ l' -> foldr Z.add 0 l = foldr Z.add 0 l'.
Proof.
  induction 1 as [|x l l' _ IH|x y l|l1 l2 l3 _ IH1 _ IH2]; simpl; lia.
Qed.

Lemma scores_of_Permutation (l l' : list ConversationIssue) :
  l ≡ₚ l' -> scores_of l ≡ₚ scores_of l'.
Proof. unfold scores_of. intros H. by rewrite H. Qed.

Lemma all_issues_concat (qa : QualityAnalysis) :
  all_issues qa = concat (categories qa).
Proof. unfold all_issues, categories. simpl. by rewrite app_nil_r. Qed.

Lemma categories_all_issues_Permutation (qa qa' : QualityAnalysis) :
  Forall2 (≡ₚ) (categories qa) (categories qa') -> all_issues qa ≡ₚ all_issues qa'.
Proof.
  rewrite !all_issues_concat.
  induction 1 as [|l l' ls ls' Hl _ IH]; simpl; [done|]. by rewrite Hl, IH.
Qed.

Lemma sorted_category_Permutation (c : Category)
    (results results' : list (list ConversationIssue)) :
  results ≡ₚ results' -> sorted_category c results ≡ₚ sorted_category c results'.
Proof.
  intros Hp. apply concat_Permutation in Hp.
  unfold sorted_category. rewrite !sort_reverse_Permutation. by rewrite Hp.
Qed.

Lemma sorted_category_keys (c : Category)
    (results results' : list (list ConversationIssue)) :
  results ≡ₚ results' ->
  map severity_key (sorted_category c results)
  = map severity_key (sorted_category c results').
Proof.
  intros Hp. apply concat_Permutation in Hp.
  unfold sorted_category. apply sort_reverse_keys. by rewrite Hp.
Qed.

Lemma aggregate_categories_Permutation (n n' : nat)
    (results results' : list (list ConversationIssue)) :
  results ≡ₚ results' ->
  Forall2 (≡ₚ) (categories (analyze_async_aggregate n results))
               (categories (analyze_async_aggregate n' results')).
Proof.
  intros Hp. rewrite !aggregate_categories_eq.
  repeat constructor; by apply sorted_category_Permutation.
Qed.

Lemma aggregate_severity_order (n n' : nat)
    (results results' : list (list ConversationIssue)) :
  results ≡ₚ results' ->
  Forall2 (fun l l' => map severity_key l = map severity_key l')
          (categories (analyze_async_aggregate n results))
          (categories (analyze_async_aggregate n' results')).
Proof.
  intros Hp. rewrite !aggregate_categories_eq.
  repeat constructor; by apply sorted_category_keys.
Qed.

Lemma to_dict_summary_Permutation (qa qa' : QualityAnalysis) :
  all_issues qa ≡ₚ all_issues qa' ->
  d_summary (to_dict qa) = d_summary (to_dict qa').
Proof.
  intros Hp. unfold to_dict. simpl. rewrite !to_dict_guard.
  pose proof (scores_of_Permutation _ _ Hp) as Hs.
  assert (Hsc : scored_issues qa ≡ₚ scored_issues qa')
    by by apply bool_filter_Permutation.
  destruct (scores_of (all_issues qa)) as [|n ns] eqn:H1;
    destruct (scores_of (all_issues qa')) as [|n' ns'] eqn:H2; simpl.
  - done.
  - by apply Permutation_nil_l in Hs.
  - by apply Permutation_nil_r in Hs.
  - f_equal. unfold to_dict_summary. f_equal.
    + unfold id_set. f_equal. apply list_to_set_perm_L. by apply Permutation_map.
    + pose proof (Permutation_length Hsc) as Hlen.
      destruct (scored_issues qa) as [|x l] eqn:E1;
        destruct (scored_issues qa') as [|x' l'] eqn:E2; try done.
      rewrite <- Hlen, <- E1, <- E2. f_equal.
      unfold scored_issues. rewrite !scored_scores, !sum_Z_foldr.
      apply foldr_add_Permutation. by rewrite H1, H2.
    + by apply Permutation_length.
Qed.

Lemma scored_severity_scores (l : list ConversationIssue) :
  Forall (fun x => is_Some (severity_score x)) l ->
  map severity_score l = map Some (map offender_key l).
Proof.
  induction 1 as [|x l [n Hx] _ IH]; simpl; [done|].
  rewrite IH. f_equal. unfold offender_key. by rewrite Hx.
Qed.

Lemma top_offenders_scores_Permutation (qa qa' : QualityAnalysis) :
  all_issues qa ≡ₚ all_issues qa' ->
  map severity_score (to_dict_top_offenders qa)
  = map severity_score (to_dict_top_offenders qa').
Proof.
  intros Hp.
  assert (Hall : forall q,
    Forall (fun x => is_Some (severity_score x)) (to_dict_top_offenders q)).
  { intros q. apply Forall_forall. intros x Hx. unfold to_dict_top_offenders in Hx.
    apply subseteq_take in Hx. rewrite sort_reverse_Permutation in Hx.
    by apply elem_of_scored in Hx as [_ ?]. }
  rewrite !scored_severity_scores by apply Hall. f_equal.
  unfold to_dict_top_offenders. fold offender_key.
  change map with (@fmap list _). rewrite !fmap_take. f_equal.
  apply (sort_reverse_keys offender_key). by apply bool_filter_Permutation.
Qed.

(** The aggregation does not depend on the order of [results]. *)
Lemma aggregate_order_independent
    (outcome : Conversation -> list ConversationIssue)
    (convs convs' : list Conversation)
    (results results' : list (list ConversationIssue)) :
  convs ≡ₚ convs' ->
  results ≡ₚ map outcome convs ->
  results' ≡ₚ map outcome convs' ->
  let qa := analyze_async_aggregate (length convs) results in
  let qa' := analyze_async_aggregate (length convs') results' in
  total_analyzed qa = total_analyzed qa'
  /\ Forall2 (≡ₚ) (categories qa) (categories qa')
  /\ Forall2 (fun l l' => map severity_key l = map severity_key l')
             (categories qa) (categories qa')
  /\ d_summary (to_dict qa) = d_summary (to_dict qa')
  /\ (map severity_score <$> d_top_offenders (to_dict qa))
     = (map severity_score <$> d_top_offenders (to_dict qa')).
Proof.
  intros Hc Hr Hr'. cbv zeta.
  assert (Hp : results ≡ₚ results').
  { rewrite Hr, Hr'. by apply Permutation_map. }
  pose proof (aggregate_categories_Permutation (length convs) (length convs') _ _ Hp)
    as Hcat.
  pose proof (categories_all_issues_Permutation _ _ Hcat) as Hall.
  split; [simpl; by apply Permutation_length|].
  split; [done|].
  split; [by apply aggregate_severity_order|].
  split; [by apply to_dict_summary_Permutation|].
  unfold to_dict. cbn [d_top_offenders]. rewrite !to_dict_guard.
  pose proof (scores_of_Permutation _ _ Hall) as Hs.
  destruct (scores_of (all_issues (analyze_async_aggregate (length convs) results)))
    as [|n ns] eqn:H1;
    destruct (scores_of (all_issues (analyze_async_aggregate (length convs') results')))
    as [|n' ns'] eqn:H2; simpl.
  - done.
  - by apply Permutation_nil_l in Hs.
  - by apply Permutation_nil_r in Hs.
  - f_equal. by apply top_offenders_scores_Permutation.
Qed.

(** C3, as the claim states it, fails. Twenty-one conversations have one
    high-severity issue each. Fed in one order and in the reverse order,
    the top-offenders lists keep twenty issues each, but not the same
    twenty: the issue of the first conversation is in one list and not in
    the other. *)
Lemma top_offenders_depend_on_order :
  twenty_one ≡ₚ reverse twenty_one
  /\ ~ order_independent high_outcome twenty_one (reverse twenty_one).
Proof.
  split; [by rewrite reverse_Permutation|].
  intros (_ & _ & _ & Htop).
  set (x := flag_to_issue (sample_conversation "c01") judgment_high
              (sample_flag IssueTypeEnum.REPETITIVE SevHIGH)).
  assert (H1 : d_top_offenders (to_dict (analyze_async_aggregate
                 (length twenty_one) (map high_outcome twenty_one)))
               = Some (to_dict_top_offenders (analyze_async_aggregate
                 (length twenty_one) (map high_outcome twenty_one))))
    by by vm_compute.
  assert (H2 : d_top_offenders (to_dict (analyze_async_aggregate
                 (length (reverse twenty_one)) (map high_outcome (reverse twenty_one))))
               = Some (to_dict_top_offenders (analyze_async_aggregate
                 (length (reverse twenty_one)) (map high_outcome (reverse twenty_one)))))
    by by vm_compute.
  rewrite H1, H2 in Htop. clear H1 H2.
  set (t1 := to_dict_top_offenders _) in Htop.
  set (t2 := to_dict_top_offenders _) in Htop.
  assert (Hperm : t1 ≡ₚ t2) by by inversion Htop.
  assert (Hin : x ∈ t1).
  { apply (bool_decide_unpack _). by vm_compute. }
  rewrite Hperm in Hin.
  apply (bool_decide_pack _) in Hin. by vm_compute in Hin.
Qed.

(** ** The theorems at sample inputs *)

Lemma severity_score_of_flag_witness :
  flags judgment_a !! 0%nat
  = Some (sample_flag IssueTypeEnum.MISSED_ESCALATION SevHIGH)
  /\ exists issue,
       _result_to_issues (sample_conversation "c1") judgment_a !! 0%nat = Some issue
       /\ severity_score issue = Some 9.
Proof.
  split; [reflexivity|].
  apply (severity_score_of_flag (sample_conversation "c1") judgment_a 0
           (sample_flag IssueTypeEnum.MISSED_ESCALATION SevHIGH)).
  reflexivity.
Defined.

Lemma no_cache_invokes_judge_once_and_overwrites_witness :
  let az := sample_analyzer 2 true in
  let env := sample_env (always (Returned judgment_b)) no_fault in
  let w := world_with_file (cache_file az "c1") (sample_dump judgment_a) in
  no_cache az = true
  /\ exists issues w',
       _analyze_single_conversation az env (sample_conversation "c1") w
       = (Returned issues, w')
       /\ judge_calls w' = ["c1"]
       /\ issues = _result_to_issues (sample_conversation "c1") judgment_b
       /\ fs w' !! cache_file az "c1" = Some (sample_dump judgment_b).
Proof.
  cbv zeta. split; [reflexivity|].
  destruct (no_cache_invokes_judge_once_and_overwrites
              (sample_analyzer 2 true)
              (sample_env (always (Returned judgment_b)) no_fault)
              (sample_conversation "c1")
              (world_with_file (cache_file (sample_analyzer 2 true) "c1")
                               (sample_dump judgment_a))
              eq_refl)
    as (issues & w' & Hrun & Hcalls & _ & Hfresh & _).
  destruct (Hfresh judgment_b eq_refl eq_refl) as [Hissues Hfile].
  exists issues, w'. repeat split; assumption.
Defined.

Lemma cache_hit_skips_judge_and_write_witness :
  let az := sample_analyzer 2 false in
  let env := sample_env (always (Raised APIError)) no_fault in
  let w := world_with_file (cache_file az "c1") (sample_dump judgment_a) in
  exists w',
    _analyze_single_conversation az env (sample_conversation "c1") w
    = (Returned (_result_to_issues (sample_conversation "c1") judgment_a), w')
    /\ judge_calls w' = []
    /\ fs w' = fs w.
Proof.
  cbv zeta.
  destruct (cache_hit_skips_judge_and_write
              (sample_analyzer 2 false)
              (sample_env (always (Raised APIError)) no_fault)
              (sample_conversation "c1")
              (world_with_file (cache_file (sample_analyzer 2 false) "c1")
                               (sample_dump judgment_a))
              (sample_dump judgment_a) judgment_a
              eq_refl eq_refl eq_refl)
    as (w' & Hrun & Hcalls & Hfs & _).
  exists w'. repeat split; assumption.
Defined.


Lemma in_flight_bounded_witness :
  exists p,
    run_schedule (sample_analyzer 1 false) answering_env two_conversations
      [0; 1]%nat (init_pool (sample_analyzer 1 false) two_conversations empty_world)
    = Some p
    /\ tasks p = [InFlight 1 (Returned judgment_a); WaitingSlot 1]
    /\ (in_flight p <= 1)%nat
    /\ (slots_held p + sem_value p = 1)%nat.
Proof.
  eexists. split; [vm_compute; reflexivity|]. split; [reflexivity|].
  match goal with
  | |- (in_flight ?p <= _)%nat /\ _ =>
      destruct (in_flight_bounded (sample_analyzer 1 false) answering_env
                  two_conversations [0; 1]%nat empty_world p eq_refl)
        as (Hle & _ & Hacc)
  end.
  split; assumption.
Defined.

Lemma categories_sorted_by_severity_witness :
  exists qa w' x y,
    analyze_async (sample_analyzer 1 false) answering_env two_conversations
      one_slot_schedule empty_world = Some (Returned qa, w')
    /\ missed_escalation qa !! 0%nat = Some x
    /\ missed_escalation qa !! 1%nat = Some y
    /\ conversation_id x = "c1" /\ conversation_id y = "c2"
    /\ exists sx sy,
         severity_score x = Some sx /\ severity_score y = Some sy /\ sy <= sx.
Proof.
  eexists _, _, _, _. split; [vm_compute; reflexivity|].
  split; [reflexivity|]. split; [reflexivity|].
  split; [reflexivity|]. split; [reflexivity|].
  match goal with
  | |- exists sx sy, severity_score ?x = _ /\ severity_score ?y = _ /\ _ =>
      eapply (fun H Hin =>
        proj1 (categories_sorted_by_severity (sample_analyzer 1 false) answering_env
                 two_conversations one_slot_schedule empty_world _ _ H
                 [x; y] Hin 0%nat 1%nat x y (Nat.lt_0_succ 0) eq_refl eq_refl))
  end.
  - vm_compute. reflexivity.
  - apply (bool_decide_unpack _). vm_compute. exact I.
Defined.

(** ** The results list and the tasks *)

Lemma omap_insert_None {A B} (f : A -> option B) (l : list A) (i : nat) (old new : A) :
  l !! i = Some old -> f old = None -> f new = None ->
  omap f (<[i := new]> l) = omap f l.
Proof.
  revert i. induction l as [|a l IH]; intros i Hi Hold Hnew; [done|].
  destruct i as [|i]; simpl in *.
  - injection Hi as ->. by rewrite Hold, Hnew.
  - specialize (IH i Hi Hold Hnew). destruct (f a); [f_equal|]; exact IH.
Qed.

Lemma omap_insert_Some {A B} (f : A -> option B) (l : list A) (i : nat)
    (old new : A) (b : B) :
  l !! i = Some old -> f old = None -> f new = Some b ->
  omap f (<[i := new]> l) ≡ₚ b :: omap f l.
Proof.
  revert i. induction l as [|a l IH]; intros i Hi Hold Hnew; [done|].
  destruct i as [|i]; simpl in *.
  - injection Hi as ->. by rewrite Hold, Hnew.
  - specialize (IH i Hi Hold Hnew). destruct (f a) as [b'|]; [|exact IH].
    etrans; [apply perm_skip; exact IH | apply perm_swap].
Qed.

Lemma complete_results_match (i : nat) (issues : list ConversationIssue)
    (w : World) (slots : nat) (p : Pool) (old : Phase) :
  tasks p !! i = Some old -> finished_issues old = None ->
  results_match p -> results_match (complete i issues w slots p).
Proof.
  unfold results_match, complete. intros Hi Hold Hres. simpl.
  rewrite (omap_insert_Some finished_issues _ i old (Finished issues) issues)
    by done.
  rewrite <- Hres. by rewrite Permutation_app_comm.
Qed.

Lemma on_raise_results_match (i n : nat) (w : World) (slots : nat) (p : Pool)
    (old : Phase) :
  tasks p !! i = Some old -> finished_issues old = None ->
  results_match p -> results_match (on_raise i n w slots p).
Proof.
  unfold results_match, on_raise. intros Hi Hold Hres.
  case_decide; simpl; by rewrite (omap_insert_None finished_issues _ i old).
Qed.

Lemma acquire_results_match (env : Env) (c : Conversation) (i n : nat) (w : World)
    (p : Pool) (old : Phase) :
  tasks p !! i = Some old -> finished_issues old = None ->
  results_match p -> results_match (acquire env c i n w p).
Proof.
  unfold results_match, acquire. intros Hi Hold Hres.
  destruct (call_judge env c _) as [response w2]. simpl.
  by rewrite (omap_insert_None finished_issues _ i old).
Qed.

Lemma set_task_results_match (i : nat) (ph : Phase) (w : World) (p : Pool)
    (old : Phase) :
  tasks p !! i = Some old -> finished_issues old = None ->
  finished_issues ph = None ->
  results_match p -> results_match (set_task i ph w p).
Proof.
  unfold results_match, set_task. intros Hi Hold Hnew Hres. simpl.
  by rewrite (omap_insert_None finished_issues _ i old).
Qed.

Lemma step_task_results_match (az : AIConversationAnalyzer) (env : Env)
    (convs : list Conversation) (i : nat) (p p' : Pool) :
  step_task az env convs i p = Some p' -> results_match p -> results_match p'.
Proof.
  unfold step_task. intros Hstep Hres.
  destruct (convs !! i) as [c|]; [|done].
  destruct (tasks p !! i) as [[n|n|n response|n response|issues|e]|] eqn:Hi;
    try done.
  - destruct (cached_issues az env c (world p)) as [[[issues|]|e] w].
    + injection Hstep as <-. by eapply complete_results_match.
    + case_decide; injection Hstep as <-.
      * by eapply acquire_results_match.
      * by eapply set_task_results_match.
    + injection Hstep as <-. by eapply on_raise_results_match.
  - case_decide; [|done]. injection Hstep as <-. by eapply acquire_results_match.
  - injection Hstep as <-. by eapply set_task_results_match.
  - destruct (in_slot az env c _ (world p)) as [[issues|e] w];
      injection Hstep as <-.
    + by eapply complete_results_match.
    + by eapply on_raise_results_match.
Qed.

Lemma run_schedule_results_match (az : AIConversationAnalyzer) (env : Env)
    (convs : list Conversation) (schedule : list nat) (p p' : Pool) :
  run_schedule az env convs schedule p = Some p' ->
  results_match p -> results_match p'.
Proof.
  revert p. induction schedule as [|i schedule IH]; intros p Hrun Hres; simpl in Hrun.
  - by injection Hrun as <-.
  - destruct (step_task az env convs i p) as [p1|] eqn:Hstep; [|done].
    eapply IH; [exact Hrun|]. by eapply step_task_results_match.
Qed.

Lemma init_pool_results_match (az : AIConversationAnalyzer)
    (convs : list Conversation) (w : World) :
  results_match (init_pool az convs w).
Proof.
  unfold results_match, init_pool. simpl.
  induction convs as [|c convs IH]; simpl; done.
Qed.

Lemma all_finished (l : list Phase) (outs : list (list ConversationIssue)) :
  Forall2 (fun ph out => finished_issues ph = Some out) l outs ->
  existsb is_failed l = false /\ forallb is_finished l = true
  /\ omap finished_issues l = outs.
Proof.
  induction 1 as [|ph out l outs Hph _ (IH1 & IH2 & IH3)]; [done|].
  destruct ph; try done. simpl in Hph. injection Hph as ->.
  split; [exact IH1|]. split; [exact IH2|].
  simpl. f_equal. exact IH3.
Qed.

(** When every task has returned, [analyze_async] returns the aggregate
    of a list that holds the tasks' issue lists in some order. *)
Lemma analyze_async_of_task_outcomes (az : AIConversationAnalyzer) (env : Env)
    (convs : list Conversation) (schedule : list nat) (w : World)
    (outs : list (list ConversationIssue)) :
  task_outcomes az env convs schedule w = Some outs ->
  exists results w',
    analyze_async az env convs schedule w
    = Some (Returned (analyze_async_aggregate (length convs) results), w')
    /\ results ≡ₚ outs.
Proof.
  unfold task_outcomes, analyze_async. intros Hout.
  destruct (run_schedule az env convs schedule _) as [p|] eqn:Hrun; [|done].
  apply mapM_Some in Hout. apply all_finished in Hout as (H1 & H2 & H3).
  rewrite H1, H2. exists (results p), (world p). split; [done|].
  rewrite <- H3. eapply run_schedule_results_match; [exact Hrun|].
  apply init_pool_results_match.
Qed.

(** C3, as the code has it. Run [analyze_async] on a list of
    conversations and on a permutation of it, under any two schedules,
    with every conversation's task returning the same issues in both
    runs. Both runs return an analysis. The two analyses have the same
    [total_analyzed]; each category holds the same multiset of issues
    with the same sequence of sort keys, so the order within a category
    differs only among issues of equal severity; the summary entry
    (conversations with issues, average severity, total issues) is
    identical; the top-offenders lists are both present or both absent and
    carry the same sequence of severity scores. *)
Theorem analyze_async_order_independent
    (az az' : AIConversationAnalyzer) (env env' : Env)
    (outcome : Conversation -> list ConversationIssue)
    (convs convs' : list Conversation) (schedule schedule' : list nat)
    (w w' : World) :
  convs ≡ₚ convs' ->
  task_outcomes az env convs schedule w = Some (map outcome convs) ->
  task_outcomes az' env' convs' schedule' w' = Some (map outcome convs') ->
  exists qa qa' w1 w1',
    analyze_async az env convs schedule w = Some (Returned qa, w1)
    /\ analyze_async az' env' convs' schedule' w' = Some (Returned qa', w1')
    /\ total_analyzed qa = total_analyzed qa'
    /\ Forall2 (≡ₚ) (categories qa) (categories qa')
    /\ Forall2 (fun l l' => map severity_key l = map severity_key l')
               (categories qa) (categories qa')
    /\ d_summary (to_dict qa) = d_summary (to_dict qa')
    /\ (map severity_score <$> d_top_offenders (to_dict qa))
       = (map severity_score <$> d_top_offenders (to_dict qa')).
Proof.
  intros Hp Hout Hout'.
  apply analyze_async_of_task_outcomes in Hout as (results & w1 & Hrun & Hres).
  apply analyze_async_of_task_outcomes in Hout' as (results' & w1' & Hrun' & Hres').
  eexists _, _, w1, w1'. split; [exact Hrun|]. split; [exact Hrun'|].
  by apply (aggregate_order_independent outcome).
Qed.

Lemma analyze_async_order_independent_witness :
  let outcome := fun c => _result_to_issues c judgment_a in
  let az := sample_analyzer 1 false in
  exists qa qa' w1 w1',
    analyze_async az answering_env two_conversations one_slot_schedule empty_world
    = Some (Returned qa, w1)
    /\ analyze_async az answering_env (reverse two_conversations) one_slot_schedule
         empty_world
       = Some (Returned qa', w1')
    /\ Forall2 (≡ₚ) (categories qa) (categories qa')
    /\ d_summary (to_dict qa) = d_summary (to_dict qa').
Proof.
  cbv zeta.
  assert (Hp : two_conversations ≡ₚ reverse two_conversations)
    by (symmetry; apply reverse_Permutation).
  destruct (analyze_async_order_independent
              (sample_analyzer 1 false) (sample_analyzer 1 false)
              answering_env answering_env
              (fun c => _result_to_issues c judgment_a)
              two_conversations (reverse two_conversations)
              one_slot_schedule one_slot_schedule empty_world empty_world
              Hp eq_refl eq_refl)
    as (qa & qa' & w1 & w1' & Hrun & Hrun' & _ & Hcat & _ & Hsum & _).
  exists qa, qa', w1, w1'. repeat split; assumption.
Defined.

(** ** Running tasks to their return *)

Lemma run_schedule_app (az : AIConversationAnalyzer) (env : Env)
    (convs : list Conversation) (s1 s2 : list nat) (p p1 : Pool) :
  run_schedule az env convs s1 p = Some p1 ->
  run_schedule az env convs (s1 ++ s2) p = run_schedule az env convs s2 p1.
Proof.
  revert p. induction s1 as [|i s1 IH]; intros p Hrun; simpl in *.
  - by injection Hrun as ->.
  - destruct (step_task az env convs i p) as [p'|]; [|done]. by apply IH.
Qed.

(** ** The spec's scenarios, run *)

(** Conversation c1, judged with one high-severity MISSED_ESCALATION flag
    and one medium-severity DEAD_END flag, shows up in exactly those two
    categories, with scores 9 and 6. *)
Example scenario_two_flags :
  exists qa w',
    analyze_async (sample_analyzer 1 false) answering_env
      [sample_conversation "c1"] [0; 0; 0]%nat empty_world
    = Some (Returned qa, w')
    /\ map (fun l => map (fun x => (conversation_id x, severity_score x)) l)
           (categories qa)
       = [ []; []; []; [("c1", Some 6)]; []; []; [("c1", Some 9)]; []; [] ]
    /\ fs w' !! cache_file (sample_analyzer 1 false) "c1"
       = Some (sample_dump judgment_a).
Proof. eexists _, _. split; [vm_compute; reflexivity|]. by vm_compute. Qed.

(** An empty batch gives an analysis with [total_analyzed = 0] and every
    category empty. *)
Example scenario_empty_batch :
  analyze_async (sample_analyzer 1 false) answering_env [] [] empty_world
  = Some (Returned {| total_analyzed := 0; repetitive := []; unhelpful := [];
                      too_many_turns := []; dead_end := []; negative_rating := [];
                      obvious_wrong_answers := []; missed_escalation := [];
                      dumb_questions := []; lack_of_encouragement := [] |},
          empty_world).
Proof. reflexivity. Qed.

(** ** Cache bypass, for the whole batch *)

Lemma callers_insert_same (convs : list Conversation) (l : list Phase) (i : nat)
    (old new : Phase) :
  l !! i = Some old -> has_called old = has_called new ->
  callers convs (<[i := new]> l) = callers convs l.
Proof.
  revert convs i. induction l as [|ph l IH]; intros convs i Hi Hsame; [done|].
  destruct convs as [|c convs]; [done|].
  destruct i as [|i]; simpl in *.
  - injection Hi as ->. by rewrite Hsame.
  - by rewrite (IH convs i).
Qed.

Lemma callers_insert_new (convs : list Conversation) (l : list Phase) (i : nat)
    (c : Conversation) (old new : Phase) :
  convs !! i = Some c -> l !! i = Some old ->
  has_called old = false -> has_called new = true ->
  callers convs (<[i := new]> l) ≡ₚ callers convs l ++ [id c].
Proof.
  revert convs i. induction l as [|ph l IH]; intros convs i Hc Hi Hold Hnew; [done|].
  destruct convs as [|c' convs]; [done|].
  destruct i as [|i]; simpl in *.
  - injection Hi as ->. injection Hc as ->. rewrite Hold, Hnew. simpl.
    by rewrite <- Permutation_cons_append.
  - rewrite (IH convs i) by done. by rewrite app_assoc.
Qed.

Lemma callers_all (convs : list Conversation) (l : list Phase) :
  length l = length convs -> forallb is_finished l = true ->
  callers convs l = map id convs.
Proof.
  revert convs. induction l as [|ph l IH]; intros [|c convs] Hlen Hfin; try done.
  simpl in *. destruct ph; try done. simpl in *.
  f_equal. apply IH; [lia|done].
Qed.

Lemma in_slot_judge_calls (az : AIConversationAnalyzer) (env : Env)
    (c : Conversation) (response : outcome ConversationAnalysisResult) (w : World) :
  exists issues w',
    in_slot az env c (fun w0 => (response, w0)) w = (Returned issues, w')
    /\ judge_calls w' = judge_calls w.
Proof.
  rewrite in_slot_eq. destruct response as [r|e]; eexists _, _;
    (split; [reflexivity|]); by rewrite ?saved_judge_calls.
Qed.

Lemma acquire_calls_match (env : Env) (convs : list Conversation) (base : list string)
    (c : Conversation) (i n : nat) (w : World) (p : Pool) (old : Phase) :
  convs !! i = Some c -> tasks p !! i = Some old -> has_called old = false ->
  judge_calls w = judge_calls (world p) ->
  calls_match convs base p -> calls_match convs base (acquire env c i n w p).
Proof.
  unfold calls_match, acquire. intros Hc Hi Hold Hw [Hcalls Hlen].
  rewrite call_judge_eq. simpl. rewrite length_insert. split; [|done].
  rewrite (callers_insert_new convs _ i c old) by done.
  by rewrite Hw, Hcalls, app_assoc.
Qed.

Lemma step_task_calls_match (az : AIConversationAnalyzer) (env : Env)
    (convs : list Conversation) (base : list string) (i : nat) (p p' : Pool) :
  no_cache az = true ->
  step_task az env convs i p = Some p' ->
  calls_match convs base p -> calls_match convs base p'.
Proof.
  unfold step_task. intros Hnc Hstep Hm.
  destruct (convs !! i) as [c|] eqn:Hc; [|done].
  destruct (tasks p !! i) as [[n|n|n response|n response|issues|e]|] eqn:Hi;
    try done.
  - rewrite cached_issues_eq, Hnc in Hstep.
    case_decide; injection Hstep as <-.
    + by eapply acquire_calls_match.
    + destruct Hm as [Hcalls Hlen]. unfold calls_match, set_task. simpl.
      rewrite length_insert. split; [|done].
      by rewrite (callers_insert_same convs _ i (Pending n)).
  - case_decide; [|done]. injection Hstep as <-.
    by eapply acquire_calls_match.
  - injection Hstep as <-. destruct Hm as [Hcalls Hlen].
    unfold calls_match, set_task. simpl. rewrite length_insert. split; [|done].
    by rewrite (callers_insert_same convs _ i (InFlight n response)).
  - destruct (in_slot_judge_calls az env c response (world p))
      as (issues & w & Hs & Hw).
    rewrite Hs in Hstep. injection Hstep as <-. destruct Hm as [Hcalls Hlen].
    unfold calls_match, complete. simpl. rewrite length_insert. split; [|done].
    rewrite (callers_insert_same convs _ i (Responded n response)) by done.
    by rewrite Hw.
Qed.

Lemma run_schedule_calls_match (az : AIConversationAnalyzer) (env : Env)
    (convs : list Conversation) (base : list string) (schedule : list nat)
    (p p' : Pool) :
  no_cache az = true ->
  run_schedule az env convs schedule p = Some p' ->
  calls_match convs base p -> calls_match convs base p'.
Proof.
  intros Hnc. revert p.
  induction schedule as [|i schedule IH]; intros p Hrun Hm; simpl in Hrun.
  - by injection Hrun as <-.
  - destruct (step_task az env convs i p) as [p1|] eqn:Hstep; [|done].
    eapply IH; [exact Hrun|]. by eapply step_task_calls_match.
Qed.

Lemma init_pool_calls_match (az : AIConversationAnalyzer)
    (convs : list Conversation) (w : World) :
  calls_match convs (judge_calls w) (init_pool az convs w).
Proof.
  unfold calls_match, init_pool. simpl. rewrite length_map. split; [|done].
  assert (H0 : callers convs (map (fun _ => Pending 1) convs) = []).
  { induction convs as [|c convs IH]; [done|]. simpl. exact IH. }
  by rewrite H0, app_nil_r.
Qed.

(** X20. With [no_cache] set, a run of [analyze_async] that returns has
    invoked the Judge exactly once for every conversation of the batch,
    under every schedule. *)
Lemma no_cache_batch_invokes_each_once (az : AIConversationAnalyzer) (env : Env)
    (convs : list Conversation) (schedule : list nat) (w w' : World)
    (qa : QualityAnalysis) :
  no_cache az = true ->
  analyze_async az env convs schedule w = Some (Returned qa, w') ->
  judge_calls w' ≡ₚ judge_calls w ++ map id convs.
Proof.
  unfold analyze_async. intros Hnc Hrun.
  destruct (run_schedule az env convs schedule _) as [p|] eqn:Hp; [|done].
  destruct (existsb is_failed (tasks p)); [done|].
  destruct (forallb is_finished (tasks p)) eqn:Hfin; [|done].
  injection Hrun as _ <-.
  destruct (run_schedule_calls_match az env convs (judge_calls w) schedule _ p
              Hnc Hp (init_pool_calls_match az convs w)) as [Hcalls Hlen].
  by rewrite Hcalls, callers_all.
Qed.

(** * More of the code *)

(** ** The rule-based analyzer *)

Lemma analyze_step_lists (self : ConversationAnalyzer) (convs : list Conversation)
    (acc : RuleLists) :
  r_negative_rating (fold_left (analyze_step self) convs acc)
  = r_negative_rating acc
    ++ flat_map (fun c => match rating c with
                          | Some r => if decide (r < negative_rating_threshold self)
                                      then [negative_rating_issue c r] else []
                          | None => []
                          end) convs
  /\ r_too_many_turns (fold_left (analyze_step self) convs acc)
     = r_too_many_turns acc
       ++ flat_map (fun c =>
                      if decide (Z.of_nat (length (conv_messages c))
                                 > excessive_turns_threshold self)
                      then [too_many_turns_issue c] else []) convs.
Proof.
  revert acc. induction convs as [|c convs IH]; intros acc; simpl.
  - by rewrite !app_nil_r.
  - destruct (IH (analyze_step self acc c)) as [-> ->]. unfold analyze_step. simpl.
    split.
    + destruct (rating c) as [r|]; [|done].
      case_decide; [|done]. by rewrite <- app_assoc.
    + case_decide; [|done]. by rewrite <- app_assoc.
Qed.

(** X1. The rule-based analysis counts every conversation, reports in
    [negative_rating], in input order, exactly the conversations that
    have a rating strictly below the threshold (a conversation without a
    rating, or rated at the threshold, is not reported), and in
    [too_many_turns] exactly those with more messages than the turns
    threshold; none of the issues carries a severity score, and all other
    categories are empty. *)
Theorem rule_based_analysis_flags (self : ConversationAnalyzer)
    (convs : list Conversation) :
  let qa := analyze self convs in
  total_analyzed qa = length convs
  /\ map conversation_id (negative_rating qa)
     = map id (List.filter (is_negative self) convs)
  /\ map conversation_id (too_many_turns qa)
     = map id (List.filter (is_excessive self) convs)
  /\ Forall (fun i => issue_type i = NEGATIVE_RATING /\ severity_score i = None)
            (negative_rating qa)
  /\ Forall (fun i => issue_type i = TOO_MANY_TURNS /\ severity_score i = None)
            (too_many_turns qa)
  /\ all_issues qa = too_many_turns qa ++ negative_rating qa.
Proof.
  cbv zeta. unfold analyze, all_issues. simpl.
  destruct (analyze_step_lists self convs
              {| r_negative_rating := []; r_too_many_turns := [] |}) as [-> ->].
  simpl. split; [done|]. repeat split.
  - induction convs as [|c convs IH]; [done|]. simpl. unfold is_negative at 1.
    destruct (rating c) as [r|]; [|exact IH].
    rewrite map_app, IH. case_decide.
    + by rewrite bool_decide_true.
    + by rewrite bool_decide_false.
  - induction convs as [|c convs IH]; [done|]. simpl. unfold is_excessive at 1.
    rewrite map_app, IH. case_decide.
    + rewrite bool_decide_true by lia. done.
    + rewrite bool_decide_false by lia. done.
  - apply Forall_forall. intros i Hi.
    apply list_elem_of_In, in_flat_map in Hi as (c & _ & Hi).
    destruct (rating c) as [r|]; [|done]. case_decide; [|done].
    by destruct Hi as [<-|[]].
  - apply Forall_forall. intros i Hi.
    apply list_elem_of_In, in_flat_map in Hi as (c & _ & Hi).
    case_decide; [|done]. by destruct Hi as [<-|[]].
  - by rewrite app_nil_r.
Qed.

(** X2. Serialising a rule-based analysis never yields a summary or a
    top-offenders list, whatever the conversations and the thresholds:
    the rule-based issues carry no severity score. *)
Theorem rule_based_analysis_has_no_summary (self : ConversationAnalyzer)
    (convs : list Conversation) :
  d_summary (to_dict (analyze self convs)) = None
  /\ d_top_offenders (to_dict (analyze self convs)) = None.
Proof.
  assert (Hs : scores_of (all_issues (analyze self convs)) = []).
  { unfold analyze, all_issues. simpl.
    destruct (analyze_step_lists self convs
                {| r_negative_rating := []; r_too_many_turns := [] |}) as [-> ->].
    simpl. rewrite app_nil_r. unfold scores_of. rewrite omap_app.
    assert (Hnone : forall l : list ConversationIssue,
      Forall (fun i => severity_score i = None) l -> omap severity_score l = []).
    { induction 1 as [|x l Hx _ IH]; [done|]. simpl. by rewrite Hx. }
    rewrite !Hnone; [done| |]; apply Forall_forall; intros i Hi;
      apply list_elem_of_In, in_flat_map in Hi as (c & _ & Hi).
    - destruct (rating c) as [r|]; [|done]. case_decide; [|done].
      by destruct Hi as [<-|[]].
    - case_decide; [|done]. by destruct Hi as [<-|[]]. }
  unfold to_dict. simpl. by rewrite to_dict_guard, Hs.
Qed.

(** ** The prompt's conversation lines *)

Lemma convo_text_fold (msgs : list Message) (idx : nat) (lines : list string) :
  fold_left (fun '(idx, lines) msg => (S idx, lines ++ [prompt_line idx msg]))
            msgs (idx, lines)
  = ((idx + length msgs)%nat, lines ++ imap (fun i => prompt_line (idx + i)) msgs).
Proof.
  revert idx lines. induction msgs as [|m msgs IH]; intros idx lines; simpl.
  - by rewrite Nat.add_0_r, app_nil_r.
  - rewrite IH. rewrite Nat.add_0_r, <- app_assoc. simpl.
    f_equal; [lia|]. do 2 f_equal.
    apply imap_ext. intros i x _. simpl. f_equal. lia.
Qed.

Lemma convo_text_imap (conversation : Conversation) :
  convo_text conversation = imap prompt_line (conv_messages conversation).
Proof. unfold convo_text. by rewrite convo_text_fold. Qed.

(** X3. The conversation part of the prompt has one line per message, in
    message order, and the line of the message at zero-based index [i] is
    ["[i] role: content"]. *)
Theorem convo_text_lines (conversation : Conversation) (i : nat) :
  length (convo_text conversation) = length (conv_messages conversation)
  /\ convo_text conversation !! i
     = (fun msg => "[" +:+ pretty i +:+ "] " +:+ role msg +:+ ": " +:+ content msg)
       <$> conv_messages conversation !! i.
Proof.
  rewrite convo_text_imap. split; [by rewrite length_imap|].
  by rewrite list_lookup_imap.
Qed.

Lemma pretty_N_char_digit (x : N) : is_digit (pretty_N_char x) = true.
Proof.
  unfold pretty_N_char.
  repeat (match goal with
          | |- context [match ?y with _ => _ end] => is_var y; destruct y
          end); reflexivity.
Qed.

Lemma string_app_cons (a : Ascii.ascii) (d s : string) :
  String a d +:+ s = String a (d +:+ s).
Proof. reflexivity. Qed.

Lemma string_app_snoc (d s : string) (ch : Ascii.ascii) :
  d +:+ String ch s = (d +:+ String ch EmptyString) +:+ s.
Proof.
  induction d as [|a d IHd]; [done|]. by rewrite !string_app_cons, IHd.
Qed.

Lemma all_digits_snoc (d : string) (ch : Ascii.ascii) :
  all_digits d = true -> is_digit ch = true ->
  all_digits (d +:+ String ch EmptyString) = true.
Proof.
  intros Hd Hch. induction d as [|a d IHd].
  - change (all_digits (String ch EmptyString) = true). simpl. by rewrite Hch.
  - rewrite string_app_cons. simpl in *.
    apply andb_true_iff in Hd as [-> Hd]. by rewrite IHd.
Qed.

Lemma pretty_N_go_digits (x : N) (s : string) :
  exists d, pretty_N_go x s = d +:+ s /\ all_digits d = true.
Proof.
  revert s. induction (N.lt_wf_0 x) as [x _ IH]; intros s.
  destruct (decide (0 < x)%N) as [Hx|Hx].
  - rewrite pretty_N_go_step by done.
    destruct (IH (x `div` 10)%N (N.div_lt x 10 Hx eq_refl)
                 (String (pretty_N_char (x `mod` 10)) s)) as (d & -> & Hd).
    exists (d +:+ String (pretty_N_char (x `mod` 10)) EmptyString). split.
    + apply string_app_snoc.
    + apply all_digits_snoc; [done|apply pretty_N_char_digit].
  - assert (x = 0%N) as -> by lia. exists EmptyString. done.
Qed.

Lemma pretty_nat_digits (n : nat) : all_digits (pretty n) = true.
Proof.
  unfold pretty, pretty_nat, pretty, pretty_N.
  case_decide; [done|].
  destruct (pretty_N_go_digits (N.of_nat n) EMPTY_STRING) as (d & -> & Hd).
  clear -Hd. induction d as [|a d IH]; [done|]. simpl in *.
  apply andb_true_iff in Hd as [-> Hd]. by rewrite IH.
Qed.

Lemma digits_before_bracket (d1 d2 r1 r2 : string) :
  all_digits d1 = true -> all_digits d2 = true ->
  d1 +:+ String "]"%char r1 = d2 +:+ String "]"%char r2 -> d1 = d2.
Proof.
  revert d2. induction d1 as [|a d1 IH]; intros [|b d2] H1 H2 Heq.
  - done.
  - rewrite string_app_cons in Heq.
    change (String "]"%char r1 = String b (d2 +:+ String "]"%char r2)) in Heq.
    injection Heq as <- _. simpl in H2. discriminate H2.
  - rewrite string_app_cons in Heq.
    change (String a (d1 +:+ String "]"%char r1) = String "]"%char r2) in Heq.
    injection Heq as -> _. simpl in H1. discriminate H1.
  - rewrite !string_app_cons in Heq. injection Heq as -> Heq. simpl in H1, H2.
    apply andb_true_iff in H1 as [_ H1]. apply andb_true_iff in H2 as [_ H2].
    f_equal. by apply IH.
Qed.

Lemma prompt_line_eq (idx : nat) (msg : Message) :
  prompt_line idx msg
  = String "["%char
      (pretty idx +:+ String "]"%char (" " +:+ role msg +:+ ": " +:+ content msg)).
Proof. reflexivity. Qed.

Lemma convo_text_inj (conversation : Conversation) (i j : nat) (line : string) :
  convo_text conversation !! i = Some line ->
  convo_text conversation !! j = Some line ->
  i = j.
Proof.
  rewrite convo_text_imap, !list_lookup_imap. intros Hi Hj.
  destruct (conv_messages conversation !! i) as [mi|]; [|done].
  destruct (conv_messages conversation !! j) as [mj|]; [|done].
  simpl in Hi, Hj. injection Hi as Hi. injection Hj as Hj.
  rewrite <- Hj, !prompt_line_eq in Hi. injection Hi as Hi.
  apply digits_before_bracket in Hi; [|apply pretty_nat_digits..].
  by apply (inj pretty) in Hi.
Qed.

Lemma no_newline_app (a b : string) :
  no_newline (a +:+ b) = no_newline a && no_newline b.
Proof.
  induction a as [|ch a IH]; [done|].
  rewrite string_app_cons. cbn [no_newline]. rewrite IH. by rewrite andb_assoc.
Qed.

Lemma digits_no_newline (d : string) : all_digits d = true -> no_newline d = true.
Proof.
  induction d as [|ch d IH]; [done|]. cbn [all_digits no_newline]. intros Hd.
  apply andb_true_iff in Hd as [Hch Hd]. rewrite (IH Hd), andb_true_r.
  case_bool_decide as Hnl; [|done]. rewrite Hnl in Hch. discriminate Hch.
Qed.

Lemma prompt_line_no_newline (idx : nat) (msg : Message) :
  no_newline (role msg) = true -> no_newline (content msg) = true ->
  no_newline (prompt_line idx msg) = true.
Proof.
  intros Hr Hc. unfold prompt_line.
  rewrite !no_newline_app, Hr, Hc, (digits_no_newline _ (pretty_nat_digits idx)).
  reflexivity.
Qed.

Lemma split_lines_line (x : string) : no_newline x = true -> split_lines x = [x].
Proof.
  unfold split_lines.
  induction x as [|a x IH]; [done|]. cbn [split_on no_newline]. intros Hx.
  apply andb_true_iff in Hx as [Ha Hx]. apply negb_true_iff in Ha.
  apply bool_decide_eq_false in Ha. rewrite decide_False by done.
  by rewrite (IH Hx).
Qed.

Lemma split_lines_cons (x rest : string) :
  no_newline x = true ->
  split_lines (x +:+ newline +:+ rest) = x :: split_lines rest.
Proof.
  unfold split_lines. induction x as [|a x IH]; intros Hx.
  - change (EmptyString +:+ newline +:+ rest)
      with (String (Ascii.ascii_of_nat 10) rest).
    cbn [split_on]. by rewrite decide_True.
  - rewrite string_app_cons. cbn [split_on no_newline] in *.
    apply andb_true_iff in Hx as [Ha Hx]. apply negb_true_iff in Ha.
    apply bool_decide_eq_false in Ha. rewrite decide_False by done.
    by rewrite (IH Hx).
Qed.

Lemma split_lines_join (l : list string) :
  l <> [] -> Forall (fun x => no_newline x = true) l ->
  split_lines (join newline l) = l.
Proof.
  induction l as [|x l IH]; [done|]. intros _ Hall.
  apply Forall_cons in Hall as [Hx Hall].
  destruct l as [|y l]; [by apply split_lines_line|].
  change (join newline (x :: y :: l)) with (x +:+ newline +:+ join newline (y :: l)).
  rewrite split_lines_cons by done. by rewrite IH.
Qed.

(** X4. In the prompt of a conversation that has a message, and whose
    roles and contents hold no newline, the conversation part reads line
    by line as the lines built for the messages, one per message, and no
    two of its lines read the same, even when two messages have the same
    role and content: the bracketed index names one message. *)
Theorem prompt_lines_name_messages (text_before text_after : string)
    (conversation : Conversation) :
  conv_messages conversation <> [] ->
  Forall (fun msg => no_newline (role msg) = true /\ no_newline (content msg) = true)
         (conv_messages conversation) ->
  exists conversation_str,
    _build_analysis_prompt text_before text_after conversation
    = text_before +:+ conversation_str +:+ text_after
    /\ split_lines conversation_str = convo_text conversation
    /\ length (split_lines conversation_str) = length (conv_messages conversation)
    /\ NoDup (split_lines conversation_str).
Proof.
  intros Hne Hall. exists (join newline (convo_text conversation)).
  split; [reflexivity|].
  assert (Hsplit : split_lines (join newline (convo_text conversation))
                   = convo_text conversation).
  { apply split_lines_join.
    - rewrite convo_text_imap. by destruct (conv_messages conversation).
    - rewrite convo_text_imap. apply Forall_lookup. intros i line Hi.
      rewrite list_lookup_imap in Hi.
      destruct (conv_messages conversation !! i) as [msg|] eqn:Hmsg; [|done].
      injection Hi as <-.
      rewrite Forall_lookup in Hall. destruct (Hall i msg Hmsg) as [Hr Hc].
      by apply prompt_line_no_newline. }
  rewrite Hsplit. split; [done|]. split.
  - rewrite convo_text_imap. apply length_imap.
  - apply NoDup_alt. intros i j line. apply convo_text_inj.
Qed.

(** The condition on newlines is needed: a content that holds a newline
    followed by the text of a line shows that line twice. *)
Example forged_line_shows_twice :
  split_lines (join newline (convo_text forged_conversation))
  = ["[0] user: x"; "[1] user: y"; "[1] user: y"].
Proof. reflexivity. Qed.

(** ** [from_dict] and [to_dict] *)

Lemma py_or_str (s : string) (d : string) :
  d = EMPTY_STRING -> py_or (PStr s) (PStr d) = PStr s.
Proof.
  intros ->. unfold py_or. simpl. case_bool_decide as H; [by rewrite H|done].
Qed.

Lemma py_or_same (o : pyobj) : py_or o o = o.
Proof. unfold py_or. by destruct (truthy o). Qed.

Lemma Message_from_dict_asdict (m : Message) :
  Message_from_dict [ ("role", PStr (role m)); ("content", PStr (content m));
                      ("timestamp", opt_str (timestamp m)) ]
  = py_message m.
Proof.
  unfold Message_from_dict, py_message. simpl.
  by rewrite !py_or_str, py_or_same.
Qed.

Lemma Message_from_dict_api (m : Message) :
  Message_from_dict [ ("sender", PStr (role m)); ("message", PStr (content m));
                      ("timestamp", opt_str (timestamp m)) ]
  = py_message m.
Proof.
  unfold Message_from_dict, py_message. simpl. by rewrite py_or_same.
Qed.

Lemma map_from_dict_asdict (msgs : list Message) :
  map (fun msg => match msg with
                  | PDict m => inl (Message_from_dict m)
                  | o => inr o
                  end)
      (map (fun m => match m with
                     | inl pm => PyMessage_asdict pm
                     | inr o => o
                     end)
           (map (fun m => @inl PyMessage pyobj (py_message m)) msgs))
  = map (fun m => inl (py_message m)) msgs.
Proof.
  induction msgs as [|m msgs IH]; [done|]. simpl. rewrite IH. f_equal.
  f_equal. apply (Message_from_dict_asdict m).
Qed.

Lemma py_or_list (l d : list pyobj) :
  d = l -> py_or (PList l) (PList d) = PList l.
Proof. intros ->. apply py_or_same. Qed.

Lemma from_dict_to_dict_eq (bi : Builtins) (c : Conversation) :
  Conversation_from_dict bi (Conversation_to_dict c)
  = Ok (py_conversation (drop_empty_status c)).
Proof.
  unfold Conversation_to_dict, PyConversation_to_dict, Conversation_from_dict.
  cbn [dict_get decide]. simpl.
  rewrite py_or_list by done. simpl. rewrite map_from_dict_asdict.
  rewrite !py_or_str by done. rewrite py_or_same.
  unfold py_conversation, drop_empty_status. simpl. f_equal.
  destruct (rating c) as [r|], (status c) as [st|]; simpl; f_equal;
    unfold py_or; simpl; try done;
    case_bool_decide; case_decide; by simplify_eq/=.
Qed.

Lemma drop_empty_status_id (c : Conversation) :
  drop_empty_status c = c <-> status c <> Some EMPTY_STRING.
Proof.
  unfold drop_empty_status. destruct c as [i m cr [st|] r]; simpl.
  - case_decide as H; split; intros H0; simplify_eq/=; [congruence|done].
  - done.
Qed.

(** X5. Writing a conversation with [to_dict] and reading it back with
    [from_dict] never raises and gives the same conversation back, with
    one exception: a status that is the empty string comes back as
    [None]. So the round trip is the identity exactly on the
    conversations whose status is not the empty string. *)
Theorem from_dict_to_dict (bi : Builtins) (c : Conversation) :
  Conversation_from_dict bi (Conversation_to_dict c)
  = Ok (py_conversation (drop_empty_status c))
  /\ (drop_empty_status c = c <-> status c <> Some EMPTY_STRING).
Proof. split; [apply from_dict_to_dict_eq | apply drop_empty_status_id]. Qed.

Lemma map_from_dict_api (msgs : list Message) :
  map (fun msg => match msg with
                  | PDict m => inl (Message_from_dict m)
                  | o => inr o
                  end)
      (map api_message msgs)
  = map (fun m => inl (py_message m)) msgs.
Proof.
  induction msgs as [|m msgs IH]; [done|]. simpl. rewrite IH. f_equal.
  f_equal. apply (Message_from_dict_api m).
Qed.

(** X6. A record in the API's format (keys [PK], [createdAt],
    [convo_status], [sender], [message]) loads to the very conversation
    it describes, an empty status included. *)
Theorem from_dict_api_record (bi : Builtins) (c : Conversation) :
  Conversation_from_dict bi (api_record c) = Ok (py_conversation c).
Proof.
  unfold api_record, Conversation_from_dict. simpl.
  rewrite py_or_list by done. simpl. rewrite map_from_dict_api.
  rewrite py_or_same. unfold py_conversation, py_or. simpl.
  by destruct (rating c).
Qed.

Lemma dict_get_lookup (d : list (string * pyobj)) (k : string) (default : pyobj) :
  dict_get d k default = from_option (fun v => v) default (dict_lookup d k).
Proof.
  induction d as [|[k' v] d IH]; [done|]. simpl. by case_decide.
Qed.

(** X7. What [from_dict] makes of the ["messages"] entry of a dict. With
    no such entry the conversation has no messages; a list gives one
    message per element; a dict is iterated over its keys; null, a
    boolean, an integer or a float raises [TypeError]. A string is
    parsed: the value it decodes to is iterated in its place, which
    raises [TypeError] if it is no list, dict or string; text that is no
    JSON ([JSONDecodeError], caught) gives no messages; any other
    exception of the parser is not caught and is raised by [from_dict]. *)
Theorem from_dict_messages_cases (bi : Builtins) (d : list (string * pyobj)) :
  match dict_lookup d "messages" with
  | None =>
      exists pc, Conversation_from_dict bi (PDict d) = Ok pc /\ c_messages pc = []
  | Some PNone | Some (PBool _) | Some (PInt _) | Some (PFloat _) =>
      Conversation_from_dict bi (PDict d) = Err TypeError
  | Some (PList l) =>
      exists pc, Conversation_from_dict bi (PDict d) = Ok pc
                 /\ length (c_messages pc) = length l
  | Some (PDict m) =>
      exists pc, Conversation_from_dict bi (PDict d) = Ok pc
                 /\ c_messages pc = map (fun kv => inr (PStr (fst kv))) m
  | Some (PStr s) =>
      match loads bi s, loads_error bi s with
      | None, None =>
          exists pc, Conversation_from_dict bi (PDict d) = Ok pc /\ c_messages pc = []
      | None, Some e => Conversation_from_dict bi (PDict d) = Err e
      | Some o, _ =>
          match py_iter o with
          | Ok items =>
              exists pc, Conversation_from_dict bi (PDict d) = Ok pc
                         /\ length (c_messages pc) = length items
          | Err e => Conversation_from_dict bi (PDict d) = Err e
          end
      end
  end.
Proof.
  unfold Conversation_from_dict.
  rewrite !(dict_get_lookup d "messages").
  destruct (dict_lookup d "messages") as [[|b|n|x|s|l|m]|]; simpl.
  - done.
  - unfold py_or. by destruct b.
  - unfold py_or. simpl. by case_bool_decide.
  - rewrite py_or_same. done.
  - assert (Hs : py_or (PStr s) (PStr s) = PStr s) by apply py_or_same.
    rewrite Hs. unfold loads_or_empty. destruct (loads bi s) as [o|]; simpl.
    + destruct (py_iter o) as [items|e]; [|done].
      eexists. split; [reflexivity|]. simpl. by rewrite length_map.
    + destruct (loads_error bi s) as [e|]; [done|].
      eexists. split; [reflexivity|]. done.
  - rewrite py_or_same. simpl. eexists. split; [reflexivity|].
    simpl. by rewrite length_map.
  - rewrite py_or_same. simpl. eexists. split; [reflexivity|].
    simpl. by rewrite map_map.
  - eexists. split; [reflexivity|]. done.
Qed.

(** ** The fetcher *)

Lemma save_conversation_requests (self : ConversationFetcher) (env : FetchEnv)
    (c : PyConversation) (w : FetchWorld) :
  f_requests (_save_conversation_to_cache self env c w) = f_requests w.
Proof.
  unfold _save_conversation_to_cache. by destruct (disk_fault env _).
Qed.

Lemma save_all_requests (self : ConversationFetcher) (env : FetchEnv)
    (cs : list PyConversation) (w : FetchWorld) :
  f_requests (fold_left (fun w0 convo => _save_conversation_to_cache self env convo w0)
                        cs w)
  = f_requests w.
Proof.
  revert w. induction cs as [|c cs IH]; intros w; simpl; [done|].
  by rewrite IH, save_conversation_requests.
Qed.

Lemma fetch_loop_bounded (self : ConversationFetcher) (env : FetchEnv)
    (im : bool) (pl : Z) (sb : string) (sd : SortDirection) (max_pages : Z)
    (fuel : nat) (page_num : Z) (token : pyobj) (acc : list PyConversation)
    (w : FetchWorld) :
  (Z.to_nat (max_pages - page_num + 1) < fuel)%nat ->
  exists r pn w',
    fetch_loop fuel self env im pl sb sd max_pages page_num token acc w
    = Some (r, pn, w')
    /\ (length (f_requests w')
        <= length (f_requests w) + Z.to_nat (max_pages - page_num + 1))%nat.
Proof.
  revert page_num token acc w.
  induction fuel as [|fuel IH]; intros page_num token acc w Hfuel; [lia|].
  simpl. case_decide as Hpn.
  - eexists _, _, _. split; [reflexivity|]. simpl. lia.
  - destruct (server env _ _) as [data|e].
    + destruct (read_page (builtins env) data) as [[convs next]|e].
      * destruct (negb (truthy next) || bool_decide (length convs = 0%nat)).
        -- eexists _, _, _. split; [reflexivity|].
           rewrite save_all_requests. simpl. rewrite length_app. simpl. lia.
        -- edestruct (IH (page_num + 1) next (acc ++ convs)) as (r & pn & w' & Hr & Hle);
             [|rewrite Hr; eexists _, _, _; split; [reflexivity|]].
           ++ lia.
           ++ rewrite save_all_requests in Hle. simpl in Hle.
              rewrite length_app in Hle. simpl in Hle. lia.
      * eexists _, _, _. split; [reflexivity|]. simpl. rewrite length_app. simpl. lia.
    + eexists _, _, _. split; [reflexivity|]. simpl. rewrite length_app. simpl. lia.
Qed.

(** X8. [fetch_all] ends for every server, and it has then posted at
    most [max_pages] requests; with [max_pages] below one it posts none,
    touches no file and returns no conversation. *)
Theorem fetch_all_bounded (self : ConversationFetcher) (env : FetchEnv)
    (im : bool) (pl : Z) (sb : string) (sd : SortDirection) (max_pages : Z)
    (w : FetchWorld) :
  exists r w',
    fetch_all self env im pl sb sd max_pages w = Some (r, w')
    /\ (length (f_requests w') <= length (f_requests w) + Z.to_nat max_pages)%nat
    /\ (max_pages < 1 ->
        r = Ok [] /\ f_requests w' = f_requests w /\ f_files w' = f_files w).
Proof.
  unfold fetch_all, FIRST_PAGE.
  destruct (fetch_loop_bounded self env im pl sb sd max_pages
              (S (Z.to_nat max_pages)) 1 PNone [] w) as (r & pn & w' & Hr & Hle).
  { replace (max_pages - 1 + 1) with max_pages by lia. lia. }
  replace (max_pages - 1 + 1) with max_pages in Hle by lia.
  rewrite Hr. destruct r as [convs|e]; eexists _, _; (split; [reflexivity|]);
    (split; [exact Hle|]); intros Hmax; simpl in Hr;
    rewrite decide_True in Hr by lia; by simplify_eq.
Qed.

Lemma fetch_loop_pages (self : ConversationFetcher) (env : FetchEnv)
    (im : bool) (pl : Z) (sb : string) (sd : SortDirection) (max_pages : Z)
    (init : list (list PyConversation * pyobj)) :
  forall (last : list PyConversation * pyobj) (fuel : nat) (page_num : Z)
         (token : pyobj) (acc : list PyConversation) (w : FetchWorld),
  Forall continues init ->
  (~ continues last \/ page_num + Z.of_nat (length init) = max_pages) ->
  page_num + Z.of_nat (length init) <= max_pages ->
  (length init + 1 < fuel)%nat ->
  serves env im pl sb sd (length (f_requests w)) token (init ++ [last]) ->
  exists pn w',
    fetch_loop fuel self env im pl sb sd max_pages page_num token acc w
    = Some (Ok (acc ++ concat (map fst (init ++ [last]))), pn, w')
    /\ length (f_requests w') = (length (f_requests w) + length (init ++ [last]))%nat.
Proof.
  induction init as [|[convs next] init IH];
    intros last fuel page_num token acc w Hinit Hstop Hmax Hfuel Hserves.
  - destruct last as [convs next]. simpl in *.
    destruct Hserves as [(data & Hdata & Hread) _].
    destruct fuel as [|[|fuel]]; [lia..|].
    cbn [fetch_loop]. rewrite decide_False by lia. rewrite Hdata, Hread.
    destruct (negb (truthy next) || bool_decide (length convs = 0%nat)) eqn:Hbreak.
    + eexists _, _. split; [by rewrite app_nil_r|].
      rewrite save_all_requests. simpl. rewrite length_app. simpl. lia.
    + destruct Hstop as [Hstop|Hstop].
      * exfalso. apply Hstop. unfold continues. simpl.
        apply orb_false_iff in Hbreak as [H1 H2].
        apply negb_false_iff in H1. apply bool_decide_eq_false in H2.
        split; [done|]. intros ->. by apply H2.
      * rewrite decide_True by lia.
        eexists _, _. split; [by rewrite app_nil_r|].
        simpl. rewrite save_all_requests. simpl. rewrite length_app. simpl. lia.
  - simpl in *. destruct Hserves as [(data & Hdata & Hread) Hserves].
    apply Forall_cons in Hinit as [[Htok Hne] Hinit]. simpl in Htok, Hne.
    destruct fuel as [|fuel]; [lia|].
    cbn [fetch_loop]. rewrite decide_False by lia. rewrite Hdata, Hread, Htok.
    rewrite bool_decide_false by (by destruct convs). simpl.
    match goal with
    | |- context [fetch_loop fuel _ _ _ _ _ _ _ _ _ _ ?w2] =>
        destruct (IH last fuel (page_num + 1) next (acc ++ convs) w2)
          as (pn & w' & Hr & Hlen); [exact Hinit| | | | |]
    end.
    + destruct Hstop as [?|?]; [by left|right; lia].
    + lia.
    + lia.
    + rewrite save_all_requests. simpl. rewrite length_app. simpl.
      replace (length (f_requests w) + 1)%nat with (S (length (f_requests w))) by lia.
      exact Hserves.
    + rewrite Hr. eexists _, _. split; [by rewrite <- app_assoc|].
      rewrite Hlen, save_all_requests. simpl. rewrite !length_app. simpl. lia.
Qed.

(** X9. When the server hands out a run of pages, each request carrying
    the token of the page before and the first carrying none, [fetch_all]
    goes on as long as a page names a next page and is not empty, and
    stops at the first page that does not, or at page [max_pages]. It
    returns the conversations of the pages it read, in order, and has
    posted one request per page. *)
Theorem fetch_all_pages (self : ConversationFetcher) (env : FetchEnv)
    (im : bool) (pl : Z) (sb : string) (sd : SortDirection) (max_pages : Z)
    (init : list (list PyConversation * pyobj))
    (last : list PyConversation * pyobj) (w : FetchWorld) :
  Forall continues init ->
  (~ continues last \/ Z.of_nat (length init) + 1 = max_pages) ->
  Z.of_nat (length init) + 1 <= max_pages ->
  serves env im pl sb sd (length (f_requests w)) PNone (init ++ [last]) ->
  exists w',
    fetch_all self env im pl sb sd max_pages w
    = Some (Ok (concat (map fst (init ++ [last]))), w')
    /\ length (f_requests w') = (length (f_requests w) + length init + 1)%nat.
Proof.
  intros Hinit Hstop Hmax Hserves. unfold fetch_all, FIRST_PAGE.
  destruct (fetch_loop_pages self env im pl sb sd max_pages init last
              (S (Z.to_nat max_pages)) 1 PNone [] w) as (pn & w' & Hr & Hlen);
    try done; try lia.
  { destruct Hstop as [?|?]; [by left|right; lia]. }
  rewrite Hr. eexists. split; [reflexivity|].
  simpl. rewrite Hlen, length_app. simpl. lia.
Qed.

(** X10. A conversation saved to the fetcher's cache and loaded back is
    the same conversation, when its status is not the empty string, the
    write meets no fault and the JSON codec reads back what it wrote for
    this record. *)
Theorem cache_round_trip (self : ConversationFetcher) (env : FetchEnv)
    (c : Conversation) (w : FetchWorld) :
  status c <> Some EMPTY_STRING ->
  disk_fault env (conversation_file self (id c)) = NoFault ->
  loads (builtins env) (dumps (builtins env) (Conversation_to_dict c))
  = Some (Conversation_to_dict c) ->
  fst (_load_conversation_from_cache self env (id c)
         (_save_conversation_to_cache self env (py_conversation c) w))
  = Some (py_conversation c).
Proof.
  intros Hstatus Hfault Hcodec.
  unfold _save_conversation_to_cache, _load_conversation_from_cache. simpl.
  rewrite Hfault. simpl. rewrite lookup_insert_eq.
  fold (Conversation_to_dict c). rewrite Hcodec, from_dict_to_dict_eq.
  simpl. f_equal. f_equal. by apply drop_empty_status_id.
Qed.

(** ** The stable ascending sort *)

Section sort_by_facts.
Context {A : Type} (le : A -> A -> bool).
Hypothesis le_total : forall x y, le x y = true \/ le y x = true.
Hypothesis le_trans : forall x y z, le x y = true -> le y z = true -> le x z = true.

Lemma insert_by_Permutation (x : A) (l : list A) : insert_by le x l ≡ₚ x :: l.
Proof.
  induction l as [|y l IH]; simpl; [done|].
  destruct (le x y); [done|]. rewrite IH. apply perm_swap.
Qed.

Lemma sort_by_Permutation (l : list A) : sort_by le l ≡ₚ l.
Proof.
  induction l as [|x l IH]; simpl; [done|].
  rewrite insert_by_Permutation. by rewrite IH.
Qed.

Lemma insert_by_sorted (x : A) (l : list A) :
  StronglySorted (fun a b => le a b = true) l ->
  StronglySorted (fun a b => le a b = true) (insert_by le x l).
Proof.
  induction 1 as [|y l Hs IH Hall]; simpl.
  - repeat constructor.
  - destruct (le x y) eqn:Hxy.
    + constructor; [by constructor|]. constructor; [done|].
      eapply Forall_impl; [exact Hall|]. intros z Hz. by eapply le_trans.
    + constructor; [exact IH|].
      rewrite insert_by_Permutation. constructor; [|exact Hall].
      destruct (le_total x y) as [H|H]; [congruence|done].
Qed.

Lemma sort_by_sorted (l : list A) :
  StronglySorted (fun a b => le a b = true) (sort_by le l).
Proof.
  induction l as [|x l IH]; simpl; [constructor|]. by apply insert_by_sorted.
Qed.

Lemma sorted_by_lookup (l : list A) (i j : nat) (x y : A) :
  StronglySorted (fun a b => le a b = true) l ->
  (i < j)%nat -> l !! i = Some x -> l !! j = Some y -> le x y = true.
Proof.
  intros Hs. revert i j.
  induction Hs as [|z l Hs IH Hall]; intros i j Hij Hi Hj; [done|].
  destruct j as [|j]; [lia|]. simpl in Hj.
  destruct i as [|i]; simpl in Hi.
  - injection Hi as ->. rewrite Forall_forall in Hall. apply Hall.
    by eapply list_elem_of_lookup_2.
  - apply (IH i j); [lia|done..].
Qed.

End sort_by_facts.

(** ** Triage *)

Lemma triage_le_total (x y : ConversationTriage) :
  triage_le x y = true \/ triage_le y x = true.
Proof.
  unfold triage_le.
  destruct (Z.lt_trichotomy (priority_order (t_priority x))
                            (priority_order (t_priority y))) as [H|[H|H]].
  - left. by rewrite bool_decide_true.
  - destruct (Z.le_ge_cases (t_overall_score x) (t_overall_score y)).
    + left. rewrite (bool_decide_true (_ = _)), (bool_decide_true (_ <= _)) by done.
      apply orb_true_r.
    + right. rewrite (bool_decide_true (_ = _)), (bool_decide_true (_ <= _)) by done.
      apply orb_true_r.
  - right. by rewrite bool_decide_true.
Qed.

Lemma triage_le_spec (x y : ConversationTriage) :
  triage_le x y = true <->
  priority_order (t_priority x) < priority_order (t_priority y)
  \/ (priority_order (t_priority x) = priority_order (t_priority y)
      /\ t_overall_score x <= t_overall_score y).
Proof.
  unfold triage_le.
  rewrite orb_true_iff, andb_true_iff, !bool_decide_eq_true. done.
Qed.

Lemma triage_le_trans (x y z : ConversationTriage) :
  triage_le x y = true -> triage_le y z = true -> triage_le x z = true.
Proof. rewrite !triage_le_spec. lia. Qed.

(** X11. [triage_conversations] returns one entry per loaded analysis,
    the entries the ladder gives, reordered: an entry never stands after
    one of a less urgent priority (fix_now, high, medium, low), and
    within one priority never after one of a higher score. *)
Theorem triage_conversations_sorted (th : Thresholds) (convs : list AnalysisDoc) :
  triage_conversations th convs ≡ₚ map (triage_one th) convs
  /\ forall (i j : nat) (x y : ConversationTriage),
       (i < j)%nat ->
       triage_conversations th convs !! i = Some x ->
       triage_conversations th convs !! j = Some y ->
       priority_order (t_priority x) <= priority_order (t_priority y)
       /\ (t_priority x = t_priority y -> t_overall_score x <= t_overall_score y).
Proof.
  unfold triage_conversations. split; [apply sort_by_Permutation|].
  intros i j x y Hij Hx Hy.
  pose proof (sorted_by_lookup triage_le _ i j x y
                (sort_by_sorted triage_le triage_le_total triage_le_trans _)
                Hij Hx Hy) as Hle.
  apply triage_le_spec in Hle. split; [lia|].
  intros Heq. rewrite Heq in Hle. lia.
Qed.

Lemma high_escalation_or_dead_end_spec (flags : list (list (string * pyobj))) :
  high_escalation_or_dead_end flags = true <->
  exists f, f ∈ flags /\ dict_get f "severity" PNone = PStr "high"
            /\ (dict_get f "type" PNone = PStr "MISSED_ESCALATION"
                \/ dict_get f "type" PNone = PStr "DEAD_END").
Proof.
  unfold high_escalation_or_dead_end, flag_severity, flag_type.
  rewrite existsb_exists. split.
  - intros (f & Hin & H). exists f. split; [by apply list_elem_of_In|].
    apply andb_true_iff in H as [H1 H2]. simpl in H2.
    unfold eq_str in *.
    destruct (dict_get f "severity" PNone); try done.
    apply bool_decide_eq_true in H1 as ->. split; [done|].
    destruct (dict_get f "type" PNone); try done.
    rewrite orb_false_r in H2. apply orb_true_iff in H2 as [H2|H2];
      apply bool_decide_eq_true in H2 as ->; auto.
  - intros (f & Hin & H1 & H2). exists f. split; [by apply list_elem_of_In|].
    unfold eq_str. rewrite H1. simpl. by destruct H2 as [-> | ->].
Qed.

Lemma any_dead_end_spec (flags : list (list (string * pyobj))) :
  any_dead_end flags = true <->
  exists f, f ∈ flags /\ dict_get f "type" PNone = PStr "DEAD_END".
Proof.
  unfold any_dead_end, flag_type. rewrite existsb_exists. split.
  - intros (f & Hin & H). exists f. split; [by apply list_elem_of_In|].
    unfold eq_str in H. destruct (dict_get f "type" PNone); try done.
    by apply bool_decide_eq_true in H as ->.
  - intros (f & Hin & H). exists f. split; [by apply list_elem_of_In|].
    unfold eq_str. by rewrite H.
Qed.

Lemma high_wrong_answer_spec (flags : list (list (string * pyobj))) :
  high_wrong_answer flags = true <->
  exists f, f ∈ flags /\ dict_get f "severity" PNone = PStr "high"
            /\ dict_get f "type" PNone = PStr "OBVIOUS_WRONG_ANSWER".
Proof.
  unfold high_wrong_answer, flag_severity, flag_type. rewrite existsb_exists. split.
  - intros (f & Hin & H). exists f. split; [by apply list_elem_of_In|].
    apply andb_true_iff in H as [H1 H2]. unfold eq_str in *.
    destruct (dict_get f "severity" PNone); try done.
    apply bool_decide_eq_true in H1 as ->.
    destruct (dict_get f "type" PNone); try done.
    by apply bool_decide_eq_true in H2 as ->.
  - intros (f & Hin & H1 & H2). exists f. split; [by apply list_elem_of_In|].
    unfold eq_str. by rewrite H1, H2.
Qed.

Lemma triage_priority_eq (th : Thresholds) (d : AnalysisDoc) :
  t_priority (triage_one th d)
  = let flags := default [] (doc_flags d) in
    if high_escalation_or_dead_end flags then fix_now
    else if decide (default 0 (doc_cycles_without_progress d) >= loops_fix_now th)
    then fix_now
    else if negb (default false (doc_has_clear_next_step d)) && any_dead_end flags
    then fix_now
    else if high_wrong_answer flags then fix_now
    else if default false (doc_prize_candidate d) then high
    else if decide (default 100 (doc_overall_score d) < score_low th) then high
    else if decide (default 100 (doc_overall_score d) < score_high th) then medium
    else low.
Proof.
  unfold triage_one. cbv zeta.
  repeat (match goal with
          | |- context [if ?b then _ else _] => destruct b; simpl; try reflexivity
          end).
Qed.

(** X12. The triage ladder, read as conditions. An analysis is fix_now
    exactly when it has a high-severity MISSED_ESCALATION or DEAD_END
    flag, or at least [loops_fix_now] cycles without progress, or a
    DEAD_END flag with no clear next step, or a high-severity
    OBVIOUS_WRONG_ANSWER flag; the score and the verdict play no part in
    that. A prize candidate is never triaged below high. Medium and low
    are reached through the score alone: medium needs a score from
    [score_low] up to below [score_high], low a score of at least
    [score_high], and neither is a prize candidate. *)
Theorem triage_ladder (th : Thresholds) (d : AnalysisDoc) :
  let flags := default [] (doc_flags d) in
  let score := default 100 (doc_overall_score d) in
  let prize := default false (doc_prize_candidate d) in
  let p := t_priority (triage_one th d) in
  (p = fix_now <->
     (exists f, f ∈ flags /\ dict_get f "severity" PNone = PStr "high"
                /\ (dict_get f "type" PNone = PStr "MISSED_ESCALATION"
                    \/ dict_get f "type" PNone = PStr "DEAD_END"))
     \/ default 0 (doc_cycles_without_progress d) >= loops_fix_now th
     \/ (default false (doc_has_clear_next_step d) = false
         /\ exists f, f ∈ flags /\ dict_get f "type" PNone = PStr "DEAD_END")
     \/ (exists f, f ∈ flags /\ dict_get f "severity" PNone = PStr "high"
                   /\ dict_get f "type" PNone = PStr "OBVIOUS_WRONG_ANSWER"))
  /\ (prize = true -> p = fix_now \/ p = high)
  /\ (p = medium -> score_low th <= score < score_high th /\ prize = false)
  /\ (p = low -> score_high th <= score /\ score_low th <= score /\ prize = false).
Proof.
  cbv zeta. rewrite triage_priority_eq. cbv zeta.
  rewrite <- high_escalation_or_dead_end_spec, <- any_dead_end_spec,
    <- high_wrong_answer_spec.
  destruct (high_escalation_or_dead_end (default [] (doc_flags d)));
    [repeat split; auto; intros; discriminate|].
  destruct (decide (default 0 (doc_cycles_without_progress d) >= loops_fix_now th))
    as [H2|H2]; [repeat split; auto; intros; discriminate|].
  destruct (default false (doc_has_clear_next_step d));
    destruct (any_dead_end (default [] (doc_flags d))); simpl;
    try (repeat split; auto; intros; discriminate);
    (destruct (high_wrong_answer (default [] (doc_flags d)));
       [repeat split; auto; intros; discriminate|]);
    (destruct (default false (doc_prize_candidate d));
       [split; [split; [discriminate|];
                intros [?|[?|[[? ?]|?]]]; first [discriminate | lia | done]|];
        repeat split; auto; intros; discriminate|]);
    destruct (decide (default 100 (doc_overall_score d) < score_low th));
    try destruct (decide (default 100 (doc_overall_score d) < score_high th));
    (split; [split; [discriminate|];
             intros [?|[?|[[? ?]|?]]]; first [discriminate | lia | done]|]);
    repeat split; auto; intros; first [discriminate | lia].
Qed.

(** X13. A judgment file without an ["overall_score"] is triaged as
    urgent once it went through [_validate_conversation]: validation
    gives it the score 0, which lies below every positive [score_low], so
    its priority is fix_now or high and never medium or low. The default
    of 100 that [triage_conversations] itself would use applies only to
    data that was not validated. *)
Theorem missing_score_is_urgent (th : Thresholds) (d : AnalysisDoc) :
  doc_overall_score d = None ->
  0 < score_low th ->
  let t := triage_one th (fst (_validate_conversation d)) in
  t_overall_score t = 0
  /\ (t_priority t = fix_now \/ t_priority t = high)
  /\ t_overall_score (triage_one th d) = 100.
Proof.
  intros Hnone Hlow. cbv zeta. unfold triage_one, _validate_conversation. simpl.
  rewrite Hnone. simpl.
  repeat (match goal with
          | |- context [if ?b then _ else _] => destruct b; simpl
          end); auto; lia.
Qed.


(** ** More on the AI analyzer *)

Lemma cached_issues_fs (az : AIConversationAnalyzer) (env : Env)
    (c : Conversation) (w w' : World) (o : outcome (option (list ConversationIssue))) :
  cached_issues az env c w = (o, w') -> fs w' = fs w.
Proof.
  rewrite cached_issues_eq. destruct (no_cache az); [by intros [= _ <-]|].
  destruct (fs w !! cache_file az (id c)) as [text|].
  - destruct (json_load env text); by intros [= _ <-].
  - destruct (unresolvable env (cache_file az (id c))); by intros [= _ <-].
Qed.

Lemma cached_issues_hit (az : AIConversationAnalyzer) (env : Env)
    (c : Conversation) (w w' : World) (issues : list ConversationIssue) :
  cached_issues az env c w = (Returned (Some issues), w') ->
  exists r, issues = _result_to_issues c r.
Proof.
  rewrite cached_issues_eq. destruct (no_cache az); [done|].
  destruct (fs w !! cache_file az (id c)) as [text|];
    [|by destruct (unresolvable env _)].
  destruct (json_load env text) as [r|e]; [|done].
  intros [= <- _]. by exists r.
Qed.

Lemma in_slot_returns (az : AIConversationAnalyzer) (env : Env) (c : Conversation)
    (response : outcome ConversationAnalysisResult) (w : World) :
  exists issues w',
    in_slot az env c (fun w0 => (response, w0)) w = (Returned issues, w')
    /\ (issues = [] \/ exists r, issues = _result_to_issues c r).
Proof.
  rewrite in_slot_eq. destruct response as [r|e]; eexists _, _;
    (split; [reflexivity|]); eauto.
Qed.

Lemma step_task_from_batch (az : AIConversationAnalyzer) (env : Env)
    (convs : list Conversation) (i : nat) (p p' : Pool) :
  step_task az env convs i p = Some p' ->
  Forall (from_batch convs) (results p) -> Forall (from_batch convs) (results p').
Proof.
  unfold step_task. intros Hstep Hres.
  destruct (convs !! i) as [c|] eqn:Hc; [|done].
  assert (Hin : c ∈ convs) by by eapply list_elem_of_lookup_2.
  destruct (tasks p !! i) as [[n|n|n response|n response|issues|e]|] eqn:Hi;
    try done.
  - destruct (cached_issues az env c (world p)) as [[[issues|]|e] w] eqn:Hcache.
    + injection Hstep as <-. simpl. apply Forall_app. split; [done|].
      constructor; [|done].
      destruct (cached_issues_hit _ _ _ _ _ _ Hcache) as [r ->]. right. eauto.
    + case_decide; injection Hstep as <-; by rewrite ?acquire_results.
    + injection Hstep as <-. by rewrite on_raise_results.
  - case_decide; [|done]. injection Hstep as <-. by rewrite acquire_results.
  - by injection Hstep as <-.
  - destruct (in_slot_returns az env c response (world p)) as (issues & w & Hs & Hiss).
    rewrite Hs in Hstep. injection Hstep as <-. simpl.
    apply Forall_app. split; [done|]. constructor; [|done].
    destruct Hiss as [->|[r ->]]; [by left|right; eauto].
Qed.

Lemma run_schedule_from_batch (az : AIConversationAnalyzer) (env : Env)
    (convs : list Conversation) (schedule : list nat) (p p' : Pool) :
  run_schedule az env convs schedule p = Some p' ->
  Forall (from_batch convs) (results p) -> Forall (from_batch convs) (results p').
Proof.
  revert p. induction schedule as [|i schedule IH]; intros p Hrun Hp; simpl in Hrun.
  - by injection Hrun as <-.
  - destruct (step_task az env convs i p) as [p1|] eqn:Hstep; [|done].
    eapply IH; [exact Hrun|]. by eapply step_task_from_batch.
Qed.

Lemma from_batch_flags (convs : list Conversation)
    (results : list (list ConversationIssue)) (x : ConversationIssue) :
  Forall (from_batch convs) results -> x ∈ concat results ->
  exists c r flag, c ∈ convs /\ flag ∈ flags r /\ x = flag_to_issue c r flag.
Proof.
  intros Hall Hx.
  apply list_elem_of_In, in_concat in Hx as (issues & H1 & H2).
  apply list_elem_of_In in H1, H2.
  rewrite Forall_forall in Hall.
  destruct (Hall issues H1) as [-> | (c & r & Hc & ->)];
    [by apply elem_of_nil in H2|].
  rewrite result_to_issues_map in H2.
  apply list_elem_of_fmap in H2 as (flag & -> & Hflag). eauto 6.
Qed.

Lemma flag_to_issue_category (c : Conversation) (r : ConversationAnalysisResult)
    (flag : IssueFlag) :
  category_of (issue_type (flag_to_issue c r flag)) = category_of_flag (type flag).
Proof. unfold flag_to_issue. simpl. by destruct (type flag). Qed.

Lemma sorted_category_flags (convs : list Conversation)
    (results : list (list ConversationIssue)) (cat : Category)
    (x : ConversationIssue) :
  Forall (from_batch convs) results -> x ∈ sorted_category cat results ->
  exists c r flag,
    c ∈ convs /\ flag ∈ flags r /\ category_of_flag (type flag) = cat
    /\ x = flag_to_issue c r flag.
Proof.
  unfold sorted_category. intros Hall Hx.
  rewrite sort_reverse_Permutation in Hx.
  apply list_elem_of_filter in Hx as [Hcat Hx].
  destruct (from_batch_flags convs results x Hall Hx) as (c & r & flag & Hc & Hf & ->).
  exists c, r, flag. repeat split; try done.
  unfold in_category in Hcat. by rewrite flag_to_issue_category in Hcat.
Qed.

(** X16. Every issue of the analysis [analyze_async] returns was
    projected from a flag of a judgment for a conversation of the batch,
    and stands in the category of that flag's type. The [unhelpful]
    bucket, which takes the issues of any other type, therefore stays
    empty, as do [too_many_turns] and [negative_rating], which the AI
    analyzer never fills. *)
Theorem analyze_async_categories_from_flags (az : AIConversationAnalyzer) (env : Env)
    (convs : list Conversation) (schedule : list nat) (w w' : World)
    (qa : QualityAnalysis) :
  analyze_async az env convs schedule w = Some (Returned qa, w') ->
  unhelpful qa = [] /\ too_many_turns qa = [] /\ negative_rating qa = []
  /\ forall t x, x ∈ category_for t qa ->
       exists c r flag,
         c ∈ convs /\ flag ∈ flags r /\ type flag = t
         /\ x = flag_to_issue c r flag.
Proof.
  unfold analyze_async. intros Hrun.
  destruct (run_schedule az env convs schedule _) as [p|] eqn:Hp; [|done].
  assert (Hres : Forall (from_batch convs) (results p)).
  { eapply run_schedule_from_batch; [exact Hp|]. constructor. }
  destruct (existsb is_failed (tasks p)); [done|].
  destruct (forallb is_finished (tasks p)); [|done].
  injection Hrun as <- _.
  pose proof (aggregate_categories_eq (length convs) (results p)) as Hcat.
  unfold categories in Hcat.
  pose proof (f_equal (fun l => l !! 0%nat) Hcat) as Hrep.
  pose proof (f_equal (fun l => l !! 1%nat) Hcat) as Hunh.
  pose proof (f_equal (fun l => l !! 3%nat) Hcat) as Hde.
  pose proof (f_equal (fun l => l !! 5%nat) Hcat) as Howa.
  pose proof (f_equal (fun l => l !! 6%nat) Hcat) as Hme.
  pose proof (f_equal (fun l => l !! 7%nat) Hcat) as Hdq.
  pose proof (f_equal (fun l => l !! 8%nat) Hcat) as Hloe.
  cbn [lookup list_lookup] in Hrep, Hunh, Hde, Howa, Hme, Hdq, Hloe.
  injection Hrep as Hrep. injection Hunh as Hunh. injection Hde as Hde.
  injection Howa as Howa. injection Hme as Hme. injection Hdq as Hdq.
  injection Hloe as Hloe. clear Hcat.
  set (qa := analyze_async_aggregate (length convs) (results p)).
  assert (Hu : unhelpful qa = sorted_category CatUnhelpful (results p))
    by exact Hunh.
  assert (Hall : forall t, category_for t qa
                           = sorted_category (category_of_flag t) (results p)).
  { intros []; simpl;
      first [exact Howa | exact Hme | exact Hdq | exact Hrep | exact Hloe | exact Hde]. }
  split; [|split; [done|split; [done|]]].
  - rewrite Hu.
    destruct (sorted_category CatUnhelpful (results p)) as [|x l] eqn:Hl; [done|].
    destruct (sorted_category_flags convs (results p) CatUnhelpful x Hres)
      as (c & r & flag & _ & _ & Hty & _).
    + rewrite Hl. apply list_elem_of_here.
    + by destruct (type flag).
  - intros t x Hx. rewrite Hall in Hx.
    destruct (sorted_category_flags convs (results p) _ x Hres Hx)
      as (c & r & flag & Hc & Hf & Hty & ->).
    exists c, r, flag. repeat split; try done.
    by destruct (type flag), t.
Qed.

Lemma analyze_async_categories_from_flags_witness :
  exists qa w',
    analyze_async (sample_analyzer 1 false) answering_env
      [sample_conversation "c1"] [0; 0; 0]%nat empty_world
    = Some (Returned qa, w')
    /\ unhelpful qa = []
    /\ forall t x, x ∈ category_for t qa ->
         exists c r flag,
           c ∈ [sample_conversation "c1"] /\ flag ∈ flags r /\ type flag = t
           /\ x = flag_to_issue c r flag.
Proof.
  eexists _, _. split; [vm_compute; reflexivity|].
  match goal with
  | |- unhelpful ?qa = [] /\ _ =>
      destruct (analyze_async_categories_from_flags
                  (sample_analyzer 1 false) answering_env
                  [sample_conversation "c1"] [0; 0; 0]%nat empty_world
                  _ qa ltac:(vm_compute; reflexivity))
        as (H1 & _ & _ & H2)
  end.
  split; [exact H1 | exact H2].
Defined.

(** ** One conversation, run twice; the files a run touches *)

(** X17. With caching enabled, a clean disk and a codec that reads back
    what it wrote, the first run on a conversation without a cache file
    asks the Judge and stores the judgment, and a second run returns the
    same issues from the file: it neither asks the Judge again nor
    touches a file. *)
Theorem second_run_hits_cache (az : AIConversationAnalyzer) (env : Env)
    (c : Conversation) (w : World) (r : ConversationAnalysisResult) :
  no_cache az = false ->
  fs w !! cache_file az (id c) = None ->
  judge env c (calls_so_far (id c) w) = Returned r ->
  write_fault env (cache_file az (id c)) = NoFault ->
  json_load env (json_dump env r) = Returned r ->
  exists w1 w2,
    _analyze_single_conversation az env c w
    = (Returned (_result_to_issues c r), w1)
    /\ _analyze_single_conversation az env c w1
       = (Returned (_result_to_issues c r), w2)
    /\ judge_calls w1 = judge_calls w ++ [id c]
    /\ judge_calls w2 = judge_calls w1
    /\ fs w2 = fs w1.
Proof.
  intros Hnc Hmiss Hj Hfault Hcodec.
  eexists _, _. split; [|split].
  - assert (Hres : unresolvable env (cache_file az (id c)) = None)
      by (unfold unresolvable; by rewrite Hfault).
    rewrite analyze_single_conversation_is_body by by apply cache_check_resolves.
    rewrite analyze_single_body_eq, cached_issues_eq, Hnc, Hmiss, Hres,
      in_slot_eq, call_judge_eq.
    change (calls_so_far (id c) (logged _ (logged _ w))) with (calls_so_far (id c) w).
    rewrite Hj. reflexivity.
  - rewrite analyze_single_conversation_is_body.
    + rewrite analyze_single_body_eq, cached_issues_eq, Hnc, saved_eq, Hfault.
      simpl. rewrite lookup_insert_eq, Hcodec. reflexivity.
    + eapply cache_check_file. rewrite saved_eq, Hfault. simpl.
      apply lookup_insert_eq.
  - rewrite saved_eq, Hfault. simpl. done.
Qed.

Lemma second_run_hits_cache_witness :
  exists w1 w2,
    _analyze_single_conversation (sample_analyzer 2 false) answering_env
      (sample_conversation "c1") empty_world
    = (Returned (_result_to_issues (sample_conversation "c1") judgment_a), w1)
    /\ _analyze_single_conversation (sample_analyzer 2 false) answering_env
         (sample_conversation "c1") w1
       = (Returned (_result_to_issues (sample_conversation "c1") judgment_a), w2)
    /\ judge_calls w2 = ["c1"].
Proof.
  destruct (second_run_hits_cache (sample_analyzer 2 false) answering_env
              (sample_conversation "c1") empty_world judgment_a)
    as (w1 & w2 & H1 & H2 & H3 & H4 & _);
    [reflexivity | reflexivity | reflexivity | reflexivity | reflexivity |].
  exists w1, w2. split; [exact H1|]. split; [exact H2|].
  rewrite H4, H3. reflexivity.
Defined.


(** X18. What a run of the per-conversation method can touch. It can
    change one file only, the cache file of its own conversation, and it
    changes no file when it makes no Judge call or when the Judge
    raises. When the cache check completes, the run returns and never
    sleeps. When the check raises, which it does at a path the system
    cannot resolve, the run ends in [RetryError] after sleeping 2, 2 and
    4 seconds, with no Judge call, no file changed and nothing logged. *)
Theorem analyze_single_touches_own_file (az : AIConversationAnalyzer) (env : Env)
    (c : Conversation) (w : World) :
  exists r w',
    _analyze_single_conversation az env c w = (r, w')
    /\ (forall path, path <> cache_file az (id c) -> fs w' !! path = fs w !! path)
    /\ (judge_calls w' = judge_calls w -> fs w' = fs w)
    /\ (forall e, judge env c (calls_so_far (id c) w) = Raised e -> fs w' = fs w)
    /\ match cache_check az env c w with
       | None => (exists issues, r = Returned issues) /\ sleeps w' = sleeps w
       | Some _ =>
           r = Raised RetryError
           /\ sleeps w' = sleeps w ++ [2; 2; 4]
           /\ judge_calls w' = judge_calls w /\ fs w' = fs w /\ log w' = log w
       end.
Proof.
  destruct (cache_check az env c w) as [e|] eqn:Hcheck.
  { rewrite (analyze_single_conversation_raises az env c w e Hcheck).
    eexists _, _. split; [reflexivity|]. simpl. by repeat split. }
  rewrite analyze_single_conversation_is_body by done.
  rewrite analyze_single_body_eq.
  destruct (cached_issues_completes az env c w Hcheck)
    as (o & w1 & -> & Hfs & Hcalls & Hsl & _).
  destruct o as [issues|].
  { eexists _, _. split; [reflexivity|]. rewrite Hfs, Hsl.
    repeat split; eauto. }
  rewrite in_slot_eq, call_judge_eq.
  change (calls_so_far (id c) (logged _ (logged _ w1)))
    with (calls_so_far (id c) w1).
  assert (Hn : calls_so_far (id c) w1 = calls_so_far (id c) w)
    by (unfold calls_so_far; by rewrite Hcalls).
  rewrite Hn.
  destruct (judge env c (calls_so_far (id c) w)) as [r|e]; eexists _, _;
    (split; [reflexivity|]).
  - split; [intros path Hne; rewrite saved_other_files by done; simpl;
            by rewrite Hfs|].
    split; [|split; [done|]].
    + rewrite saved_judge_calls. simpl. rewrite Hcalls. intros Heq.
      apply (f_equal length) in Heq. rewrite length_app in Heq. simpl in Heq. lia.
    + rewrite saved_sleeps. simpl. eauto.
  - simpl. split; [intros path _; by rewrite Hfs|].
    split; [done|]. split; [done|]. eauto.
Qed.

(** ** When [analyze_async] raises *)

Lemma checks_complete_check (az : AIConversationAnalyzer) (env : Env)
    (convs : list Conversation) (c : Conversation) (w : World) :
  checks_complete az env convs -> c ∈ convs -> cache_check az env c w = None.
Proof.
  intros [Hnc|Hres] Hin; [by apply cache_check_no_cache|].
  apply cache_check_resolves. by apply Hres.
Qed.

Lemma acquire_tasks (env : Env) (c : Conversation) (i n : nat) (w : World) (p : Pool) :
  exists response,
    tasks (acquire env c i n w p) = <[i := InFlight n response]> (tasks p).
Proof. unfold acquire. destruct (call_judge env c _) as [response w2]. by eexists. Qed.

Lemma on_raise_tasks (i n : nat) (w : World) (slots : nat) (p : Pool) :
  exists ph, tasks (on_raise i n w slots p) = <[i := ph]> (tasks p)
             /\ before_judge ph = true.
Proof. unfold on_raise. case_decide; by eexists. Qed.

(** A turn of the event loop moves the task it resumes and no other. *)
Lemma step_task_tasks (az : AIConversationAnalyzer) (env : Env)
    (convs : list Conversation) (i : nat) (p p' : Pool) :
  step_task az env convs i p = Some p' ->
  exists c old new,
    convs !! i = Some c /\ tasks p !! i = Some old
    /\ tasks p' = <[i := new]> (tasks p).
Proof.
  unfold step_task. intros Hstep.
  destruct (convs !! i) as [c|] eqn:Hc; [|done].
  destruct (tasks p !! i) as [old|] eqn:Hi; [|done].
  exists c, old.
  assert (exists new, tasks p' = <[i := new]> (tasks p)) as [new Hnew];
    [|by exists new].
  destruct old as [n|n|n response|n response|issues|e]; try done.
  - destruct (cached_issues az env c (world p)) as [[[issues|]|e] w].
    + injection Hstep as <-. by eexists.
    + case_decide; injection Hstep as <-; [|by eexists].
      destruct (acquire_tasks env c i n
                  (snd (logger (StartingApiCall (id c)) w)) p) as [r Hr]. eauto.
    + injection Hstep as <-.
      destruct (on_raise_tasks i n w (sem_value p) p) as (ph & Hph & _). eauto.
  - case_decide; [|done]. injection Hstep as <-.
    destruct (acquire_tasks env c i n (world p) p) as [r Hr]. eauto.
  - injection Hstep as <-. by eexists.
  - destruct (in_slot az env c _ (world p)) as [[issues|e] w];
      injection Hstep as <-; [by eexists|].
    destruct (on_raise_tasks i n w (S (sem_value p)) p) as (ph & Hph & _). eauto.
Qed.

Lemma run_schedule_length (az : AIConversationAnalyzer) (env : Env)
    (convs : list Conversation) (schedule : list nat) (p p' : Pool) :
  run_schedule az env convs schedule p = Some p' ->
  length (tasks p') = length (tasks p).
Proof.
  revert p. induction schedule as [|i schedule IH]; intros p Hrun; simpl in Hrun.
  - by injection Hrun as <-.
  - destruct (step_task az env convs i p) as [p1|] eqn:Hstep; [|done].
    destruct (step_task_tasks _ _ _ _ _ _ Hstep) as (c & old & new & _ & _ & Ht).
    rewrite (IH p1 Hrun), Ht. apply length_insert.
Qed.

Lemma step_task_none_failed (az : AIConversationAnalyzer) (env : Env)
    (convs : list Conversation) (i : nat) (p p' : Pool) :
  checks_complete az env convs ->
  step_task az env convs i p = Some p' ->
  none_failed p -> none_failed p'.
Proof.
  unfold step_task, none_failed. intros Hchk Hstep Hnf.
  destruct (convs !! i) as [c|] eqn:Hc; [|done].
  assert (Hin : c ∈ convs) by by eapply list_elem_of_lookup_2.
  destruct (tasks p !! i) as [[n|n|n response|n response|issues|e]|] eqn:Hi;
    try done.
  - destruct (cached_issues_completes az env c (world p)
                (checks_complete_check az env convs c _ Hchk Hin))
      as (o & w & Hcache & _).
    rewrite Hcache in Hstep. destruct o as [issues|].
    + injection Hstep as <-. simpl. by apply Forall_insert.
    + case_decide; injection Hstep as <-.
      * match goal with
        | |- context [acquire ?e0 ?c0 ?i0 ?n0 ?w0 ?p0] =>
            destruct (acquire_tasks e0 c0 i0 n0 w0 p0) as [r ->]
        end.
        by apply Forall_insert.
      * simpl. by apply Forall_insert.
  - case_decide; [|done]. injection Hstep as <-.
    destruct (acquire_tasks env c i n (world p) p) as [r ->].
    by apply Forall_insert.
  - injection Hstep as <-. simpl. by apply Forall_insert.
  - destruct (in_slot_returns az env c response (world p)) as (issues & w & Hs & _).
    rewrite Hs in Hstep. injection Hstep as <-. simpl. by apply Forall_insert.
Qed.

Lemma run_schedule_none_failed (az : AIConversationAnalyzer) (env : Env)
    (convs : list Conversation) (schedule : list nat) (p p' : Pool) :
  checks_complete az env convs ->
  run_schedule az env convs schedule p = Some p' ->
  none_failed p -> none_failed p'.
Proof.
  intros Hchk. revert p.
  induction schedule as [|i schedule IH]; intros p Hrun Hp; simpl in Hrun.
  - by injection Hrun as <-.
  - destruct (step_task az env convs i p) as [p1|] eqn:Hstep; [|done].
    eapply IH; [exact Hrun|]. by eapply step_task_none_failed.
Qed.

Lemma init_pool_none_failed (az : AIConversationAnalyzer)
    (convs : list Conversation) (w : World) :
  none_failed (init_pool az convs w).
Proof.
  unfold none_failed, init_pool. simpl.
  apply Forall_forall. intros ph Hph.
  apply list_elem_of_In, in_map_iff in Hph as (c & <- & _). done.
Qed.

Lemma none_failed_existsb (l : list Phase) :
  Forall (fun ph => is_failed ph = false) l -> existsb is_failed l = false.
Proof.
  induction 1 as [|ph l Hph _ IH]; [done|]. simpl. by rewrite Hph, IH.
Qed.

(** No write reaches a path the system cannot resolve. *)
Lemma saved_unresolvable (az : AIConversationAnalyzer) (env : Env) (cid : string)
    (r : ConversationAnalysisResult) (w : World) (path : string) (e : exn) :
  unresolvable env path = Some e ->
  fs (saved az env cid r w) !! path = fs w !! path.
Proof.
  intros Hres. destruct (decide (path = cache_file az cid)) as [->|Hne];
    [|by apply saved_other_files].
  rewrite saved_eq. unfold unresolvable in Hres.
  by destruct (write_fault env (cache_file az cid)).
Qed.

Lemma step_task_fs (az : AIConversationAnalyzer) (env : Env)
    (convs : list Conversation) (j : nat) (p p' : Pool) (path : string) (e : exn) :
  unresolvable env path = Some e ->
  step_task az env convs j p = Some p' ->
  fs (world p') !! path = fs (world p) !! path.
Proof.
  unfold step_task. intros Hres Hstep.
  destruct (convs !! j) as [c|]; [|done].
  destruct (tasks p !! j) as [[n|n|n response|n response|issues|e0]|]; try done.
  - destruct (cached_issues az env c (world p)) as [[[issues|]|e0] w] eqn:Hcache;
      pose proof (cached_issues_fs _ _ _ _ _ _ Hcache) as Hfs.
    + injection Hstep as <-. simpl. by rewrite Hfs.
    + case_decide; injection Hstep as <-; unfold acquire; simpl; by rewrite Hfs.
    + injection Hstep as <-. unfold on_raise. case_decide; simpl; by rewrite Hfs.
  - case_decide; [|done]. injection Hstep as <-. unfold acquire. by simpl.
  - by injection Hstep as <-.
  - rewrite in_slot_eq in Hstep. destruct response as [r|e0];
      injection Hstep as <-; simpl; [|done].
    by rewrite (saved_unresolvable _ _ _ _ _ _ e).
Qed.

(** The task of a conversation whose cache file is missing at a path
    the system cannot resolve never gets past its cache check. *)
Lemma step_task_stuck (az : AIConversationAnalyzer) (env : Env)
    (convs : list Conversation) (j i : nat) (p p' : Pool) (c : Conversation)
    (e : exn) :
  no_cache az = false ->
  convs !! i = Some c ->
  unresolvable env (cache_file az (id c)) = Some e ->
  step_task az env convs j p = Some p' ->
  fs (world p) !! cache_file az (id c) = None ->
  (exists ph, tasks p !! i = Some ph /\ before_judge ph = true) ->
  exists ph, tasks p' !! i = Some ph /\ before_judge ph = true.
Proof.
  intros Hnc Hc Hres Hstep Hfs (ph & Hi & Hph).
  destruct (decide (j = i)) as [->|Hne].
  - assert (Hlen : (i < length (tasks p))%nat) by by eapply lookup_lt_Some.
    unfold step_task in Hstep. rewrite Hc, Hi in Hstep.
    destruct ph as [n|n|n response|n response|issues|e0]; try done.
    rewrite (cached_issues_raises az env c (world p) e) in Hstep.
    + injection Hstep as <-.
      destruct (on_raise_tasks i n (world p) (sem_value p) p) as (ph & -> & Hb).
      exists ph. split; [by apply list_lookup_insert_eq|done].
    + unfold cache_check. by rewrite Hnc, Hfs.
  - destruct (step_task_tasks _ _ _ _ _ _ Hstep) as (c' & old & new & _ & _ & ->).
    exists ph. by rewrite list_lookup_insert_ne.
Qed.

Lemma run_schedule_stuck (az : AIConversationAnalyzer) (env : Env)
    (convs : list Conversation) (schedule : list nat) (i : nat) (p p' : Pool)
    (c : Conversation) (e : exn) :
  no_cache az = false ->
  convs !! i = Some c ->
  unresolvable env (cache_file az (id c)) = Some e ->
  run_schedule az env convs schedule p = Some p' ->
  fs (world p) !! cache_file az (id c) = None ->
  (exists ph, tasks p !! i = Some ph /\ before_judge ph = true) ->
  exists ph, tasks p' !! i = Some ph /\ before_judge ph = true.
Proof.
  intros Hnc Hc Hres. revert p.
  induction schedule as [|j schedule IH]; intros p Hrun Hfs Hph; simpl in Hrun.
  - by injection Hrun as <-.
  - destruct (step_task az env convs j p) as [p1|] eqn:Hstep; [|done].
    apply (IH p1 Hrun).
    + by rewrite (step_task_fs _ _ _ _ _ _ _ e Hres Hstep).
    + by eapply step_task_stuck.
Qed.

Lemma forallb_lookup {A} (f : A -> bool) (l : list A) (i : nat) (x : A) :
  forallb f l = true -> l !! i = Some x -> f x = true.
Proof.
  revert i. induction l as [|y l IH]; intros i Hall Hi; [done|].
  simpl in Hall. apply andb_true_iff in Hall as [Hy Hall].
  destruct i as [|i]; simpl in Hi; [by injection Hi as <-|by eapply IH].
Qed.

(** X15. [analyze_async] raises through the cache check and in no other
    way. A run that ends either returns an analysis or raises
    [RetryError]. It returns when no cache check of the batch can raise:
    caching is off, or the system resolves the cache path of every
    conversation; the Judge, the content of the cache files and write
    faults never make it raise. It raises, under every schedule, when
    caching is on and the cache file of some conversation is missing at
    a path the system cannot resolve. *)
Theorem analyze_async_raises_at_cache_check (az : AIConversationAnalyzer) (env : Env)
    (convs : list Conversation) (schedule : list nat) (w w' : World)
    (r : outcome QualityAnalysis) :
  analyze_async az env convs schedule w = Some (r, w') ->
  (r = Raised RetryError \/ exists qa, r = Returned qa)
  /\ (checks_complete az env convs -> exists qa, r = Returned qa)
  /\ (no_cache az = false ->
      (exists c e, c ∈ convs
                   /\ unresolvable env (cache_file az (id c)) = Some e
                   /\ fs w !! cache_file az (id c) = None) ->
      r = Raised RetryError).
Proof.
  unfold analyze_async. intros Hrun.
  destruct (run_schedule az env convs schedule _) as [p|] eqn:Hp; [|done].
  split; [|split].
  - destruct (existsb is_failed (tasks p)); [injection Hrun as <- _; by left|].
    destruct (forallb is_finished (tasks p)); [|done].
    injection Hrun as <- _. eauto.
  - intros Hchk.
    pose proof (run_schedule_none_failed az env convs schedule _ p Hchk Hp
                  (init_pool_none_failed az convs w)) as Hnf.
    rewrite (none_failed_existsb _ Hnf) in Hrun.
    destruct (forallb is_finished (tasks p)); [|done].
    injection Hrun as <- _. eauto.
  - intros Hnc (c & e & Hin & Hres & Hfs).
    apply list_elem_of_lookup in Hin as [i Hc].
    destruct (run_schedule_stuck az env convs schedule i _ p c e Hnc Hc Hres Hp Hfs)
      as (ph & Hi & Hb).
    { exists (Pending 1). split; [|done]. unfold init_pool. simpl.
      change map with (@fmap list _). by rewrite list_lookup_fmap, Hc. }
    destruct (existsb is_failed (tasks p)); [by injection Hrun as <- _|].
    destruct (forallb is_finished (tasks p)) eqn:Hall; [|done].
    pose proof (forallb_lookup _ _ _ _ Hall Hi) as Hfin.
    by destruct ph.
Qed.

(** ** Every run can be brought to its end *)

Lemma turns_insert (l : list Phase) (i : nat) (old new : Phase) :
  l !! i = Some old ->
  (sum_list (map turns_left (<[i := new]> l)) + turns_left old
   = sum_list (map turns_left l) + turns_left new)%nat.
Proof.
  revert i. induction l as [|ph l IH]; intros i Hi; [done|].
  destruct i as [|i]; simpl in *.
  - injection Hi as ->. lia.
  - specialize (IH i Hi). lia.
Qed.

Lemma no_slot_held (l : list Phase) :
  Forall (fun ph => holds_slot ph <> true) l ->
  length (List.filter holds_slot l) = 0%nat.
Proof.
  induction 1 as [|ph l Hph _ IH]; [done|]. simpl.
  by destruct (holds_slot ph).
Qed.

Lemma turns_pending (l : list Phase) :
  sum_list (map turns_left l) <> 0%nat ->
  exists i ph, l !! i = Some ph /\ turns_left ph <> 0%nat.
Proof.
  induction l as [|ph l IH]; [done|]. simpl. intros Hsum.
  destruct (decide (turns_left ph = 0%nat)) as [Hz|Hnz].
  - destruct IH as (i & ph' & Hi & Hph'); [lia|]. by exists (S i), ph'.
  - by exists 0%nat, ph.
Qed.

Lemma turns_done (l : list Phase) :
  Forall (fun ph => is_failed ph = false) l ->
  sum_list (map turns_left l) = 0%nat ->
  forallb is_finished l = true.
Proof.
  induction 1 as [|ph l Hph _ IH]; [done|]. simpl. intros Hsum.
  rewrite IH by lia. by destruct ph.
Qed.

(** In a state the event loop can reach with some task not yet done,
    some task can take a turn that brings the run closer to its end: a
    task inside the block if there is one, else a task that waits for
    the slot which is then free. *)
Lemma some_task_can_run (az : AIConversationAnalyzer) (env : Env)
    (convs : list Conversation) (p : Pool) :
  (0 < max_concurrency az)%nat ->
  checks_complete az env convs ->
  length (tasks p) = length convs ->
  slots_accounted az p ->
  turns_needed p <> 0%nat ->
  exists i p1,
    step_task az env convs i p = Some p1
    /\ (turns_needed p1 < turns_needed p)%nat.
Proof.
  intros Hk Hchk Hlen Hacc Hturns. unfold turns_needed in *.
  assert (Hconv : forall i ph, tasks p !! i = Some ph ->
                    exists c, convs !! i = Some c /\ c ∈ convs).
  { intros i ph Hi. apply lookup_lt_Some in Hi. rewrite Hlen in Hi.
    destruct (lookup_lt_is_Some_2 convs i Hi) as [c Hc].
    exists c. split; [done|]. by eapply list_elem_of_lookup_2. }
  assert (Hsteps : forall i ph p1 new,
            tasks p !! i = Some ph ->
            tasks p1 = <[i := new]> (tasks p) ->
            (turns_left new < turns_left ph)%nat ->
            (sum_list (map turns_left (tasks p1))
             < sum_list (map turns_left (tasks p)))%nat).
  { intros i ph p1 new Hi -> Hlt.
    pose proof (turns_insert (tasks p) i ph new Hi). lia. }
  destruct (decide (Exists (fun ph => holds_slot ph = true) (tasks p))) as [Hex|Hno].
  - apply Exists_exists in Hex as (ph & Hin & Hph).
    apply list_elem_of_lookup in Hin as [i Hi].
    destruct (Hconv i ph Hi) as (c & Hc & _).
    destruct ph as [n|n|n response|n response|issues|e]; try done.
    + exists i. eexists. unfold step_task. rewrite Hc, Hi.
      split; [reflexivity|]. eapply (Hsteps i); [exact Hi|reflexivity|].
      simpl. lia.
    + destruct (in_slot_returns az env c response (world p)) as (issues & w & Hs & _).
      exists i. eexists. unfold step_task. rewrite Hc, Hi, Hs.
      split; [reflexivity|]. eapply (Hsteps i); [exact Hi|reflexivity|].
      simpl. lia.
  - apply not_Exists_Forall in Hno; [|intros ph; apply _].
    assert (Hfree : (0 < sem_value p)%nat).
    { unfold slots_accounted, slots_held in Hacc.
      rewrite no_slot_held in Hacc; [lia|].
      eapply Forall_impl; [exact Hno|]. by intros ph Hph. }
    destruct (turns_pending _ Hturns) as (i & ph & Hi & Hph).
    destruct (Hconv i ph Hi) as (c & Hc & Hin).
    assert (Hhold : holds_slot ph <> true).
    { rewrite Forall_forall in Hno. apply Hno. by eapply list_elem_of_lookup_2. }
    destruct ph as [n|n|n response|n response|issues|e]; try done.
    + destruct (cached_issues_completes az env c (world p)
                  (checks_complete_check az env convs c _ Hchk Hin))
        as (o & w & Hcache & _).
      destruct o as [issues|].
      * exists i. eexists. unfold step_task. rewrite Hc, Hi, Hcache.
        split; [reflexivity|]. eapply (Hsteps i); [exact Hi|reflexivity|].
        simpl. lia.
      * exists i. eexists. unfold step_task. rewrite Hc, Hi, Hcache.
        rewrite decide_True by done. split; [reflexivity|].
        match goal with
        | |- context [acquire ?e0 ?c0 ?i0 ?n0 ?w0 ?p0] =>
            destruct (acquire_tasks e0 c0 i0 n0 w0 p0) as [r Hr]
        end.
        eapply (Hsteps i); [exact Hi|exact Hr|]. simpl. lia.
    + exists i. eexists. unfold step_task. rewrite Hc, Hi.
      rewrite decide_True by done. split; [reflexivity|].
      destruct (acquire_tasks env c i n (world p) p) as [r Hr].
      eapply (Hsteps i); [exact Hi|exact Hr|]. simpl. lia.
Qed.

Lemma run_to_the_end (az : AIConversationAnalyzer) (env : Env)
    (convs : list Conversation) :
  (0 < max_concurrency az)%nat ->
  checks_complete az env convs ->
  forall (m : nat) (p : Pool),
    (turns_needed p <= m)%nat ->
    length (tasks p) = length convs ->
    slots_accounted az p ->
    exists rest p',
      run_schedule az env convs rest p = Some p' /\ turns_needed p' = 0%nat.
Proof.
  intros Hk Hchk. induction m as [|m IH]; intros p Hm Hlen Hacc.
  - exists [], p. split; [done|]. lia.
  - destruct (decide (turns_needed p = 0%nat)) as [Hz|Hnz]; [by exists [], p|].
    destruct (some_task_can_run az env convs p Hk Hchk Hlen Hacc Hnz)
      as (i & p1 & Hstep & Hlt).
    destruct (IH p1) as (rest & p' & Hrun & Hdone).
    + lia.
    + destruct (step_task_tasks _ _ _ _ _ _ Hstep) as (c & old & new & _ & _ & ->).
      by rewrite length_insert.
    + by eapply step_task_accounted.
    + exists (i :: rest), p'. simpl. by rewrite Hstep.
Qed.

(** X19. [analyze_async] cannot get stuck. With at least one slot, and
    when no cache check of the batch can raise, every state the event
    loop can reach, tasks waiting for a slot included, has a
    continuation in which every task returns: each schedule that runs
    extends to one under which [analyze_async] returns an analysis. *)
Theorem analyze_async_returns (az : AIConversationAnalyzer) (env : Env)
    (convs : list Conversation) (w : World) (began : list nat) (p : Pool) :
  (0 < max_concurrency az)%nat ->
  checks_complete az env convs ->
  run_schedule az env convs began (init_pool az convs w) = Some p ->
  exists rest qa w',
    analyze_async az env convs (began ++ rest) w = Some (Returned qa, w').
Proof.
  intros Hk Hchk Hbegan.
  destruct (run_to_the_end az env convs Hk Hchk (turns_needed p) p)
    as (rest & p' & Hrun & Hdone).
  - done.
  - rewrite (run_schedule_length _ _ _ _ _ _ Hbegan). simpl. apply length_map.
  - eapply run_schedule_accounted; [exact Hbegan|apply init_pool_accounted].
  - assert (Hall : run_schedule az env convs (began ++ rest) (init_pool az convs w)
                   = Some p')
      by by rewrite (run_schedule_app _ _ _ _ _ _ _ Hbegan).
    pose proof (run_schedule_none_failed az env convs _ _ p' Hchk Hall
                  (init_pool_none_failed az convs w)) as Hnf.
    exists rest. eexists _, _. unfold analyze_async.
    rewrite Hall, (none_failed_existsb _ Hnf), (turns_done _ Hnf Hdone).
    reflexivity.
Qed.

(** ** The properties above, at sample inputs *)

Lemma prompt_lines_name_messages_witness :
  exists conversation_str,
    _build_analysis_prompt "BEFORE " " AFTER" echo_conversation
    = "BEFORE " +:+ conversation_str +:+ " AFTER"
    /\ split_lines conversation_str = ["[0] user: hello"; "[1] user: hello"]
    /\ NoDup (split_lines conversation_str).
Proof.
  destruct (prompt_lines_name_messages "BEFORE " " AFTER" echo_conversation)
    as (conversation_str & Hprompt & Hsplit & _ & Hdup).
  - discriminate.
  - repeat constructor.
  - exists conversation_str. split; [exact Hprompt|]. split; [exact Hsplit|exact Hdup].
Defined.

Lemma fetch_all_pages_witness :
  exists w',
    fetch_all sample_fetcher sample_fetch_env true DEFAULT_PAGE_LIMIT DEFAULT_SORT_BY
              DESC 5 empty_fetch_world
    = Some (Ok ([py_conversation (sample_conversation "c1");
                 py_conversation (sample_conversation "c2")]), w')
    /\ length (f_requests w') = 2%nat.
Proof.
  apply (fetch_all_pages sample_fetcher sample_fetch_env true DEFAULT_PAGE_LIMIT
           DEFAULT_SORT_BY DESC 5 [first_page] second_page empty_fetch_world).
  - constructor; [|constructor]. split; [reflexivity|discriminate].
  - left. intros [H _]. discriminate H.
  - vm_compute. discriminate.
  - split; [eexists; split; reflexivity|].
    split; [eexists; split; reflexivity|exact I].
Defined.

Lemma cache_round_trip_witness :
  fst (_load_conversation_from_cache sample_fetcher sample_fetch_env "c1"
         (_save_conversation_to_cache sample_fetcher sample_fetch_env
            (py_conversation (sample_conversation "c1")) empty_fetch_world))
  = Some (py_conversation (sample_conversation "c1")).
Proof.
  apply (cache_round_trip sample_fetcher sample_fetch_env (sample_conversation "c1")
           empty_fetch_world); [discriminate | reflexivity | reflexivity].
Defined.

Lemma missing_score_is_urgent_witness :
  let t := triage_one default_thresholds (fst (_validate_conversation (bare_doc "c1"))) in
  t_overall_score t = 0
  /\ (t_priority t = fix_now \/ t_priority t = high)
  /\ t_overall_score (triage_one default_thresholds (bare_doc "c1")) = 100.
Proof.
  apply (missing_score_is_urgent default_thresholds (bare_doc "c1"));
    [reflexivity | vm_compute; reflexivity].
Defined.

Lemma analyze_async_raises_at_cache_check_witness :
  exists w',
    analyze_async (sample_analyzer 1 false) (name_limit_env 255)
      [sample_conversation "c1"; sample_conversation long_id]
      [0; 1; 1; 1; 1; 0; 0]%nat empty_world
    = Some (Raised RetryError, w')
    /\ sleeps w' = [2; 2; 4]
    /\ judge_calls w' = ["c1"].
Proof.
  assert (Hrun : exists r0 w0,
            analyze_async (sample_analyzer 1 false) (name_limit_env 255)
              [sample_conversation "c1"; sample_conversation long_id]
              [0; 1; 1; 1; 1; 0; 0]%nat empty_world
            = Some (r0, w0)
            /\ sleeps w0 = [2; 2; 4] /\ judge_calls w0 = ["c1"]).
  { eexists _, _. split; [vm_compute; reflexivity|]. split; reflexivity. }
  destruct Hrun as (r0 & w0 & Hrun & Hsleeps & Hcalls).
  destruct (analyze_async_raises_at_cache_check (sample_analyzer 1 false)
              (name_limit_env 255)
              [sample_conversation "c1"; sample_conversation long_id]
              [0; 1; 1; 1; 1; 0; 0]%nat empty_world w0 r0 Hrun)
    as (_ & _ & Hraise).
  exists w0. rewrite <- (Hraise eq_refl).
  - split; [exact Hrun|]. split; assumption.
  - exists (sample_conversation long_id), OSError.
    split; [set_solver|]. split; reflexivity.
Defined.

Lemma analyze_async_returns_witness :
  exists rest qa w',
    analyze_async (sample_analyzer 1 false) answering_env two_conversations
                  ([0; 1]%nat ++ rest) empty_world
    = Some (Returned qa, w').
Proof.
  eapply (analyze_async_returns (sample_analyzer 1 false) answering_env
            two_conversations empty_world [0; 1]%nat).
  - simpl. lia.
  - right. intros c _. reflexivity.
  - vm_compute. reflexivity.
Defined.

Lemma no_cache_batch_invokes_each_once_witness :
  exists qa w',
    analyze_async (sample_analyzer 1 true) answering_env
      [sample_conversation "c1"] [0; 0; 0]%nat empty_world
    = Some (Returned qa, w')
    /\ judge_calls w' ≡ₚ ["c1"].
Proof.
  eexists _, _. split; [vm_compute; reflexivity|].
  eapply (no_cache_batch_invokes_each_once (sample_analyzer 1 true) answering_env
            [sample_conversation "c1"] [0; 0; 0]%nat empty_world);
    [reflexivity | vm_compute; reflexivity].
Defined.
